(** * Verification of lrutrack: the LRU-Tracker (lrutrack.c) and the
    sized LRU cache SLRU in its two versions (slru.c).

    Shallow embedding.  Each C function becomes a Rocq function over an
    explicit state record (the C struct) that returns [option]: [None]
    stands for undefined behaviour of the C code (an array access out of
    the allocated range, a [memcmp] on a NULL key, or a loop that can
    never terminate).  The release build is modelled: [assert] is a no-op.

    The caller-supplied callbacks are modelled by a [world]: [malloc]
    answers from an oracle list (an exhausted list answers with success on
    zero-filled memory) and [evict_func] appends the evicted value to a
    log.  Buffers are modelled by their record count.  The one byte count
    the code computes in 32 bits, [items_bytesize], is checked with
    [arena_bytes_wrap]: an arena whose byte count wraps is undefined
    behaviour.  Record sizes are those of an LP64 target. *)

From Stdlib Require Import ZArith Lia Strings.Byte.
From stdpp Require Import base list sets.
Import ListNotations.

Open Scope Z_scope.

(** ** Machine integers and arrays *)

(** [UINT32_MAX], the "none" sentinel of every index field. *)
Definition NONE : Z := 4294967295.

(** uint32 wrap-around. *)
Definition u32 (z : Z) : Z := z mod 2 ^ 32.

(** uint16 wrap-around. *)
Definition u16 (z : Z) : Z := z mod 2 ^ 16.

(** [uint32_t items_bytesize = sizeof(item) * n], the byte count of an
    arena of [n] records in the [create] functions and in the doubling
    growth of the [insert] functions, is truncated to 32 bits.  When
    [sizeof(item) * n] reaches 2^32 the buffer allocated with the truncated
    count holds fewer than [n] records, and the write that ends the free
    list at [items[n - 1]] runs past it. *)
Definition arena_bytes_wrap (item_size n : Z) : bool := 2 ^ 32 <=? item_size * n.

(** Reading [a[i]]: undefined outside the allocated range. *)
Definition rd {A} (a : list A) (i : Z) : option A :=
  if (0 <=? i) && (i <? Z.of_nat (length a)) then a !! Z.to_nat i else None.

(** Writing [a[i] = x]: undefined outside the allocated range. *)
Definition wr {A} (a : list A) (i : Z) (x : A) : option (list A) :=
  if (0 <=? i) && (i <? Z.of_nat (length a)) then Some (<[Z.to_nat i := x]> a)
  else None.

(** [memset(a, v, n * sizeof *a)] on the first [n] entries. *)
Definition memset_words {A} (a : list A) (n : Z) (v : A) : option (list A) :=
  if (0 <=? n) && (n <=? Z.of_nat (length a))
  then Some (repeat v (Z.to_nat n) ++ drop (Z.to_nat n) a) else None.

(** ** The callbacks: allocator oracle and eviction log *)

(** The outcome of one [malloc_func] call: failure (NULL), or a buffer
    whose integer fields read [junk] until written (uninitialised memory). *)
Inductive alloc_result := AllocFail | AllocOk (junk : Z).

Record world := mk_world {
  w_alloc : list alloc_result;  (* answers of the next malloc_func calls *)
  w_evicted : list Z            (* values passed to evict_func, in order *)
}.

Definition malloc (w : world) : alloc_result * world :=
  match w_alloc w with
  | [] => (AllocOk 0, w)
  | r :: rs => (r, mk_world rs (w_evicted w))
  end.

Definition evict (w : world) (v : Z) : world :=
  mk_world (w_alloc w) (w_evicted w ++ [v]).

(** ** The hash (MurmurHash2, shared by both modules) *)

Definition murmur_m : Z := 1540483477. (* 0x5bd1e995 *)
Definition murmur_r : Z := 24.

Definition mul32 (a b : Z) : Z := u32 (a * b).

Definition b2z (b : Byte.byte) : Z := Z.of_N (Byte.to_N b).

(** The [while (len >= 4)] loop followed by the fall-through [switch]. *)
Fixpoint murmur_body (h : Z) (data : list Byte.byte) : Z :=
  match data with
  | d0 :: d1 :: d2 :: d3 :: rest =>
      let k := Z.lor (Z.lor (Z.lor (b2z d0) (Z.shiftl (b2z d1) 8))
                        (Z.shiftl (b2z d2) 16)) (Z.shiftl (b2z d3) 24) in
      let k := mul32 k murmur_m in
      let k := Z.lxor k (Z.shiftr k murmur_r) in
      let k := mul32 k murmur_m in
      let h := mul32 h murmur_m in
      murmur_body (Z.lxor h k) rest
  | [d0; d1; d2] =>
      mul32 (Z.lxor (Z.lxor (Z.lxor h (Z.shiftl (b2z d2) 16))
                       (Z.shiftl (b2z d1) 8)) (b2z d0)) murmur_m
  | [d0; d1] =>
      mul32 (Z.lxor (Z.lxor h (Z.shiftl (b2z d1) 8)) (b2z d0)) murmur_m
  | [d0] => mul32 (Z.lxor h (b2z d0)) murmur_m
  | [] => h
  end.

(** [lrutrack_hash] / [slru_hash]: the key is the [len] bytes at [key]. *)
Definition murmur_hash (key : list Byte.byte) (len seed hash_table_size : Z) : Z :=
  let h := murmur_body (Z.lxor seed len) key in
  let h := Z.lxor h (Z.shiftr h 13) in
  let h := mul32 h murmur_m in
  let h := Z.lxor h (Z.shiftr h 15) in
  Z.land h (u32 (hash_table_size - 1)).

(** Byte-wise key equality, as [memcmp(...) == 0]. *)
Fixpoint bytes_eqb (a b : list Byte.byte) : bool :=
  match a, b with
  | [], [] => true
  | x :: a', y :: b' => Byte.eqb x y && bytes_eqb a' b'
  | _, _ => false
  end.

(** The length the string-key helpers pass: [strlen(key)]. *)
Definition key_len (key : list Byte.byte) : Z := Z.of_nat (length key).

(** [for (i = lo; i < hi; ++i) a[i] = body(i, a[i]);]  Each step is a
    checked write, so a loop running past the end of [a] is undefined;
    the fuel [S (length a)] is therefore never the cause of a [None]. *)
Fixpoint for_items {A} (fuel : nat) (body : Z -> A -> A) (i hi : Z)
    (a : list A) : option (list A) :=
  match fuel with
  | O => None
  | S f =>
      if i <? hi then
        x ← rd a i; a' ← wr a i (body i x); for_items f body (u32 (i + 1)) hi a'
      else Some a
  end.

Definition for_range {A} (body : Z -> A -> A) (lo hi : Z) (a : list A) :
    option (list A) :=
  for_items (S (length a)) body lo hi a.

(** The [while (iter != UINT32_MAX)] walk of [slru_remove] and
    [lrutrack_remove] that finds the predecessor of [index] on its row. *)
Fixpoint prev_walk {I} (next_of : I -> Z) (its : list I) (index : Z) (fuel : nat)
    (prev iter : Z) : option Z :=
  match fuel with
  | O => None
  | S f =>
      if iter =? NONE then Some prev
      else if iter =? index then Some prev
      else it ← rd its iter; prev_walk next_of its index f iter (next_of it)
  end.

(** The row indices [0 .. n-1] of a [for (i = 0; i < n; ++i)] loop. *)
Definition rows (n : Z) : list Z := map Z.of_nat (seq 0 (Z.to_nat n)).

(** * SLRU, version 1 (slru.c, lines 1-594) *)

Module Slru.

(** [sizeof(slru_item_t)] on an LP64 target: a pointer, two uint16_t and
    two uint32_t fields (20 bytes), padded to 24. *)
Definition SIZEOF_ITEM : Z := 24.

Definition SLRU_OK : Z := 0.
Definition SLRU_ERROR : Z := 1.
Definition SLRU_OOM : Z := 2.
Definition SLRU_NOT_FOUND : Z := 3.
Definition SLRU_DOESNT_FIT : Z := 4.

Record slru_item_t := mk_item {
  key : option (list Byte.byte);  (* NULL or the owned copy of the key *)
  key_length : Z;                 (* uint16 *)
  consumption : Z;                (* uint16; 0 marks a free slot *)
  value : Z;
  next : Z                        (* next item on a row or on the free list *)
}.

Definition zero_item : slru_item_t := mk_item None 0 0 0 0.
Definition junk_item (j : Z) : slru_item_t := mk_item None (u16 j) (u16 j) (u32 j) (u32 j).

Definition with_key (it : slru_item_t) (k : option (list Byte.byte)) :=
  mk_item k (key_length it) (consumption it) (value it) (next it).
Definition with_next (it : slru_item_t) (n : Z) :=
  mk_item (key it) (key_length it) (consumption it) (value it) n.

Record slru_t := mk_slru {
  hash_table : list Z;            (* first item index on a row *)
  hash_table_lru_links : list Z;  (* 2 * hash_table_size, 0 = prev, 1 = next *)
  items : list slru_item_t;
  num_items : Z;
  num_items_in_use : Z;
  hash_table_size : Z;
  lru_head : Z;                   (* hash table index *)
  lru_tail : Z;
  seed : Z;
  first_free : Z;
  cache_left : Z;
  debug_cache_size : Z            (* SLRU_ONLY_IN_DEBUG: the cache_size given to create *)
}.

Definition set_hash_table (s : slru_t) (v : list Z) : slru_t :=
  mk_slru v (hash_table_lru_links s) (items s) (num_items s) (num_items_in_use s)
    (hash_table_size s) (lru_head s) (lru_tail s) (seed s) (first_free s) (cache_left s)
    (debug_cache_size s).
Definition set_links (s : slru_t) (v : list Z) : slru_t :=
  mk_slru (hash_table s) v (items s) (num_items s) (num_items_in_use s)
    (hash_table_size s) (lru_head s) (lru_tail s) (seed s) (first_free s) (cache_left s)
    (debug_cache_size s).
Definition set_items (s : slru_t) (v : list slru_item_t) : slru_t :=
  mk_slru (hash_table s) (hash_table_lru_links s) v (num_items s) (num_items_in_use s)
    (hash_table_size s) (lru_head s) (lru_tail s) (seed s) (first_free s) (cache_left s)
    (debug_cache_size s).
Definition set_num_items (s : slru_t) (v : Z) : slru_t :=
  mk_slru (hash_table s) (hash_table_lru_links s) (items s) v (num_items_in_use s)
    (hash_table_size s) (lru_head s) (lru_tail s) (seed s) (first_free s) (cache_left s)
    (debug_cache_size s).
Definition set_num_items_in_use (s : slru_t) (v : Z) : slru_t :=
  mk_slru (hash_table s) (hash_table_lru_links s) (items s) (num_items s) v
    (hash_table_size s) (lru_head s) (lru_tail s) (seed s) (first_free s) (cache_left s)
    (debug_cache_size s).
Definition set_lru_head (s : slru_t) (v : Z) : slru_t :=
  mk_slru (hash_table s) (hash_table_lru_links s) (items s) (num_items s)
    (num_items_in_use s) (hash_table_size s) v (lru_tail s) (seed s) (first_free s)
    (cache_left s) (debug_cache_size s).
Definition set_lru_tail (s : slru_t) (v : Z) : slru_t :=
  mk_slru (hash_table s) (hash_table_lru_links s) (items s) (num_items s)
    (num_items_in_use s) (hash_table_size s) (lru_head s) v (seed s) (first_free s)
    (cache_left s) (debug_cache_size s).
Definition set_first_free (s : slru_t) (v : Z) : slru_t :=
  mk_slru (hash_table s) (hash_table_lru_links s) (items s) (num_items s)
    (num_items_in_use s) (hash_table_size s) (lru_head s) (lru_tail s) (seed s) v
    (cache_left s) (debug_cache_size s).
Definition set_cache_left (s : slru_t) (v : Z) : slru_t :=
  mk_slru (hash_table s) (hash_table_lru_links s) (items s) (num_items s)
    (num_items_in_use s) (hash_table_size s) (lru_head s) (lru_tail s) (seed s)
    (first_free s) v (debug_cache_size s).

(** [hash_table_lru_links[b * 2 + k]], index computed in uint32. *)
Definition get_link (s : slru_t) (b k : Z) : option Z :=
  rd (hash_table_lru_links s) (u32 (b * 2 + k)).
Definition set_link (s : slru_t) (b k v : Z) : option slru_t :=
  l ← wr (hash_table_lru_links s) (u32 (b * 2 + k)) v; Some (set_links s l).
Definition set_ht (s : slru_t) (i v : Z) : option slru_t :=
  l ← wr (hash_table s) i v; Some (set_hash_table s l).
Definition set_item (s : slru_t) (i : Z) (it : slru_item_t) : option slru_t :=
  l ← wr (items s) i it; Some (set_items s l).

Definition slru_hash (key : list Byte.byte) (len seed hash_table_size : Z) : Z :=
  murmur_hash key len seed hash_table_size.

(** [slru_cmp_keys]: a NULL stored key reaching [memcmp] is undefined. *)
Definition slru_cmp_keys (a : list Byte.byte) (a_length : Z)
    (b : option (list Byte.byte)) (b_length : Z) : option bool :=
  if negb (a_length =? b_length) then Some false
  else match b with None => None | Some kb => Some (bytes_eqb a kb) end.

(** The body of the [while] loop of [slru_evict_oldest]: free every item of
    the evicted row. *)
Fixpoint slru_evict_chain (fuel : nat) (iter : Z) (s : slru_t) (w : world) :
    option (slru_t * world) :=
  match fuel with
  | O => None
  | S f =>
      if iter =? NONE then Some (s, w) else
      item ← rd (items s) iter;
      let w := evict w (value item) in
      let s := set_num_items_in_use s (u32 (num_items_in_use s - 1)) in
      let s := set_cache_left s (u32 (cache_left s + consumption item)) in
      let nxt := next item in
      s ← set_item s iter (mk_item None (key_length item) 0 (value item) (first_free s));
      let s := set_first_free s iter in
      slru_evict_chain f nxt s w
  end.

Definition slru_evict_oldest (s : slru_t) (w : world) : option (Z * slru_t * world) :=
  new_tail ← get_link s (lru_tail s) 0;
  s ← set_link s (lru_tail s) 0 NONE;
  s ← set_link s new_tail 1 NONE;
  iter ← rd (hash_table s) (lru_tail s);
  s ← set_ht s (lru_tail s) NONE;
  let s := if lru_head s =? lru_tail s then set_lru_head s new_tail else s in
  let s := set_lru_tail s new_tail in
  '(s, w) ← slru_evict_chain (S (length (items s))) iter s w;
  Some (SLRU_OK, s, w).

Fixpoint slru_find_loop (its : list slru_item_t) (k : list Byte.byte)
    (k_length : Z) (fuel : nat) (iter : Z) : option Z :=
  match fuel with
  | O => None
  | S f =>
      if iter =? NONE then Some iter else
      it ← rd its iter;
      c ← slru_cmp_keys k k_length (key it) (key_length it);
      if (c : bool) then Some iter else slru_find_loop its k k_length f (next it)
  end.

(** A walk of more than [length items] steps revisits a slot and so never
    ends: the fuel [S (length items)] makes [None] exactly that case. *)
Definition slru_find_index (s : slru_t) (k : list Byte.byte) (k_length hash : Z) :
    option Z :=
  iter ← rd (hash_table s) hash;
  slru_find_loop (items s) k k_length (S (length (items s))) iter.

Definition slru_insert_to_lru_head (s : slru_t) (i : Z) : option slru_t :=
  if negb (lru_head s =? NONE) then
    s ← set_link s (lru_head s) 0 i;
    s ← set_link s i 1 (lru_head s);
    Some (set_lru_head s i)
  else Some (set_lru_tail (set_lru_head s i) i).

(** As in the source: the interior branch writes [links[prev*2+0]] and
    [links[next*2+1]]. *)
Definition slru_remove_from_lru (s : slru_t) (i : Z) : option slru_t :=
  if lru_head s =? lru_tail s then Some (set_lru_tail (set_lru_head s NONE) NONE)
  else if i =? lru_head s then
    nh ← get_link s i 1;
    let s := set_lru_head s nh in
    s ← set_link s nh 0 NONE;
    set_link s i 1 NONE
  else if i =? lru_tail s then
    nt ← get_link s i 0;
    let s := set_lru_tail s nt in
    s ← set_link s nt 1 NONE;
    set_link s i 0 NONE
  else
    prev ← get_link s i 0;
    nxt ← get_link s i 1;
    s ← set_link s prev 0 nxt;
    s ← set_link s nxt 1 prev;
    s ← set_link s i 0 NONE;
    set_link s i 1 NONE.

Definition slru_move_to_lru_head (s : slru_t) (i : Z) : option slru_t :=
  if negb (lru_head s =? lru_tail s) then
    if i =? lru_tail s then
      nt ← get_link s i 0;
      let s := set_lru_tail s nt in
      s ← set_link s i 0 NONE;
      s ← set_link s nt 1 NONE;
      s ← set_link s (lru_head s) 0 i;
      s ← set_link s i 1 (lru_head s);
      Some (set_lru_head s i)
    else if negb (i =? lru_head s) then
      prev ← get_link s i 0;
      nxt ← get_link s i 1;
      s ← set_link s nxt 0 prev;
      s ← set_link s prev 1 nxt;
      s ← set_link s i 0 NONE;
      s ← set_link s i 1 (lru_head s);
      s ← set_link s (lru_head s) 0 i;
      Some (set_lru_head s i)
    else Some s
  else Some s.

(** The arena-growth block of [slru_insert] (lines 433-473), entered when
    [first_free == UINT32_MAX].  [false] is the early [return SLRU_OOM]. *)
Definition slru_insert_grow (s : slru_t) (w : world) : option (bool * slru_t * world) :=
  if num_items s =? 0 then
    let n := hash_table_size s in
    let '(r, w) := malloc w in
    match r with
    | AllocFail => Some (false, set_items s [], w)
    | AllocOk j =>
        (* fresh buffer, not cleared: its records are uninitialised *)
        let s := set_num_items (set_items s (repeat (junk_item j) (Z.to_nat n))) n in
        its ← for_range (fun i it => with_next it (u32 (i + 1))) 0 (u32 (n - 1)) (items s);
        last ← rd its (u32 (n - 1));
        its ← wr its (u32 (n - 1)) (with_next last NONE);
        Some (true, set_first_free (set_items s its) 0, w)
    end
  else
    let old_items := items s in
    let old_num_items := num_items s in
    let s := set_num_items s (u32 (num_items s * 2)) in
    let '(r, w) := malloc w in
    match r with
    | AllocFail => Some (false, set_items s [], w)
    | AllocOk j =>
        let n := num_items s in
        (* items_bytesize = sizeof(item) * num_items, a uint32_t *)
        if arena_bytes_wrap SIZEOF_ITEM n then None else
        let buf := repeat (junk_item j) (Z.to_nat n) in
        (* memcpy(items, old_items, old_num_items records) *)
        if negb ((old_num_items <=? n) && (old_num_items <=? Z.of_nat (length old_items)))
        then None else
        let buf := take (Z.to_nat old_num_items) old_items ++ drop (Z.to_nat old_num_items) buf in
        (* memset(items + old_num_items, 0, ...) *)
        let buf := take (Z.to_nat old_num_items) buf
                   ++ repeat zero_item (Z.to_nat (n - old_num_items)) in
        its ← for_range (fun i it => with_next it (u32 (i + 1)))
                old_num_items (u32 (n - 1)) buf;
        last ← rd its (u32 (n - 1));
        its ← wr its (u32 (n - 1)) (with_next last NONE);
        Some (true, set_first_free (set_items s its) old_num_items, w)
    end.

(** [while (cache_left < consumption) { if (slru_evict_oldest() != SLRU_OK)
    break; }].  Every iteration that is defined clears the predecessor link
    of the row it evicts, so a row is never evicted twice before the loop
    reads the none sentinel as a row; the fuel is never the cause of a
    [None]. *)
Fixpoint slru_make_room (fuel : nat) (c : Z) (s : slru_t) (w : world) :
    option (slru_t * world) :=
  match fuel with
  | O => None
  | S f =>
      if cache_left s <? c then
        '(r, s, w) ← slru_evict_oldest s w;
        if negb (r =? SLRU_OK) then Some (s, w) else slru_make_room f c s w
      else Some (s, w)
  end.

Definition slru_insert (s : slru_t) (w : world) (k : list Byte.byte) (v c : Z) :
    option (Z * slru_t * world) :=
  '(s, w) ← slru_make_room (S (length (hash_table_lru_links s))) c s w;
  if cache_left s <? c then Some (SLRU_DOESNT_FIT, s, w) else
  let s := set_cache_left s (u32 (cache_left s - c)) in
  let klen := key_len k in
  let hash := slru_hash k klen (seed s) (hash_table_size s) in
  '(ok, s, w) ← (if first_free s =? NONE then slru_insert_grow s w else Some (true, s, w));
  if negb ok then Some (SLRU_OOM, s, w) else
  let index := first_free s in
  item ← rd (items s) index;
  let '(r, w) := malloc w in
  match r with
  | AllocFail =>
      s ← set_item s index (with_key item None);
      Some (SLRU_OOM, s, w)
  | AllocOk _ =>
      s ← set_item s index (mk_item (Some k) klen c v (next item));
      hh ← rd (hash_table s) hash;
      s ← (if hh =? NONE then slru_insert_to_lru_head s hash
           else slru_move_to_lru_head s hash);
      item ← rd (items s) index;
      let s := set_first_free s (next item) in
      hh ← rd (hash_table s) hash;
      s ← set_item s index (with_next item hh);
      s ← set_ht s hash index;
      Some (SLRU_OK, set_num_items_in_use s (u32 (num_items_in_use s + 1)), w)
  end.

Definition slru_remove (s : slru_t) (w : world) (k : list Byte.byte) :
    option (Z * slru_t * world) :=
  let klen := key_len k in
  let hash := slru_hash k klen (seed s) (hash_table_size s) in
  index ← slru_find_index s k klen hash;
  if index =? NONE then Some (SLRU_NOT_FOUND, s, w) else
  item ← rd (items s) index;
  h0 ← rd (hash_table s) hash;
  prev_index ← prev_walk next (items s) index (S (length (items s))) NONE h0;
  s ← (if prev_index =? NONE then
         s ← set_ht s hash (next item);
         hh ← rd (hash_table s) hash;
         if hh =? NONE then slru_remove_from_lru s hash else Some s
       else
         pit ← rd (items s) prev_index;
         set_item s prev_index (with_next pit (next item)));
  item ← rd (items s) index;
  s ← set_item s index (mk_item None (key_length item) 0 (value item) (first_free s));
  let s := set_first_free s index in
  let s := set_cache_left s (u32 (cache_left s + consumption item)) in
  Some (SLRU_OK, set_num_items_in_use s (u32 (num_items_in_use s - 1)), w).

Definition slru_fetch (s : slru_t) (k : list Byte.byte) (invalid_value : Z) :
    option (Z * slru_t) :=
  let klen := key_len k in
  let hash := slru_hash k klen (seed s) (hash_table_size s) in
  index ← slru_find_index s k klen hash;
  if index =? NONE then Some (invalid_value, s) else
  s ← slru_move_to_lru_head s hash;
  item ← rd (items s) index;
  Some (value item, s).

(** The inner [while] of [slru_remove_all] on one row. *)
Fixpoint slru_clear_chain (fuel : nat) (iter : Z) (s : slru_t) (w : world) :
    option (slru_t * world) :=
  match fuel with
  | O => None
  | S f =>
      if iter =? NONE then Some (s, w) else
      item ← rd (items s) iter;
      let w := evict w (value item) in
      s ← set_item s iter (with_key item None);
      let s := set_cache_left s (u32 (cache_left s + consumption item)) in
      slru_clear_chain f (next item) s w
  end.

Fixpoint slru_clear_rows (rows : list Z) (s : slru_t) (w : world) :
    option (slru_t * world) :=
  match rows with
  | [] => Some (s, w)
  | i :: rows' =>
      iter ← rd (hash_table s) i;
      '(s, w) ← slru_clear_chain (S (length (items s))) iter s w;
      slru_clear_rows rows' s w
  end.

Definition slru_remove_all (s : slru_t) (w : world) : option (slru_t * world) :=
  '(s, w) ← slru_clear_rows (rows (hash_table_size s)) s w;
  ht ← memset_words (hash_table s) (hash_table_size s) NONE;
  lk ← memset_words (hash_table_lru_links s) (hash_table_size s * 2) NONE;
  its ← memset_words (items s) (num_items s) zero_item;
  its ← for_range (fun i it => with_next it (u32 (i + 1))) 0 (u32 (num_items s - 1)) its;
  last ← rd its (u32 (num_items s - 1));
  its ← wr its (u32 (num_items s - 1)) (with_next last NONE);
  let s := set_items (set_links (set_hash_table s ht) lk) its in
  let s := set_first_free s 0 in
  Some (set_num_items_in_use s 0, w).

(** [slru_create]: [None] in the first component is the NULL handle. *)
Definition slru_create (hash_table_size num_initial_items cache_size : Z) (w : world) :
    option (option slru_t * world) :=
  let '(r1, w) := malloc w in
  match r1 with AllocFail => Some (None, w) | AllocOk _ =>
  let '(r2, w) := malloc w in
  match r2 with AllocFail => Some (None, w) | AllocOk _ =>
  let '(r3, w) := malloc w in
  match r3 with AllocFail => Some (None, w) | AllocOk _ =>
  let s := mk_slru (repeat NONE (Z.to_nat hash_table_size))
             (repeat NONE (Z.to_nat (hash_table_size * 2))) [] 0 0 hash_table_size
             NONE NONE 0 0 cache_size cache_size in
  if negb (num_initial_items =? 0) then
    let '(r4, w) := malloc w in
    match r4 with AllocFail => Some (None, w) | AllocOk _ =>
    (* items_bytesize = sizeof(item) * num_initial_items, a uint32_t *)
    if arena_bytes_wrap SIZEOF_ITEM num_initial_items then None else
    let its := repeat zero_item (Z.to_nat num_initial_items) in
    its ← for_range (fun i it => with_next it (u32 (i + 1))) 0
            (u32 (num_initial_items - 1)) its;
    last ← rd its (u32 (num_initial_items - 1));
    its ← wr its (u32 (num_initial_items - 1)) (with_next last NONE);
    Some (Some (set_first_free (set_num_items (set_items s its) num_initial_items) 0), w)
    end
  else Some (Some (set_first_free s NONE), w)
  end end end.

(** Sum of [consumption] over the in-use slots (those with non-zero
    consumption), as in the [SLRU_HC_TESTS] block of
    [slru_check_internal_state]. *)
Definition consumed_total (s : slru_t) : Z :=
  fold_right (fun it acc => if consumption it =? 0 then acc else consumption it + acc)
    0 (items s).

End Slru.

(** * SLRU, version 2 (slru.c, lines 595-1076)

    The second implementation in slru.c: one pool of slots linked into
    hash rows and a free list, no LRU list; [slru_free_one] evicts the
    slot with the smallest timestamp over all rows. *)

Module Slru2.

(** [sizeof(slru_item_t)] on an LP64 target: a pointer and five uint32_t
    fields (28 bytes), padded to 32. *)
Definition SIZEOF_ITEM : Z := 32.

Definition SLRU_OK : Z := 0.
Definition SLRU_ERROR : Z := 1.
Definition SLRU_OOM : Z := 2.
Definition SLRU_NOT_FOUND : Z := 3.
Definition SLRU_DOESNT_FIT : Z := 4.

(** [0x55555555], [0x33333333], [0x0F0F0F0F], [0x01010101]. *)
Definition m1 : Z := 1431655765.
Definition m2 : Z := 858993459.
Definition m4 : Z := 252645135.
Definition h01 : Z := 16843009.

(** [slru_popcount]: every uint32 operation wraps; in the last line [+]
    binds tighter than [&]. *)
Definition slru_popcount (n : Z) : Z :=
  let n := u32 (n - Z.land (Z.shiftr n 1) m1) in
  let n := u32 (Z.land n m2 + Z.land (Z.shiftr n 2) m2) in
  Z.shiftr (mul32 (Z.land (u32 (n + Z.shiftr n 4)) m4) h01) 24.

Definition slru_ctz (x : Z) : Z := slru_popcount (Z.land (u32 (Z.lnot x)) (u32 (x - 1))).

(** [1 << e] on an [int]: undefined unless [2^e] is an [int]. *)
Definition int_shl1 (e : Z) : option Z :=
  if (0 <=? e) && (e <? 31) then Some (Z.shiftl 1 e) else None.

(** [slru_hash]: as [murmur_hash], but the row is [h % hash_table_size];
    a zero divisor is undefined. *)
Definition slru_hash (key : list Byte.byte) (len seed hash_table_size : Z) : option Z :=
  let h := murmur_body (Z.lxor seed len) key in
  let h := Z.lxor h (Z.shiftr h 13) in
  let h := mul32 h murmur_m in
  let h := Z.lxor h (Z.shiftr h 15) in
  if hash_table_size =? 0 then None else Some (h mod hash_table_size).

(** [slru_cmp_keys]: a NULL stored key reaching [memcmp] is undefined. *)
Definition slru_cmp_keys (a : list Byte.byte) (a_length : Z)
    (b : option (list Byte.byte)) (b_length : Z) : option bool :=
  if negb (a_length =? b_length) then Some false
  else match b with None => None | Some kb => Some (bytes_eqb a kb) end.

Record slru_item_t := mk_item {
  key : option (list Byte.byte);  (* NULL or the owned copy of the key *)
  key_length : Z;
  value : Z;
  consumption : Z;                (* 0 marks a free slot *)
  timestamp : Z;
  next : Z                        (* next item on a row or on the free list *)
}.

Definition zero_item : slru_item_t := mk_item None 0 0 0 0 0.
Definition junk_item (j : Z) : slru_item_t := mk_item None (u32 j) (u32 j) (u32 j) (u32 j) (u32 j).

Definition with_key (it : slru_item_t) (k : option (list Byte.byte)) :=
  mk_item k (key_length it) (value it) (consumption it) (timestamp it) (next it).
Definition with_next (it : slru_item_t) (n : Z) :=
  mk_item (key it) (key_length it) (value it) (consumption it) (timestamp it) n.
Definition with_timestamp (it : slru_item_t) (ts : Z) :=
  mk_item (key it) (key_length it) (value it) (consumption it) ts (next it).
Definition with_consumption (it : slru_item_t) (c : Z) :=
  mk_item (key it) (key_length it) (value it) c (timestamp it) (next it).

Record slru_t := mk_slru {
  hash_table : list Z;            (* first item index on a row *)
  items : list slru_item_t;
  num_items : Z;
  hash_table_size : Z;
  seed : Z;
  first_free : Z;
  timestamp_ctr : Z;              (* the field [timestamp] of [slru_t] *)
  cache_left : Z;
  debug_cache_size : Z            (* SLRU_ONLY_IN_DEBUG: the cache_size given to create *)
}.

Definition set_hash_table (s : slru_t) (v : list Z) : slru_t :=
  mk_slru v (items s) (num_items s) (hash_table_size s) (seed s) (first_free s)
    (timestamp_ctr s) (cache_left s) (debug_cache_size s).
Definition set_items (s : slru_t) (v : list slru_item_t) : slru_t :=
  mk_slru (hash_table s) v (num_items s) (hash_table_size s) (seed s) (first_free s)
    (timestamp_ctr s) (cache_left s) (debug_cache_size s).
Definition set_num_items (s : slru_t) (v : Z) : slru_t :=
  mk_slru (hash_table s) (items s) v (hash_table_size s) (seed s) (first_free s)
    (timestamp_ctr s) (cache_left s) (debug_cache_size s).
Definition set_first_free (s : slru_t) (v : Z) : slru_t :=
  mk_slru (hash_table s) (items s) (num_items s) (hash_table_size s) (seed s) v
    (timestamp_ctr s) (cache_left s) (debug_cache_size s).
Definition set_timestamp_ctr (s : slru_t) (v : Z) : slru_t :=
  mk_slru (hash_table s) (items s) (num_items s) (hash_table_size s) (seed s) (first_free s)
    v (cache_left s) (debug_cache_size s).
Definition set_cache_left (s : slru_t) (v : Z) : slru_t :=
  mk_slru (hash_table s) (items s) (num_items s) (hash_table_size s) (seed s) (first_free s)
    (timestamp_ctr s) v (debug_cache_size s).

Definition set_ht (s : slru_t) (i v : Z) : option slru_t :=
  l ← wr (hash_table s) i v; Some (set_hash_table s l).
Definition set_item (s : slru_t) (i : Z) (it : slru_item_t) : option slru_t :=
  l ← wr (items s) i it; Some (set_items s l).

(** The scan of [slru_free_one]: the oldest item found so far, as
    [(min_timestamp, min_index, min_prev_index, min_hash)]. *)
Definition scan_state : Type := Z * Z * Z * Z.

(** The inner [while] of the scan, on row [i]. *)
Fixpoint slru_scan_chain (its : list slru_item_t) (i : Z) (fuel : nat)
    (prev_iter iter : Z) (m : scan_state) : option scan_state :=
  match fuel with
  | O => None
  | S f =>
      if iter =? NONE then Some m else
      item ← rd its iter;
      let '(min_ts, _, _, _) := m in
      let m := if timestamp item <? min_ts then (timestamp item, iter, prev_iter, i) else m in
      slru_scan_chain its i f iter (next item) m
  end.

Fixpoint slru_scan_rows (s : slru_t) (rs : list Z) (m : scan_state) : option scan_state :=
  match rs with
  | [] => Some m
  | i :: rs' =>
      iter ← rd (hash_table s) i;
      m ← slru_scan_chain (items s) i (S (length (items s))) NONE iter m;
      slru_scan_rows s rs' m
  end.

Definition slru_free_one (s : slru_t) (w : world) : option (Z * slru_t * world) :=
  '(_, min_index, min_prev_index, min_hash) ←
    slru_scan_rows s (rows (hash_table_size s)) (NONE, NONE, NONE, NONE);
  if min_index =? NONE then Some (SLRU_ERROR, s, w) else
  item ← rd (items s) min_index;
  let w := evict w (value item) in
  s ← set_item s min_index (with_key item None);
  s ← (if negb (min_prev_index =? NONE) then
         pit ← rd (items s) min_prev_index;
         set_item s min_prev_index (with_next pit (next item))
       else set_ht s min_hash (next item));
  item ← rd (items s) min_index;
  s ← set_item s min_index (with_next item (first_free s));
  let s := set_first_free s min_index in
  item ← rd (items s) min_index;
  let s := set_cache_left s (u32 (cache_left s + consumption item)) in
  s ← set_item s min_index (with_consumption item 0);
  Some (SLRU_OK, s, w).

(** [slru_find_index_by_hash]; a walk of more than [length items] steps
    revisits a slot and so never ends. *)
Fixpoint slru_find_loop (its : list slru_item_t) (k : list Byte.byte)
    (k_length : Z) (fuel : nat) (iter : Z) : option Z :=
  match fuel with
  | O => None
  | S f =>
      if iter =? NONE then Some iter else
      it ← rd its iter;
      c ← slru_cmp_keys k k_length (key it) (key_length it);
      if (c : bool) then Some iter else slru_find_loop its k k_length f (next it)
  end.

Definition slru_find_index_by_hash (s : slru_t) (k : list Byte.byte) (k_length hash : Z) :
    option Z :=
  iter ← rd (hash_table s) hash;
  slru_find_loop (items s) k k_length (S (length (items s))) iter.

Definition slru_find_index (s : slru_t) (k : list Byte.byte) (k_length : Z) : option Z :=
  hash ← slru_hash k k_length (seed s) (hash_table_size s);
  slru_find_index_by_hash s k k_length hash.

(** [slru_create]: [None] in the first component is the NULL handle.  The
    [slru_destroy] of the failure paths frees a handle without slots, which
    evicts nothing. *)
Definition slru_create (hash_table_size num_initial_items cache_size : Z) (w : world) :
    option (option slru_t * world) :=
  let '(r1, w) := malloc w in
  match r1 with AllocFail => Some (None, w) | AllocOk _ =>
  let '(r2, w) := malloc w in
  match r2 with AllocFail => Some (None, w) | AllocOk _ =>
  (* the handle is zero-filled: no seed parameter, seed 0 *)
  let s := mk_slru (repeat NONE (Z.to_nat hash_table_size)) [] 0 hash_table_size 0 0 0
             cache_size cache_size in
  if negb (num_initial_items =? 0) then
    let '(r3, w) := malloc w in
    match r3 with AllocFail => Some (None, w) | AllocOk _ =>
    (* items_bytesize = sizeof(item) * num_initial_items, a uint32_t *)
    if arena_bytes_wrap SIZEOF_ITEM num_initial_items then None else
    let its := repeat zero_item (Z.to_nat num_initial_items) in
    its ← for_range (fun i it => with_next it (u32 (i + 1))) 0
            (u32 (num_initial_items - 1)) its;
    last ← rd its (u32 (num_initial_items - 1));
    its ← wr its (u32 (num_initial_items - 1)) (with_next last NONE);
    Some (Some (set_first_free (set_num_items (set_items s its) num_initial_items) 0), w)
    end
  else Some (Some (set_first_free s NONE), w)
  end end.

(** The loop of [slru_destroy]: every slot [i < num_items] with non-zero
    consumption has its key freed and its value evicted. *)
Fixpoint slru_destroy_loop (its : list slru_item_t) (is : list Z) (w : world) :
    option world :=
  match is with
  | [] => Some w
  | i :: is' =>
      item ← rd its i;
      slru_destroy_loop its is' (if negb (consumption item =? 0) then evict w (value item) else w)
  end.

Definition slru_destroy (s : slru_t) (w : world) : option world :=
  slru_destroy_loop (items s) (rows (num_items s)) w.

(** The inner [while] of [slru_remove_all] on one row. *)
Fixpoint slru_clear_chain (fuel : nat) (iter : Z) (s : slru_t) (w : world) :
    option (slru_t * world) :=
  match fuel with
  | O => None
  | S f =>
      if iter =? NONE then Some (s, w) else
      item ← rd (items s) iter;
      let w := evict w (value item) in
      s ← set_item s iter (with_key item None);
      let s := set_cache_left s (u32 (cache_left s + consumption item)) in
      slru_clear_chain f (next item) s w
  end.

Fixpoint slru_clear_rows (rs : list Z) (s : slru_t) (w : world) :
    option (slru_t * world) :=
  match rs with
  | [] => Some (s, w)
  | i :: rs' =>
      iter ← rd (hash_table s) i;
      '(s, w) ← slru_clear_chain (S (length (items s))) iter s w;
      slru_clear_rows rs' s w
  end.

(** [slru_remove_all]: the relinking loop runs to [num_items - 1] computed
    in uint32, with no guard for an arena without slots. *)
Definition slru_remove_all (s : slru_t) (w : world) : option (slru_t * world) :=
  '(s, w) ← slru_clear_rows (rows (hash_table_size s)) s w;
  ht ← memset_words (hash_table s) (hash_table_size s) NONE;
  its ← memset_words (items s) (num_items s) zero_item;
  its ← for_range (fun i it => with_next it (u32 (i + 1))) 0 (u32 (num_items s - 1)) its;
  last ← rd its (u32 (num_items s - 1));
  its ← wr its (u32 (num_items s - 1)) (with_next last NONE);
  Some (set_first_free (set_items (set_hash_table s ht) its) 0, w).

(** The arena-growth block of [slru_insert], entered when
    [first_free == UINT32_MAX].  [false] is the early [return SLRU_OOM]. *)
Definition slru_insert_grow (s : slru_t) (w : world) : option (bool * slru_t * world) :=
  if num_items s =? 0 then
    n ← int_shl1 (slru_ctz (hash_table_size s));
    let '(r, w) := malloc w in
    match r with
    | AllocFail => Some (false, set_items s [], w)
    | AllocOk j =>
        (* fresh buffer, not cleared: its records are uninitialised *)
        let s := set_num_items (set_items s (repeat (junk_item j) (Z.to_nat n))) n in
        its ← for_range (fun i it => with_next it (u32 (i + 1))) 0 (u32 (num_items s - 1))
                (items s);
        last ← rd its (u32 (num_items s - 1));
        its ← wr its (u32 (num_items s - 1)) (with_next last NONE);
        Some (true, set_first_free (set_items s its) 0, w)
    end
  else
    let old_items := items s in
    let old_num_items := num_items s in
    let s := set_num_items s (u32 (num_items s * 2)) in
    let '(r, w) := malloc w in
    match r with
    | AllocFail => Some (false, set_items s [], w)
    | AllocOk j =>
        let n := num_items s in
        (* items_bytesize = sizeof(item) * num_items, a uint32_t *)
        if arena_bytes_wrap SIZEOF_ITEM n then None else
        let buf := repeat (junk_item j) (Z.to_nat n) in
        (* memcpy(items, old_items, old_num_items records) *)
        if negb ((old_num_items <=? n) && (old_num_items <=? Z.of_nat (length old_items)))
        then None else
        let buf := take (Z.to_nat old_num_items) old_items ++ drop (Z.to_nat old_num_items) buf in
        (* memset(items + old_num_items, 0, ...) *)
        let buf := take (Z.to_nat old_num_items) buf
                   ++ repeat zero_item (Z.to_nat (n - old_num_items)) in
        its ← for_range (fun i it => with_next it (u32 (i + 1)))
                old_num_items (u32 (n - 1)) buf;
        last ← rd its (u32 (n - 1));
        its ← wr its (u32 (n - 1)) (with_next last NONE);
        Some (true, set_first_free (set_items s its) old_num_items, w)
    end.

(** [while (cache_left < consumption) { if (slru_free_one() != SLRU_OK)
    break; }].  Each successful [slru_free_one] moves one slot from a row
    to the free list; the fuel allows one call per slot and one more. *)
Fixpoint slru_make_room (fuel : nat) (c : Z) (s : slru_t) (w : world) :
    option (slru_t * world) :=
  match fuel with
  | O => None
  | S f =>
      if cache_left s <? c then
        '(r, s, w) ← slru_free_one s w;
        if negb (r =? SLRU_OK) then Some (s, w) else slru_make_room f c s w
      else Some (s, w)
  end.

Definition slru_insert (s : slru_t) (w : world) (k : list Byte.byte) (v c : Z) :
    option (Z * slru_t * world) :=
  '(s, w) ← slru_make_room (S (S (length (items s)))) c s w;
  if cache_left s <? c then Some (SLRU_DOESNT_FIT, s, w) else
  let s := set_cache_left s (u32 (cache_left s - c)) in
  let klen := key_len k in
  hash ← slru_hash k klen (seed s) (hash_table_size s);
  '(ok, s, w) ← (if first_free s =? NONE then slru_insert_grow s w else Some (true, s, w));
  if negb ok then Some (SLRU_OOM, s, w) else
  let index := first_free s in
  item ← rd (items s) index;
  let '(r, w) := malloc w in
  match r with
  | AllocFail =>
      s ← set_item s index (with_key item None);
      Some (SLRU_OOM, s, w)
  | AllocOk _ =>
      let s := set_first_free s (next item) in
      hh ← rd (hash_table s) hash;
      s ← set_ht s hash index;
      let ts := u32 (timestamp_ctr s + 1) in
      let s := set_timestamp_ctr s ts in
      s ← set_item s index (mk_item (Some k) klen v c ts hh);
      Some (SLRU_OK, s, w)
  end.

Definition slru_remove (s : slru_t) (w : world) (k : list Byte.byte) :
    option (Z * slru_t * world) :=
  let klen := key_len k in
  hash ← slru_hash k klen (seed s) (hash_table_size s);
  index ← slru_find_index_by_hash s k klen hash;
  if index =? NONE then Some (SLRU_NOT_FOUND, s, w) else
  item ← rd (items s) index;
  h0 ← rd (hash_table s) hash;
  prev_index ← prev_walk next (items s) index (S (length (items s))) NONE h0;
  s ← (if prev_index =? NONE then set_ht s hash (next item)
       else
         pit ← rd (items s) prev_index;
         set_item s prev_index (with_next pit (next item)));
  item ← rd (items s) index;
  s ← set_item s index (with_key (with_next item (first_free s)) None);
  let s := set_first_free s index in
  let s := set_cache_left s (u32 (cache_left s + consumption item)) in
  item ← rd (items s) index;
  s ← set_item s index (with_consumption item 0);
  Some (SLRU_OK, s, w).

Definition slru_fetch (s : slru_t) (k : list Byte.byte) (invalid_value : Z) :
    option (Z * slru_t) :=
  let klen := key_len k in
  index ← slru_find_index s k klen;
  if index =? NONE then Some (invalid_value, s) else
  item ← rd (items s) index;
  let ts := u32 (timestamp_ctr s + 1) in
  let s := set_timestamp_ctr s ts in
  s ← set_item s index (with_timestamp item ts);
  Some (value item, s).

(** The slots on the rows, row by row in the order the scan of
    [slru_free_one] visits them; used to state what the scan finds. *)
Fixpoint slru_chain (its : list slru_item_t) (fuel : nat) (iter : Z) : option (list Z) :=
  match fuel with
  | O => None
  | S f =>
      if iter =? NONE then Some [] else
      it ← rd its iter;
      is ← slru_chain its f (next it);
      Some (iter :: is)
  end.

Fixpoint slru_rows_indices (s : slru_t) (rs : list Z) : option (list Z) :=
  match rs with
  | [] => Some []
  | i :: rs' =>
      iter ← rd (hash_table s) i;
      is ← slru_chain (items s) (S (length (items s))) iter;
      is' ← slru_rows_indices s rs';
      Some (is ++ is')
  end.

Definition slru_row_indices (s : slru_t) : option (list Z) :=
  slru_rows_indices s (rows (hash_table_size s)).

(** The fields other than the arrays, the free list and the budget. *)
Definition s2_keeps (s s' : slru_t) : Prop := seed s' = seed s /\ hash_table_size s' = hash_table_size s.

End Slru2.

(** * The LRU-Tracker (lrutrack.c) *)

Module Lrutrack.

(** [sizeof(lrutrack_item_t)] on an LP64 target: a pointer and three
    uint32_t fields (20 bytes), padded to 24. *)
Definition SIZEOF_ITEM : Z := 24.

Definition LRUTRACK_OK : Z := 0.
Definition LRUTRACK_ERROR : Z := 1.
Definition LRUTRACK_OOM : Z := 2.
Definition LRUTRACK_NOT_FOUND : Z := 3.

Record lrutrack_item_t := mk_item {
  key : option (list Byte.byte);  (* NULL or the owned copy of the key *)
  key_length : Z;
  value : Z;                      (* invalid_value marks a free slot *)
  next : Z                        (* next item index (hash table row or free list) *)
}.

Definition zero_item : lrutrack_item_t := mk_item None 0 0 0.
Definition junk_item (j : Z) : lrutrack_item_t := mk_item None (u32 j) (u32 j) (u32 j).

Definition with_key (it : lrutrack_item_t) (k : option (list Byte.byte)) :=
  mk_item k (key_length it) (value it) (next it).
Definition with_next (it : lrutrack_item_t) (n : Z) :=
  mk_item (key it) (key_length it) (value it) n.
Definition with_value_next (it : lrutrack_item_t) (v n : Z) :=
  mk_item (key it) (key_length it) v n.

Record lrutrack_t := mk_lrutrack {
  hash_table : list Z;            (* first item index on a row *)
  hash_table_lru_links : list Z;  (* 2 * hash_table_size, 0 = prev, 1 = next *)
  items : list lrutrack_item_t;
  num_items : Z;
  hash_table_size : Z;
  lru_head : Z;                   (* hash table index *)
  lru_tail : Z;
  first_free : Z;                 (* item index *)
  seed : Z;
  invalid_value : Z
}.

Definition set_hash_table (t : lrutrack_t) (v : list Z) : lrutrack_t :=
  mk_lrutrack v (hash_table_lru_links t) (items t) (num_items t) (hash_table_size t)
    (lru_head t) (lru_tail t) (first_free t) (seed t) (invalid_value t).
Definition set_links (t : lrutrack_t) (v : list Z) : lrutrack_t :=
  mk_lrutrack (hash_table t) v (items t) (num_items t) (hash_table_size t)
    (lru_head t) (lru_tail t) (first_free t) (seed t) (invalid_value t).
Definition set_items (t : lrutrack_t) (v : list lrutrack_item_t) : lrutrack_t :=
  mk_lrutrack (hash_table t) (hash_table_lru_links t) v (num_items t) (hash_table_size t)
    (lru_head t) (lru_tail t) (first_free t) (seed t) (invalid_value t).
Definition set_num_items (t : lrutrack_t) (v : Z) : lrutrack_t :=
  mk_lrutrack (hash_table t) (hash_table_lru_links t) (items t) v (hash_table_size t)
    (lru_head t) (lru_tail t) (first_free t) (seed t) (invalid_value t).
Definition set_lru_head (t : lrutrack_t) (v : Z) : lrutrack_t :=
  mk_lrutrack (hash_table t) (hash_table_lru_links t) (items t) (num_items t)
    (hash_table_size t) v (lru_tail t) (first_free t) (seed t) (invalid_value t).
Definition set_lru_tail (t : lrutrack_t) (v : Z) : lrutrack_t :=
  mk_lrutrack (hash_table t) (hash_table_lru_links t) (items t) (num_items t)
    (hash_table_size t) (lru_head t) v (first_free t) (seed t) (invalid_value t).
Definition set_first_free (t : lrutrack_t) (v : Z) : lrutrack_t :=
  mk_lrutrack (hash_table t) (hash_table_lru_links t) (items t) (num_items t)
    (hash_table_size t) (lru_head t) (lru_tail t) v (seed t) (invalid_value t).

Definition get_link (t : lrutrack_t) (b k : Z) : option Z :=
  rd (hash_table_lru_links t) (u32 (b * 2 + k)).
Definition set_link (t : lrutrack_t) (b k v : Z) : option lrutrack_t :=
  l ← wr (hash_table_lru_links t) (u32 (b * 2 + k)) v; Some (set_links t l).
Definition set_ht (t : lrutrack_t) (i v : Z) : option lrutrack_t :=
  l ← wr (hash_table t) i v; Some (set_hash_table t l).
Definition set_item (t : lrutrack_t) (i : Z) (it : lrutrack_item_t) : option lrutrack_t :=
  l ← wr (items t) i it; Some (set_items t l).

Definition lrutrack_hash (k : list Byte.byte) (len seed hash_table_size : Z) : Z :=
  murmur_hash k len seed hash_table_size.

(** [lrutrack_cmp_keys]: a NULL stored key reaching [memcmp] is undefined. *)
Definition lrutrack_cmp_keys (a : list Byte.byte) (a_length : Z)
    (b : option (list Byte.byte)) (b_length : Z) : option bool :=
  if negb (a_length =? b_length) then Some false
  else match b with None => None | Some kb => Some (bytes_eqb a kb) end.

Definition link_is_none (t : lrutrack_t) (b k : Z) : bool :=
  match get_link t b k with Some v => v =? NONE | None => false end.

(** The debug assertions of [lrutrack_check_internal_state] outside the
    [LRUTRACK_HC_TESTS] block (lines 104-116). *)
Definition lrutrack_check_internal_state (t : lrutrack_t) : bool :=
  negb (hash_table_size t =? 0)
  && ((first_free t =? NONE) || (first_free t <? num_items t))
  && ((lru_head t =? NONE) || (lru_head t <? hash_table_size t))
  && ((lru_tail t =? NONE) || (lru_tail t <? hash_table_size t))
  && ((lru_head t =? NONE) || link_is_none t (lru_head t) 0)
  && ((lru_tail t =? NONE) || link_is_none t (lru_tail t) 1).

Fixpoint lrutrack_find_loop (its : list lrutrack_item_t) (k : list Byte.byte)
    (k_length : Z) (fuel : nat) (iter : Z) : option Z :=
  match fuel with
  | O => None
  | S f =>
      if iter =? NONE then Some iter else
      it ← rd its iter;
      c ← lrutrack_cmp_keys k k_length (key it) (key_length it);
      if (c : bool) then Some iter else lrutrack_find_loop its k k_length f (next it)
  end.

(** A walk of more than [length items] steps revisits a slot and so never
    ends: the fuel [S (length items)] makes [None] exactly that case. *)
Definition lrutrack_find_index (t : lrutrack_t) (k : list Byte.byte) (k_length hash : Z) :
    option Z :=
  iter ← rd (hash_table t) hash;
  lrutrack_find_loop (items t) k k_length (S (length (items t))) iter.

Definition lrutrack_insert_to_lru_head (t : lrutrack_t) (i : Z) : option lrutrack_t :=
  if negb (lru_head t =? NONE) then
    t ← set_link t (lru_head t) 0 i;
    t ← set_link t i 1 (lru_head t);
    Some (set_lru_head t i)
  else Some (set_lru_tail (set_lru_head t i) i).

Definition lrutrack_remove_from_lru (t : lrutrack_t) (i : Z) : option lrutrack_t :=
  if lru_head t =? lru_tail t then Some (set_lru_tail (set_lru_head t NONE) NONE)
  else if i =? lru_head t then
    nh ← get_link t i 1;
    let t := set_lru_head t nh in
    t ← set_link t nh 0 NONE;
    set_link t i 1 NONE
  else if i =? lru_tail t then
    nt ← get_link t i 0;
    let t := set_lru_tail t nt in
    t ← set_link t nt 1 NONE;
    set_link t i 0 NONE
  else
    prev ← get_link t i 0;
    nxt ← get_link t i 1;
    t ← set_link t nxt 0 prev;
    t ← set_link t prev 1 nxt;
    t ← set_link t i 0 NONE;
    set_link t i 1 NONE.

Definition lrutrack_move_to_lru_head (t : lrutrack_t) (i : Z) : option lrutrack_t :=
  if negb (lru_head t =? lru_tail t) then
    if i =? lru_tail t then
      nt ← get_link t i 0;
      let t := set_lru_tail t nt in
      t ← set_link t i 0 NONE;
      t ← set_link t nt 1 NONE;
      t ← set_link t (lru_head t) 0 i;
      t ← set_link t i 1 (lru_head t);
      Some (set_lru_head t i)
    else if negb (i =? lru_head t) then
      prev ← get_link t i 0;
      nxt ← get_link t i 1;
      t ← set_link t nxt 0 prev;
      t ← set_link t prev 1 nxt;
      t ← set_link t i 0 NONE;
      t ← set_link t i 1 (lru_head t);
      t ← set_link t (lru_head t) 0 i;
      Some (set_lru_head t i)
    else Some t
  else Some t.

(** The arena-growth block of [lrutrack_insert] (lines 376-420), entered
    when [first_free == UINT32_MAX].  [false] is the early
    [return LRUTRACK_OOM]. *)
Definition lrutrack_insert_grow (t : lrutrack_t) (w : world) :
    option (bool * lrutrack_t * world) :=
  if num_items t =? 0 then
    let n := hash_table_size t in
    let '(r, w) := malloc w in
    match r with
    | AllocFail => Some (false, set_items t [], w)
    | AllocOk j =>
        (* fresh buffer, not cleared: its records are uninitialised *)
        let t := set_num_items (set_items t (repeat (junk_item j) (Z.to_nat n))) n in
        its ← for_range (fun i it => with_next it (u32 (i + 1))) 0 (u32 (n - 1)) (items t);
        last ← rd its (u32 (n - 1));
        its ← wr its (u32 (n - 1)) (with_next last NONE);
        Some (true, set_first_free (set_items t its) 0, w)
    end
  else
    let old_items := items t in
    let old_num_items := num_items t in
    let t := set_num_items t (u32 (num_items t * 2)) in
    let '(r, w) := malloc w in
    match r with
    | AllocFail => Some (false, set_items t [], w)
    | AllocOk j =>
        let n := num_items t in
        (* items_bytesize = sizeof(item) * num_items, a uint32_t *)
        if arena_bytes_wrap SIZEOF_ITEM n then None else
        let buf := repeat (junk_item j) (Z.to_nat n) in
        (* memcpy(items, old_items, old_num_items records) *)
        if negb ((old_num_items <=? n) && (old_num_items <=? Z.of_nat (length old_items)))
        then None else
        let buf := take (Z.to_nat old_num_items) old_items ++ drop (Z.to_nat old_num_items) buf in
        (* memset(items + old_num_items, 0, ...) *)
        let buf := take (Z.to_nat old_num_items) buf
                   ++ repeat zero_item (Z.to_nat (n - old_num_items)) in
        its ← for_range (fun i it => with_value_next it (invalid_value t) (u32 (i + 1)))
                old_num_items (u32 (n - 1)) buf;
        last ← rd its (u32 (n - 1));
        its ← wr its (u32 (n - 1)) (with_value_next last (invalid_value t) NONE);
        Some (true, set_first_free (set_items t its) old_num_items, w)
    end.

Definition lrutrack_insert (t : lrutrack_t) (w : world) (k : list Byte.byte) (v : Z) :
    option (Z * lrutrack_t * world) :=
  let klen := key_len k in
  let hash := lrutrack_hash k klen (seed t) (hash_table_size t) in
  '(ok, t, w) ← (if first_free t =? NONE then lrutrack_insert_grow t w
                 else Some (true, t, w));
  if negb ok then Some (LRUTRACK_OOM, t, w) else
  let index := first_free t in
  item ← rd (items t) index;
  let '(r, w) := malloc w in
  match r with
  | AllocFail =>
      t ← set_item t index (with_key item None);
      Some (LRUTRACK_OOM, t, w)
  | AllocOk _ =>
      t ← set_item t index (mk_item (Some k) klen v (next item));
      hh ← rd (hash_table t) hash;
      t ← (if hh =? NONE then lrutrack_insert_to_lru_head t hash
           else lrutrack_move_to_lru_head t hash);
      item ← rd (items t) index;
      let t := set_first_free t (next item) in
      hh ← rd (hash_table t) hash;
      t ← set_item t index (with_next item hh);
      t ← set_ht t hash index;
      Some (LRUTRACK_OK, t, w)
  end.

Definition lrutrack_remove (t : lrutrack_t) (w : world) (k : list Byte.byte) :
    option (Z * lrutrack_t * world) :=
  let klen := key_len k in
  let hash := lrutrack_hash k klen (seed t) (hash_table_size t) in
  index ← lrutrack_find_index t k klen hash;
  if index =? NONE then Some (LRUTRACK_NOT_FOUND, t, w) else
  item ← rd (items t) index;
  let w := evict w (value item) in
  h0 ← rd (hash_table t) hash;
  prev_index ← prev_walk next (items t) index (S (length (items t))) NONE h0;
  t ← (if prev_index =? NONE then
         t ← set_ht t hash (next item);
         hh ← rd (hash_table t) hash;
         if hh =? NONE then lrutrack_remove_from_lru t hash else Some t
       else
         pit ← rd (items t) prev_index;
         set_item t prev_index (with_next pit (next item)));
  item ← rd (items t) index;
  t ← set_item t index (mk_item None (key_length item) (invalid_value t) (first_free t));
  Some (LRUTRACK_OK, set_first_free t index, w).

(** The [while] loop of [lrutrack_remove_lru] over the evicted row. *)
Fixpoint lrutrack_evict_chain (fuel : nat) (iter : Z) (t : lrutrack_t) (w : world) :
    option (lrutrack_t * world) :=
  match fuel with
  | O => None
  | S f =>
      if iter =? NONE then Some (t, w) else
      item ← rd (items t) iter;
      let w := evict w (value item) in
      let nxt := next item in
      t ← set_item t iter (mk_item None (key_length item) (invalid_value t) (first_free t));
      let t := set_first_free t iter in
      lrutrack_evict_chain f nxt t w
  end.

Definition lrutrack_remove_lru (t : lrutrack_t) (w : world) :
    option (Z * lrutrack_t * world) :=
  if lru_tail t =? NONE then Some (LRUTRACK_NOT_FOUND, t, w) else
  new_tail ← get_link t (lru_tail t) 0;
  t ← set_link t (lru_tail t) 0 NONE;
  t ← (if negb (new_tail =? NONE) then set_link t new_tail 1 NONE else Some t);
  iter ← rd (hash_table t) (lru_tail t);
  t ← set_ht t (lru_tail t) NONE;
  let t := if lru_head t =? lru_tail t then set_lru_head t new_tail else t in
  let t := set_lru_tail t new_tail in
  '(t, w) ← lrutrack_evict_chain (S (length (items t))) iter t w;
  Some (LRUTRACK_OK, t, w).

Definition lrutrack_use (t : lrutrack_t) (k : list Byte.byte) : option (Z * lrutrack_t) :=
  let klen := key_len k in
  let hash := lrutrack_hash k klen (seed t) (hash_table_size t) in
  index ← lrutrack_find_index t k klen hash;
  if index =? NONE then Some (invalid_value t, t) else
  t ← lrutrack_move_to_lru_head t hash;
  item ← rd (items t) index;
  Some (value item, t).

(** The inner [while] of [lrutrack_remove_all] on one row. *)
Fixpoint lrutrack_clear_chain (fuel : nat) (iter : Z) (t : lrutrack_t) (w : world) :
    option (lrutrack_t * world) :=
  match fuel with
  | O => None
  | S f =>
      if iter =? NONE then Some (t, w) else
      item ← rd (items t) iter;
      let w := evict w (value item) in
      t ← set_item t iter (mk_item None (key_length item) (invalid_value t) (next item));
      lrutrack_clear_chain f (next item) t w
  end.

Fixpoint lrutrack_clear_rows (rs : list Z) (t : lrutrack_t) (w : world) :
    option (lrutrack_t * world) :=
  match rs with
  | [] => Some (t, w)
  | i :: rs' =>
      iter ← rd (hash_table t) i;
      '(t, w) ← lrutrack_clear_chain (S (length (items t))) iter t w;
      lrutrack_clear_rows rs' t w
  end.

Definition lrutrack_remove_all (t : lrutrack_t) (w : world) : option (lrutrack_t * world) :=
  '(t, w) ← lrutrack_clear_rows (rows (hash_table_size t)) t w;
  ht ← memset_words (hash_table t) (hash_table_size t) NONE;
  lk ← memset_words (hash_table_lru_links t) (hash_table_size t * 2) NONE;
  let t := set_links (set_hash_table t ht) lk in
  t ← (if negb (num_items t =? 0) then
         its ← for_range (fun i it => with_next it (u32 (i + 1))) 0
                 (u32 (num_items t - 1)) (items t);
         last ← rd its (u32 (num_items t - 1));
         its ← wr its (u32 (num_items t - 1)) (with_next last NONE);
         Some (set_items t its)
       else Some t);
  let t := set_lru_tail (set_lru_head t NONE) NONE in
  Some (set_first_free t 0, w).

(** [lrutrack_create]: [None] in the first component is the NULL handle. *)
Definition lrutrack_create (hash_table_size num_initial_items hash_seed invalid_value : Z)
    (w : world) : option (option lrutrack_t * world) :=
  let '(r1, w) := malloc w in
  match r1 with AllocFail => Some (None, w) | AllocOk _ =>
  let '(r2, w) := malloc w in
  match r2 with AllocFail => Some (None, w) | AllocOk _ =>
  let '(r3, w) := malloc w in
  match r3 with AllocFail => Some (None, w) | AllocOk _ =>
  let t := mk_lrutrack (repeat NONE (Z.to_nat hash_table_size))
             (repeat NONE (Z.to_nat (hash_table_size * 2))) [] 0 hash_table_size
             NONE NONE 0 hash_seed invalid_value in
  if negb (num_initial_items =? 0) then
    let '(r4, w) := malloc w in
    match r4 with AllocFail => Some (None, w) | AllocOk _ =>
    (* items_bytesize = sizeof(item) * num_initial_items, a uint32_t *)
    if arena_bytes_wrap SIZEOF_ITEM num_initial_items then None else
    let its := repeat zero_item (Z.to_nat num_initial_items) in
    its ← for_range (fun i it => with_value_next it invalid_value (u32 (i + 1))) 0
            (u32 (num_initial_items - 1)) its;
    last ← rd its (u32 (num_initial_items - 1));
    its ← wr its (u32 (num_initial_items - 1)) (with_value_next last invalid_value NONE);
    Some (Some (set_first_free (set_num_items (set_items t its) num_initial_items) 0), w)
    end
  else Some (Some (set_first_free t NONE), w)
  end end end.

(** The loop of [lrutrack_destroy]: every slot [i < num_items] whose value is
    not [invalid_value] has its key freed and its value evicted. *)
Fixpoint lrutrack_destroy_loop (its : list lrutrack_item_t) (inv : Z) (is : list Z)
    (w : world) : option world :=
  match is with
  | [] => Some w
  | i :: is' =>
      item ← rd its i;
      lrutrack_destroy_loop its inv is' (if negb (value item =? inv) then evict w (value item) else w)
  end.

Definition lrutrack_destroy (t : lrutrack_t) (w : world) : option world :=
  lrutrack_destroy_loop (items t) (invalid_value t) (rows (num_items t)) w.

End Lrutrack.

(** * Concrete inputs *)

(** One-byte keys "a", "b", "c", "d": with a 4-row table and seed 0 they
    hash to rows 2, 0, 1 and 2. *)
Definition key_a : list Byte.byte := [Byte.x61].
Definition key_b : list Byte.byte := [Byte.x62].
Definition key_c : list Byte.byte := [Byte.x63].
Definition key_d : list Byte.byte := [Byte.x64].

(** An allocator that always succeeds on zero-filled memory, and one whose
    next call fails. *)
Definition w_ok : world := mk_world [] [].
Definition w_fail_next : world := mk_world [AllocFail] [].

Definition slru_new (hts nii cache_size : Z) : option Slru.slru_t :=
  match Slru.slru_create hts nii cache_size w_ok with
  | Some (Some s, _) => Some s
  | _ => None
  end.

Definition lrutrack_new (hts nii : Z) : option Lrutrack.lrutrack_t :=
  match Lrutrack.lrutrack_create hts nii 0 0 w_ok with
  | Some (Some t, _) => Some t
  | _ => None
  end.

(** SLRU v1 after inserting "a", "b", "c" (one unit each) into a 4-row
    table with 4 initial slots and a budget of 10: rows 1, 0, 2 in LRU
    order, row 0 interior. *)
Definition slru_abc : option Slru.slru_t :=
  s ← slru_new 4 4 10;
  '(_, s, _) ← Slru.slru_insert s w_ok key_a 1 1;
  '(_, s, _) ← Slru.slru_insert s w_ok key_b 2 1;
  '(_, s, _) ← Slru.slru_insert s w_ok key_c 3 1;
  Some s.

Definition lrutrack_abc : option Lrutrack.lrutrack_t :=
  t ← lrutrack_new 4 4;
  '(_, t, _) ← Lrutrack.lrutrack_insert t w_ok key_a 1;
  '(_, t, _) ← Lrutrack.lrutrack_insert t w_ok key_b 2;
  '(_, t, _) ← Lrutrack.lrutrack_insert t w_ok key_c 3;
  Some t.

Definition slru2_new (hts nii cache_size : Z) : option Slru2.slru_t :=
  match Slru2.slru_create hts nii cache_size w_ok with
  | Some (Some s, _) => Some s
  | _ => None
  end.

Definition slru2_created (hts nii cache_size : Z) : Slru2.slru_t :=
  match slru2_new hts nii cache_size with
  | Some s => s
  | None => Slru2.mk_slru [] [] 0 0 0 NONE 0 0 0
  end.

Definition slru2_put (s : Slru2.slru_t) (k : list Byte.byte) (v c : Z) : Slru2.slru_t :=
  match Slru2.slru_insert s w_ok k v c with
  | Some (_, s', _) => s'
  | None => s
  end.

(** A one-slot SLRU v2 cache with a budget of 1 holding "a" (consumption 1),
    inserted when the timestamp counter was [UINT32_MAX - 1]: the slot's
    timestamp is [UINT32_MAX]. *)
Definition slru2_stale : Slru2.slru_t :=
  slru2_put (Slru2.set_timestamp_ctr (slru2_created 4 1 1) (NONE - 1)) key_a 1 1.

(** SLRU v2 states: a one-slot arena holding "a" (full), and a two-slot
    arena after inserting "a" then "b"; an allocator whose first block
    holds the junk word 7. *)
Definition slru2_one : Slru2.slru_t := slru2_put (slru2_created 4 1 10) key_a 1 1.
Definition slru2_ab : Slru2.slru_t :=
  slru2_put (slru2_put (slru2_created 4 2 10) key_a 1 1) key_b 2 1.
Definition w_junk7 : world := mk_world [AllocOk 7] [].

(** * LRU-Tracker: the representation invariant

    The abstract state behind an [lrutrack_t]: the free list [F] of slot
    indices, the chain [ch b] of slot indices on each row [b], and the LRU
    order [L] of the non-empty rows, most recent first. *)

Module LrutrackInv.
Import Lrutrack.

(** Successor and predecessor of [b] in a list, [NONE] past the ends. *)
Fixpoint next_in (L : list Z) (b : Z) : Z :=
  match L with
  | [] => NONE
  | x :: L' => if x =? b then hd NONE L' else next_in L' b
  end.

Fixpoint prev_in (p : Z) (L : list Z) (b : Z) : Z :=
  match L with
  | [] => NONE
  | x :: L' => if x =? b then p else prev_in x L' b
  end.

Definition rm (h : Z) (L : list Z) : list Z := List.remove Z.eq_dec h L.

(** The LRU links, head and tail represent the list of rows [L]. *)
Record lru_repr (t : lrutrack_t) (L : list Z) : Prop := {
  lru_hts : 0 < hash_table_size t <= 2 ^ 31;
  lru_links_len : Z.of_nat (length (hash_table_lru_links t)) = 2 * hash_table_size t;
  lru_nodup : NoDup L;
  lru_range : forall b, b ∈ L -> 0 <= b < hash_table_size t;
  lru_head_eq : lru_head t = hd NONE L;
  lru_tail_eq : lru_tail t = List.last L NONE;
  lru_links_eq : forall b, 0 <= b < hash_table_size t ->
    get_link t b 0 = Some (prev_in NONE L b) /\ get_link t b 1 = Some (next_in L b)
}.

(** The fields other than the LRU links, head and tail are the same. *)
Definition same_data (t t' : lrutrack_t) : Prop :=
  hash_table t' = hash_table t /\ items t' = items t /\ num_items t' = num_items t /\
  hash_table_size t' = hash_table_size t /\ first_free t' = first_free t /\
  seed t' = seed t /\ invalid_value t' = invalid_value t.

Definition zrange (lo hi : Z) : list Z := map Z.of_nat (seq (Z.to_nat lo) (Z.to_nat (hi - lo))).

(** The [next] fields of the slots of [l] follow [l]. *)
Definition linked (its : list lrutrack_item_t) (l : list Z) : Prop :=
  forall i, i ∈ l -> exists it, rd its i = Some it /\ next it = next_in l i.

(** The slots of [l] hold keys with their lengths. *)
Definition keyed (its : list lrutrack_item_t) (l : list Z) : Prop :=
  forall i, i ∈ l -> exists it kb, rd its i = Some it /\ key it = Some kb /\
                                   key_length it = key_len kb.

(** The comparison of [lrutrack_find_index]. *)
Definition key_match (k : list Byte.byte) (it : lrutrack_item_t) : bool :=
  (key_len k =? key_length it) &&
  match key it with Some kb => bytes_eqb k kb | None => false end.

(** The first slot of a chain whose key is [k]. *)
Fixpoint find_in (its : list lrutrack_item_t) (k : list Byte.byte) (l : list Z) : Z :=
  match l with
  | [] => NONE
  | i :: l' =>
      match rd its i with
      | Some it => if key_match k it then i else find_in its k l'
      | None => NONE
      end
  end.

Definition upd (ch : Z -> list Z) (h : Z) (l : list Z) : Z -> list Z :=
  fun b => if b =? h then l else ch b.

(** The representation invariant of a tracker. *)
Record lt_repr (t : lrutrack_t) (F : list Z) (ch : Z -> list Z) (L : list Z) : Prop := {
  lt_lru : lru_repr t L;
  lt_ht_len : Z.of_nat (length (hash_table t)) = hash_table_size t;
  lt_num : num_items t = Z.of_nat (length (items t));
  lt_num_max : num_items t <= NONE;
  lt_free_head : first_free t = hd NONE F;
  lt_free : linked (items t) F;
  lt_rows : forall b, 0 <= b < hash_table_size t ->
    rd (hash_table t) b = Some (hd NONE (ch b)) /\
    linked (items t) (ch b) /\ keyed (items t) (ch b);
  lt_disj : NoDup (F ++ concat (map ch (rows (hash_table_size t))));
  lt_lru_mem : forall b, 0 <= b < hash_table_size t -> b ∈ L <-> ch b <> []
}.

(** The growth of the arena keeps the table, the links and the slots of
    every chain. *)
Definition keeps (t t' : lrutrack_t) (ch : Z -> list Z) : Prop :=
  hash_table t' = hash_table t /\ hash_table_lru_links t' = hash_table_lru_links t /\
  hash_table_size t' = hash_table_size t /\ lru_head t' = lru_head t /\
  lru_tail t' = lru_tail t /\ seed t' = seed t /\ invalid_value t' = invalid_value t /\
  forall b i, 0 <= b < hash_table_size t -> i ∈ ch b -> rd (items t') i = rd (items t) i.

(** The row of a key, as [lrutrack_insert], [lrutrack_remove] and
    [lrutrack_use] compute it. *)
Definition bucket (t : lrutrack_t) (k : list Byte.byte) : Z :=
  lrutrack_hash k (key_len k) (seed t) (hash_table_size t).

(** The state after a successful insert: a fresh slot [j] heads the row of
    [k], and the row moves to the LRU head. *)
Definition ins_post (t t' : lrutrack_t) (ch : Z -> list Z) (L : list Z)
    (k : list Byte.byte) (v : Z) : Prop :=
  let h := bucket t k in
  exists j F', lt_repr t' F' (upd ch h (j :: ch h)) (h :: rm h L) /\
    rd (items t') j = Some (mk_item (Some k) (key_len k) v (hd NONE (ch h))) /\
    (forall b i, 0 <= b < hash_table_size t -> i ∈ ch b ->
       rd (items t') i = rd (items t) i /\ i <> j) /\
    hash_table_size t' = hash_table_size t /\ seed t' = seed t /\
    invalid_value t' = invalid_value t.

(** The contents of a slot that lookups see. *)
Definition strip (it : lrutrack_item_t) : option (list Byte.byte) * Z * Z :=
  (key it, key_length it, value it).

(** The state after removing slot [i] from row [h]: the slot joins the free
    list, and the row leaves the LRU list when it becomes empty. *)
Definition rm_post (t t' : lrutrack_t) (F : list Z) (ch : Z -> list Z) (L : list Z)
    (h i : Z) : Prop :=
  lt_repr t' (i :: F) (upd ch h (rm i (ch h)))
    (match rm i (ch h) with [] => rm h L | _ => L end) /\
  (forall b x, 0 <= b < hash_table_size t -> x ∈ ch b -> x <> i ->
     strip <$> rd (items t') x = strip <$> rd (items t) x) /\
  hash_table_size t' = hash_table_size t /\ seed t' = seed t /\
  invalid_value t' = invalid_value t /\
  (rm i (ch h) <> [] -> hash_table_lru_links t' = hash_table_lru_links t /\
     lru_head t' = lru_head t /\ lru_tail t' = lru_tail t).

(** The LRU list read from the head along the next links. *)
Fixpoint lru_walk (t : lrutrack_t) (fuel : nat) (b : Z) : option (list Z) :=
  match fuel with
  | O => None
  | S f =>
      if b =? NONE then Some [] else
      nb ← get_link t b 1; l ← lru_walk t f nb; Some (b :: l)
  end.

Definition lru_list (t : lrutrack_t) : option (list Z) :=
  lru_walk t (S (Z.to_nat (hash_table_size t))) (lru_head t).

(** A well-formed tracker: one that has a representation. *)
Definition lrutrack_wf (t : lrutrack_t) : Prop := exists F ch L, lt_repr t F ch L.

(** The items of a row read along the [next] fields. *)
Fixpoint chain_walk (its : list lrutrack_item_t) (fuel : nat) (i : Z) :
    option (list lrutrack_item_t) :=
  match fuel with
  | O => None
  | S f =>
      if i =? NONE then Some [] else
      it ← rd its i; l ← chain_walk its f (next it); Some (it :: l)
  end.

Definition row_items (t : lrutrack_t) (b : Z) : option (list lrutrack_item_t) :=
  i ← rd (hash_table t) b; chain_walk (items t) (S (length (items t))) i.

(** Concrete trackers: four rows and four slots, empty and after inserting
    "a" with value 1 (slot 0, row 2). *)
Definition lrutrack_created (hts nii : Z) : lrutrack_t :=
  match lrutrack_new hts nii with
  | Some t => t
  | None => mk_lrutrack [] [] [] 0 0 NONE NONE NONE 0 0
  end.

Definition lrutrack_4 : lrutrack_t := lrutrack_created 4 4.

Definition lrutrack_a : lrutrack_t :=
  match lrutrack_insert lrutrack_4 w_ok key_a 1 with
  | Some (_, t, _) => t
  | None => lrutrack_4
  end.

(** [lrutrack_a] after inserting "d" with value 4 (row 2, in front of "a")
    and then "b" with value 2 (row 0): the LRU list is rows 0, 2 and row 2
    chains slot 1 ("d") to slot 0 ("a"). *)
Definition lrutrack_ad : lrutrack_t :=
  match lrutrack_insert lrutrack_a w_ok key_d 4 with
  | Some (_, t, _) => t
  | None => lrutrack_a
  end.

Definition lrutrack_adb : lrutrack_t :=
  match lrutrack_insert lrutrack_ad w_ok key_b 2 with
  | Some (_, t, _) => t
  | None => lrutrack_ad
  end.

End LrutrackInv.

(** * Proof tools *)

(** Peel the option binds and case splits of a hypothesis
    [f ... = Some ...]. *)
Ltac des_opt :=
  repeat match goal with
  | H : _ ≫= _ = Some _ |- _ => apply bind_Some in H; destruct H as (? & ? & H)
  | H : Some _ = Some _ |- _ => injection H as H; subst
  | H : None = Some _ |- _ => discriminate H
  | H : context [match ?e with _ => _ end] |- _ => destruct e eqn:?
  | H : context [if ?e then _ else _] |- _ => destruct e eqn:?
  end.

(** * SLRU v1: the budget and the eviction loop *)

Lemma slru_evict_oldest_ok s w r s' w' :
  Slru.slru_evict_oldest s w = Some (r, s', w') -> r = Slru.SLRU_OK.
Proof. unfold Slru.slru_evict_oldest. intros H. des_opt; reflexivity. Qed.

(** The eviction loop only stops once the budget suffices. *)
Lemma slru_make_room_fits f c s w s' w' :
  Slru.slru_make_room f c s w = Some (s', w') -> c <= Slru.cache_left s'.
Proof.
  revert s w. induction f as [|f IH]; intros s w H; simpl in H; [discriminate|].
  destruct (Slru.cache_left s <? c) eqn:E.
  - apply bind_Some in H as ([[r s1] w1] & He & H).
    apply slru_evict_oldest_ok in He. subst r. simpl in H. eauto.
  - injection H as <- <-. apply Z.ltb_ge in E. lia.
Qed.

Lemma slru_insert_not_doesnt_fit s w k v c r s' w' :
  Slru.slru_insert s w k v c = Some (r, s', w') -> r <> Slru.SLRU_DOESNT_FIT.
Proof.
  unfold Slru.slru_insert. intros H.
  apply bind_Some in H as ([s1 w1] & Hroom & H).
  apply slru_make_room_fits in Hroom.
  destruct (Slru.cache_left s1 <? c) eqn:E; [apply Z.ltb_lt in E; lia|].
  des_opt; discriminate.
Qed.

(** C1 (code_bug): an [slru_insert] whose key-copy allocation fails returns
    [SLRU_OOM] after [cache_left] was already reduced by the consumption:
    on a fresh 10-unit cache the in-use consumption (0) plus [cache_left]
    (7) no longer equals the construction-time [cache_size] (10). *)
Theorem slru_key_oom_breaks_budget :
  (s ← slru_new 4 2 10;
   '(r, s', _) ← Slru.slru_insert s w_fail_next key_a 5 3;
   Some (r, Slru.consumed_total s' + Slru.cache_left s', Slru.debug_cache_size s'))
  = Some (Slru.SLRU_OOM, 7, 10).
Proof. vm_compute. reflexivity. Qed.

(** C2 (code_bug): in SLRU v1, removing the last item of the interior row
    0 of the LRU list 1 -> 0 -> 2 leaves the head row 1 pointing at the
    emptied row 0 and links rows 1 and 2 to each other the wrong way round
    (1's predecessor becomes 2, 2's successor becomes 1); the LRU-Tracker,
    on the same inputs, links 1 -> 2. *)
Theorem slru_remove_interior_row_breaks_links :
  (s ← slru_abc;
   Some (Slru.lru_head s, Slru.get_link s 1 1, Slru.get_link s 0 1, Slru.lru_tail s))
  = Some (1, Some 0, Some 2, 2)
  /\ (s ← slru_abc;
      '(r, s, _) ← Slru.slru_remove s w_ok key_b;
      Some (r, rd (Slru.hash_table s) 0, Slru.lru_head s, Slru.get_link s 1 1,
            Slru.get_link s 1 0, Slru.get_link s 2 1))
     = Some (Slru.SLRU_OK, Some NONE, 1, Some 0, Some 2, Some 1)
  /\ (t ← lrutrack_abc;
      '(r, t, _) ← Lrutrack.lrutrack_remove t w_ok key_b;
      Some (r, Lrutrack.lru_head t, Lrutrack.get_link t 1 1, Lrutrack.get_link t 2 0,
            Lrutrack.get_link t 0 0, Lrutrack.get_link t 0 1))
     = Some (Lrutrack.LRUTRACK_OK, 1, Some 2, Some 1, Some NONE, Some NONE).
Proof. split; [|split]; vm_compute; reflexivity. Qed.

(** C3 (code_bug): [slru_evict_oldest] never reports failure, so the
    eviction loop of [slru_insert] only exits once the budget suffices and
    [SLRU_DOESNT_FIT] is never returned; on an empty LRU list the loop reads
    [hash_table_lru_links[UINT32_MAX * 2]] (out of range), and evicting the
    last listed row writes [hash_table_lru_links[UINT32_MAX * 2 + 1]]. *)
Theorem slru_evict_loop_indexes_none :
  (forall s w k v c r s' w',
      Slru.slru_insert s w k v c = Some (r, s', w') -> r <> Slru.SLRU_DOESNT_FIT)
  /\ (s ← slru_new 4 2 3;
      Some (Slru.lru_tail s, Slru.get_link s (Slru.lru_tail s) 0,
            Slru.slru_insert s w_ok key_a 5 5))
     = Some (NONE, None, None)
  /\ (s ← slru_new 4 2 3;
      '(r, s, _) ← Slru.slru_insert s w_ok key_a 5 2;
      Some (r, Slru.get_link s 2 0, Slru.slru_insert s w_ok key_b 6 2))
     = Some (Slru.SLRU_OK, Some NONE, None).
Proof.
  split; [exact slru_insert_not_doesnt_fit|].
  split; vm_compute; reflexivity.
Qed.

(** C4 (code_bug): [slru_remove_all] clears the table and the link array
    but leaves [lru_head] and [lru_tail] on the row that was listed. *)
Theorem slru_remove_all_keeps_lru_ends :
  (s ← slru_new 4 2 10;
   '(_, s, _) ← Slru.slru_insert s w_ok key_a 5 1;
   '(s, _) ← Slru.slru_remove_all s w_ok;
   Some (Slru.hash_table s, Slru.hash_table_lru_links s, Slru.lru_head s, Slru.lru_tail s))
  = Some ([NONE; NONE; NONE; NONE], repeat NONE 8, 2, 2).
Proof. vm_compute. reflexivity. Qed.

(** C5 (code_bug): an insert that returns OOM changes caller-visible state.
    SLRU: a failed key copy leaves [cache_left] reduced (10 to 7).
    LRU-Tracker: a failed arena growth has already doubled [num_items] and
    overwritten [items] with NULL, so looking up the stored key "a", which
    returned 1 before the call, is undefined after it. *)
Theorem insert_oom_changes_state :
  (s ← slru_new 4 2 10;
   '(r, s', _) ← Slru.slru_insert s w_fail_next key_a 5 3;
   Some (r, Slru.cache_left s, Slru.cache_left s'))
  = Some (Slru.SLRU_OOM, 10, 7)
  /\ (t ← lrutrack_new 4 1;
      '(_, t, _) ← Lrutrack.lrutrack_insert t w_ok key_a 1;
      '(r, t', _) ← Lrutrack.lrutrack_insert t w_fail_next key_b 2;
      Some (r, fst <$> Lrutrack.lrutrack_use t key_a, fst <$> Lrutrack.lrutrack_use t' key_a,
            length (Lrutrack.items t'), Lrutrack.num_items t'))
     = Some (Lrutrack.LRUTRACK_OOM, Some 1, None, 0%nat, 2).
Proof. split; vm_compute; reflexivity. Qed.

(** C6 (code_bug): growth from zero capacity takes a fresh buffer without
    clearing it: when the allocator hands out memory holding 7s, the slots
    appended to the free list keep [consumption = 7] (SLRU) and
    [value = 7 <> invalid_value = 0] (LRU-Tracker). *)
Theorem first_growth_leaves_slots_uninitialised :
  (s ← slru_new 4 0 10;
   '(r, s, _) ← Slru.slru_insert s (mk_world [AllocOk 7] []) key_a 5 1;
   Some (r, Slru.num_items s, Slru.first_free s, Slru.consumption <$> rd (Slru.items s) 1))
  = Some (Slru.SLRU_OK, 4, 1, Some 7)
  /\ (t ← lrutrack_new 4 0;
      '(r, t, _) ← Lrutrack.lrutrack_insert t (mk_world [AllocOk 7] []) key_a 5;
      Some (r, Lrutrack.num_items t, Lrutrack.first_free t,
            Lrutrack.value <$> rd (Lrutrack.items t) 1, Lrutrack.invalid_value t))
     = Some (Lrutrack.LRUTRACK_OK, 4, 1, Some 7, 0).
Proof. split; vm_compute; reflexivity. Qed.

(** C10 (code_bug): on a handle created with no initial slots,
    [lrutrack_remove_all] sets [first_free = 0] although the arena has no
    slot (the debug check it runs last fails), and [slru_remove_all] runs
    its relinking loop up to [UINT32_MAX - 1] over an empty arena. *)
Theorem remove_all_on_empty_arena :
  (t ← lrutrack_new 4 0;
   '(t, _) ← Lrutrack.lrutrack_remove_all t w_ok;
   Some (Lrutrack.num_items t, Lrutrack.first_free t,
         Lrutrack.lrutrack_check_internal_state t))
  = Some (0, 0, false)
  /\ (s ← slru_new 4 0 10; Some (Slru.slru_remove_all s w_ok)) = Some None.
Proof. split; vm_compute; reflexivity. Qed.

(** * LRU-Tracker: the operations against the invariant *)

Module LrutrackFacts.
Import Lrutrack LrutrackInv.

Lemma land_le_r a b : 0 <= a -> 0 <= b -> Z.land a b <= b.
Proof.
  intros Ha Hb.
  assert (E : Z.land (Z.ldiff b a) (Z.land b a) = 0).
  { rewrite Z.land_comm, <- Z.land_assoc, (Z.land_comm a), Z.land_ldiff.
    apply Z.land_0_r. }
  pose proof (Z.lor_ldiff_and b a) as D.
  rewrite <- Z.lxor_lor in D by exact E.
  rewrite <- Z.add_nocarry_lxor in D by exact E.
  assert (0 <= Z.ldiff b a).
  { rewrite Z.ldiff_land. apply Z.land_nonneg. auto. }
  rewrite Z.land_comm. lia.
Qed.

Lemma rd_nonneg {A} (a : list A) i : 0 <= i -> rd a i = a !! Z.to_nat i.
Proof.
  intros Hi. unfold rd. destruct (0 <=? i) eqn:E1; [|lia]. simpl.
  destruct (i <? Z.of_nat (length a)) eqn:E2; [reflexivity|].
  symmetry. apply lookup_ge_None_2. lia.
Qed.

Lemma rd_Some_range {A} (a : list A) i x :
  rd a i = Some x -> 0 <= i < Z.of_nat (length a).
Proof.
  unfold rd. destruct (0 <=? i) eqn:E1, (i <? Z.of_nat (length a)) eqn:E2;
    simpl; intros H; try discriminate; lia.
Qed.

Lemma rd_in_range {A} (a : list A) i :
  0 <= i < Z.of_nat (length a) -> exists x, rd a i = Some x.
Proof.
  intros Hi. rewrite rd_nonneg by lia.
  destruct (a !! Z.to_nat i) eqn:E; eauto.
  apply lookup_ge_None_1 in E. lia.
Qed.

Lemma wr_ok {A} (a : list A) i x :
  0 <= i < Z.of_nat (length a) -> wr a i x = Some (<[Z.to_nat i := x]> a).
Proof.
  intros Hi. unfold wr. destruct (0 <=? i) eqn:E1, (i <? Z.of_nat (length a)) eqn:E2;
    simpl; try lia; reflexivity.
Qed.

Lemma wr_inv {A} (a a' : list A) i x :
  wr a i x = Some a' -> 0 <= i < Z.of_nat (length a) /\ a' = <[Z.to_nat i := x]> a.
Proof.
  unfold wr. destruct (0 <=? i) eqn:E1, (i <? Z.of_nat (length a)) eqn:E2;
    simpl; intros H; try discriminate; injection H as <-; split; [lia|reflexivity].
Qed.

Lemma rd_insert {A} (a : list A) i j x :
  0 <= i < Z.of_nat (length a) ->
  rd (<[Z.to_nat i := x]> a) j = if j =? i then Some x else rd a j.
Proof.
  intros Hi. unfold rd. rewrite length_insert.
  destruct (j =? i) eqn:E.
  - apply Z.eqb_eq in E. subst j.
    destruct (0 <=? i) eqn:E1, (i <? Z.of_nat (length a)) eqn:E2; simpl; try lia.
    apply list_lookup_insert_eq. lia.
  - apply Z.eqb_neq in E.
    destruct (0 <=? j) eqn:E1, (j <? Z.of_nat (length a)) eqn:E2; simpl; try reflexivity.
    apply list_lookup_insert_ne. lia.
Qed.

Ltac zeq :=
  repeat match goal with
  | H : (_ =? _) = true |- _ => apply Z.eqb_eq in H
  | H : (_ =? _) = false |- _ => apply Z.eqb_neq in H
  end.

Ltac zcases :=
  repeat match goal with
  | |- context [?a =? ?b] => destruct (a =? b) eqn:?; zeq
  end; try congruence.

Lemma next_in_notin L b : b ∉ L -> next_in L b = NONE.
Proof.
  induction L as [|x L IH]; cbn [hd next_in prev_in List.remove]; intros Hb; [reflexivity|].
  apply not_elem_of_cons in Hb as [Hx Hb].
  destruct (x =? b) eqn:E; zeq; [congruence|auto].
Qed.

Lemma prev_in_notin p L b : b ∉ L -> prev_in p L b = NONE.
Proof.
  revert p. induction L as [|x L IH]; cbn [hd next_in prev_in List.remove]; intros p Hb; [reflexivity|].
  apply not_elem_of_cons in Hb as [Hx Hb].
  destruct (x =? b) eqn:E; zeq; [congruence|auto].
Qed.

Lemma next_in_mem L b : next_in L b = NONE \/ next_in L b ∈ L.
Proof.
  induction L as [|x L IH]; cbn [hd next_in prev_in List.remove]; [auto|].
  destruct (x =? b).
  - destruct L; cbn [hd next_in prev_in List.remove]; [auto|right; set_solver].
  - destruct IH as [->|IH]; [auto|right; set_solver].
Qed.

Lemma prev_in_mem p L b : prev_in p L b = NONE \/ prev_in p L b = p \/ prev_in p L b ∈ L.
Proof.
  revert p. induction L as [|x L IH]; cbn [hd next_in prev_in List.remove]; intros p; [auto|].
  destruct (x =? b); [auto|].
  destruct (IH x) as [->|[->|H]]; [auto|right; right; set_solver|right; right; set_solver].
Qed.

Lemma prev_in_p p q L b :
  b <> NONE -> prev_in p L b = if hd NONE L =? b then p else prev_in q L b.
Proof.
  intros Hb. destruct L as [|x L]; cbn [hd next_in prev_in List.remove].
  - destruct (NONE =? b) eqn:E; zeq; congruence.
  - destruct (x =? b); reflexivity.
Qed.

(** Removing [h] from a list without duplicates. *)
Lemma next_in_rm L h b :
  NoDup L -> NONE ∉ L -> h ∈ L -> b <> NONE ->
  next_in (rm h L) b =
    if b =? h then NONE else if b =? prev_in NONE L h then next_in L h else next_in L b.
Proof.
  unfold rm. induction L as [|x L IH]; intros Hnd HN Hh Hb; [set_solver|].
  apply NoDup_cons in Hnd as [Hx Hnd]. apply not_elem_of_cons in HN as [HNx HN].
  cbn [List.remove].
  destruct (Z.eq_dec h x) as [<-|Hne].
  - rewrite notin_remove by (rewrite <- list_elem_of_In; exact Hx).
    cbn [next_in prev_in]. rewrite Z.eqb_refl.
    destruct (b =? h) eqn:E1; zeq.
    + subst b. apply next_in_notin; auto.
    + destruct (b =? NONE) eqn:E2; zeq; [congruence|].
      destruct (h =? b) eqn:E3; zeq; [congruence|reflexivity].
  - apply elem_of_cons in Hh as [Hh|Hh]; [congruence|].
    cbn [next_in prev_in]. destruct (x =? h) eqn:Exh; zeq; [congruence|].
    destruct (x =? b) eqn:Exb; zeq.
    + subst x. destruct (b =? h) eqn:E1; zeq; [congruence|].
      destruct L as [|y L]; [set_solver|].
      apply NoDup_cons in Hnd as [Hy Hnd]. cbn [List.remove hd next_in prev_in].
      destruct (Z.eq_dec h y) as [<-|Hne2].
      * rewrite Z.eqb_refl, Z.eqb_refl.
        rewrite notin_remove by (rewrite <- list_elem_of_In; exact Hy). reflexivity.
      * cbn [hd]. destruct (y =? h) eqn:E; zeq; [congruence|].
        destruct (b =? prev_in y L h) eqn:E4; zeq; [|reflexivity].
        exfalso. destruct (prev_in_mem y L h) as [Hp|[Hp|Hp]];
          [rewrite Hp in E4|rewrite Hp in E4|rewrite <- E4 in Hp]; subst;
          first [congruence|set_solver].
    + rewrite IH by auto.
      destruct (b =? h) eqn:E1; zeq; [reflexivity|].
      rewrite (prev_in_p x NONE L h) by (intros Hn; rewrite Hn in Hh; contradiction).
      destruct (hd NONE L =? h) eqn:E2; zeq.
      * destruct L as [|y L]; [set_solver|]. cbn [hd] in E2. subst y.
        cbn [next_in prev_in]. rewrite Z.eqb_refl. zcases.
      * reflexivity.
Qed.

Lemma prev_in_rm p L h b :
  NoDup L -> NONE ∉ L -> h ∈ L -> b <> NONE ->
  prev_in p (rm h L) b =
    if b =? h then NONE else if b =? next_in L h then prev_in p L h else prev_in p L b.
Proof.
  unfold rm. revert p. induction L as [|x L IH]; intros p Hnd HN Hh Hb; [set_solver|].
  apply NoDup_cons in Hnd as [Hx Hnd]. apply not_elem_of_cons in HN as [HNx HN].
  cbn [List.remove].
  destruct (Z.eq_dec h x) as [<-|Hne].
  - rewrite notin_remove by (rewrite <- list_elem_of_In; exact Hx).
    cbn [next_in prev_in]. rewrite Z.eqb_refl.
    destruct (b =? h) eqn:E1; zeq.
    + subst b. apply prev_in_notin; auto.
    + destruct (h =? b) eqn:E3; zeq; [congruence|].
      rewrite (prev_in_p p h L b) by exact Hb. zcases.
  - apply elem_of_cons in Hh as [Hh|Hh]; [congruence|].
    cbn [next_in prev_in]. destruct (x =? h) eqn:Exh; zeq; [congruence|].
    rewrite IH by auto.
    destruct (x =? b) eqn:Exb; zeq.
    + subst x. destruct (b =? h) eqn:E1; zeq; [congruence|].
      destruct (b =? next_in L h) eqn:E2; zeq; [|reflexivity].
      exfalso. destruct (next_in_mem L h) as [Hn|Hn]; rewrite <- E2 in Hn; [congruence|set_solver].
    + reflexivity.
Qed.

Lemma hd_rm L h :
  NoDup L -> h ∈ L -> hd NONE (rm h L) = if hd NONE L =? h then next_in L h else hd NONE L.
Proof.
  unfold rm. intros Hnd Hh. destruct L as [|x L]; [set_solver|].
  apply NoDup_cons in Hnd as [Hx Hnd]. cbn [List.remove hd next_in].
  destruct (Z.eq_dec h x) as [<-|Hne].
  - rewrite notin_remove by (rewrite <- list_elem_of_In; exact Hx).
    rewrite Z.eqb_refl. reflexivity.
  - cbn [hd]. destruct (x =? h) eqn:E; zeq; congruence.
Qed.

Lemma llast_indep (L : list Z) d1 d2 : L <> [] -> List.last L d1 = List.last L d2.
Proof.
  induction L as [|x L IH]; intros H; [congruence|].
  destruct L as [|y L]; [reflexivity|].
  change (List.last (y :: L) d1 = List.last (y :: L) d2). apply IH. discriminate.
Qed.

Lemma llast_cons (x : Z) L d : List.last (x :: L) d = List.last L x.
Proof.
  destruct L as [|y L]; [reflexivity|].
  change (List.last (y :: L) d = List.last (y :: L) x). apply llast_indep. discriminate.
Qed.

Lemma llast_mem (L : list Z) d : L <> [] -> List.last L d ∈ L.
Proof.
  induction L as [|x L IH]; intros H; [congruence|].
  rewrite llast_cons. destruct L as [|y L]; [set_solver|].
  rewrite (llast_indep _ x d) by discriminate. set_solver.
Qed.

Lemma last_rm p L h :
  NoDup L -> h ∈ L ->
  List.last (rm h L) p = if List.last L p =? h then prev_in p L h else List.last L p.
Proof.
  unfold rm. revert p. induction L as [|x L IH]; intros p Hnd Hh; [set_solver|].
  apply NoDup_cons in Hnd as [Hx Hnd]. cbn [List.remove].
  destruct (Z.eq_dec h x) as [<-|Hne].
  - rewrite notin_remove by (rewrite <- list_elem_of_In; exact Hx).
    rewrite llast_cons. cbn [prev_in]. rewrite Z.eqb_refl.
    destruct L as [|y L]; [rewrite Z.eqb_refl; reflexivity|].
    rewrite (llast_indep _ h p) by discriminate.
    destruct (List.last (y :: L) p =? h) eqn:E; zeq; [|reflexivity].
    exfalso. pose proof (llast_mem (y :: L) p ltac:(discriminate)). congruence.
  - apply elem_of_cons in Hh as [Hh|Hh]; [congruence|].
    rewrite !llast_cons. cbn [prev_in]. destruct (x =? h) eqn:E; zeq; [congruence|].
    apply IH; auto.
Qed.

Lemma lru_singleton L :
  NoDup L -> L <> [] -> hd NONE L = List.last L NONE -> L = [hd NONE L].
Proof.
  intros Hnd Hne Hht. destruct L as [|x L]; [congruence|].
  destruct L as [|y L]; [reflexivity|]. exfalso.
  rewrite llast_cons in Hht. cbn [hd] in Hht.
  pose proof (llast_mem (y :: L) x ltac:(discriminate)) as Hm.
  rewrite <- Hht in Hm. apply NoDup_cons in Hnd as [Hx _]. contradiction.
Qed.

Lemma next_in_mem_notlast L h :
  NoDup L -> h ∈ L -> h <> List.last L NONE -> next_in L h ∈ L.
Proof.
  induction L as [|x L IH]; intros Hnd Hh Hl; [set_solver|].
  apply NoDup_cons in Hnd as [Hx Hnd]. cbn [next_in].
  rewrite llast_cons in Hl.
  destruct (x =? h) eqn:E; zeq.
  - subst x. destruct L as [|y L]; [cbn in Hl; congruence|]. cbn [hd]. set_solver.
  - apply elem_of_cons in Hh as [Hh|Hh]; [congruence|].
    assert (L <> []) by (intros ->; set_solver).
    rewrite (llast_indep _ x NONE) in Hl by auto. set_solver.
Qed.

Lemma prev_in_mem_nothd p L h :
  h ∈ L -> h <> hd NONE L -> prev_in p L h ∈ L.
Proof.
  revert p. induction L as [|x L IH]; intros p Hh Hd; [set_solver|].
  cbn [prev_in hd] in *. destruct (x =? h) eqn:E; zeq; [congruence|].
  apply elem_of_cons in Hh as [Hh|Hh]; [congruence|].
  destruct (Z.eq_dec h (hd NONE L)) as [Hd2|Hd2].
  - destruct L as [|y L]; [set_solver|]. cbn [hd] in Hd2. subst y.
    cbn [prev_in]. rewrite Z.eqb_refl. set_solver.
  - pose proof (IH x Hh Hd2). set_solver.
Qed.

Lemma next_in_last L :
  NoDup L -> next_in L (List.last L NONE) = NONE.
Proof.
  induction L as [|x L IH]; intros Hnd; [reflexivity|].
  apply NoDup_cons in Hnd as [Hx Hnd]. rewrite llast_cons. cbn [next_in].
  destruct L as [|y L]; [rewrite Z.eqb_refl; reflexivity|].
  rewrite (llast_indep _ x NONE) by discriminate.
  pose proof (llast_mem (y :: L) NONE ltac:(discriminate)).
  destruct (x =? _) eqn:E; zeq; [congruence|]. auto.
Qed.

Lemma u32_small z : 0 <= z < 2 ^ 32 -> u32 z = z.
Proof. intros H. unfold u32. apply Z.mod_small. exact H. Qed.

Lemma idx_eqb b k b' k' :
  0 <= k <= 1 -> 0 <= k' <= 1 -> (b * 2 + k =? b' * 2 + k') = (b =? b') && (k =? k').
Proof.
  intros Hk Hk'. destruct (b =? b') eqn:E1, (k =? k') eqn:E2; zeq; cbn [andb];
    apply Z.eqb_eq || apply Z.eqb_neq; lia.
Qed.

Lemma set_link_eq t b k v :
  0 <= b < hash_table_size t -> 0 <= k <= 1 -> hash_table_size t <= 2 ^ 31 ->
  Z.of_nat (length (hash_table_lru_links t)) = 2 * hash_table_size t ->
  set_link t b k v =
    Some (set_links t (<[Z.to_nat (b * 2 + k) := v]> (hash_table_lru_links t))).
Proof.
  intros Hb Hk Hh Hl. unfold set_link. rewrite u32_small by lia.
  rewrite wr_ok by lia. reflexivity.
Qed.

Lemma get_link_eq t b k :
  0 <= b < hash_table_size t -> 0 <= k <= 1 -> hash_table_size t <= 2 ^ 31 ->
  get_link t b k = rd (hash_table_lru_links t) (b * 2 + k).
Proof. intros. unfold get_link. rewrite u32_small by lia. reflexivity. Qed.

Lemma next_in_neq L h : NoDup L -> h <> NONE -> next_in L h <> h.
Proof.
  induction L as [|x L IH]; intros Hnd Hh; cbn [next_in]; [congruence|].
  apply NoDup_cons in Hnd as [Hx Hnd].
  destruct (x =? h) eqn:E; zeq; [|auto].
  subst x. destruct L as [|y L]; cbn [hd]; [congruence|]. set_solver.
Qed.

Lemma prev_in_neq p L h : p <> h -> h <> NONE -> prev_in p L h <> h.
Proof.
  revert p. induction L as [|x L IH]; intros p Hp Hh; cbn [prev_in]; [congruence|].
  destruct (x =? h) eqn:E; zeq; [auto|]. apply IH; auto.
Qed.

Lemma rm_head h L : h ∉ L -> rm h (h :: L) = L.
Proof.
  intros Hh. unfold rm. cbn [List.remove].
  destruct (Z.eq_dec h h) as [_|]; [|congruence].
  apply notin_remove. rewrite <- list_elem_of_In. exact Hh.
Qed.

Lemma rm_notin h L : h ∉ L -> rm h L = L.
Proof. intros Hh. unfold rm. apply notin_remove. rewrite <- list_elem_of_In. exact Hh. Qed.

Lemma rm_sub h L b : b ∈ rm h L -> b ∈ L /\ b <> h.
Proof. unfold rm. rewrite !list_elem_of_In. apply in_remove. Qed.

Lemma rm_nodup h L : NoDup L -> NoDup (rm h L).
Proof.
  unfold rm. induction L as [|x L IH]; intros Hnd; cbn [List.remove]; [constructor|].
  apply NoDup_cons in Hnd as [Hx Hnd].
  destruct (Z.eq_dec h x); [auto|].
  constructor; [|auto]. intros Hm. apply (rm_sub h L) in Hm. tauto.
Qed.

Lemma rm_mem h L b : b ∈ L -> b <> h -> b ∈ rm h L.
Proof. unfold rm. rewrite !list_elem_of_In. intros. apply in_in_remove; auto. Qed.

Lemma idx_00 b b' : (b * 2 + 0 =? b' * 2 + 0) = (b =? b').
Proof. destruct (b =? b') eqn:E; zeq; [apply Z.eqb_eq|apply Z.eqb_neq]; lia. Qed.

Lemma idx_11 b b' : (b * 2 + 1 =? b' * 2 + 1) = (b =? b').
Proof. destruct (b =? b') eqn:E; zeq; [apply Z.eqb_eq|apply Z.eqb_neq]; lia. Qed.

Lemma idx_01 b b' : (b * 2 + 0 =? b' * 2 + 1) = false.
Proof. apply Z.eqb_neq. lia. Qed.

Lemma idx_10 b b' : (b * 2 + 1 =? b' * 2 + 0) = false.
Proof. apply Z.eqb_neq. lia. Qed.

Lemma next_in_push h L b : next_in (h :: L) b = if b =? h then hd NONE L else next_in L b.
Proof. cbn [next_in]. rewrite Z.eqb_sym. reflexivity. Qed.

Lemma prev_in_push h L b :
  b <> NONE ->
  prev_in NONE (h :: L) b = if b =? h then NONE else if b =? hd NONE L then h else prev_in NONE L b.
Proof.
  intros Hb. cbn [prev_in]. rewrite Z.eqb_sym.
  destruct (b =? h); [reflexivity|]. rewrite (prev_in_p h NONE L b Hb).
  rewrite Z.eqb_sym. reflexivity.
Qed.

(** Rewrite reads of updated link arrays into comparisons of rows. *)
Ltac links_rw :=
  repeat (rewrite rd_insert by (rewrite ?length_insert; lia));
  rewrite ?idx_00, ?idx_11, ?idx_01, ?idx_10.

Lemma insert_to_lru_head_repr t L h :
  lru_repr t L -> 0 <= h < hash_table_size t -> h ∉ L ->
  exists t', lrutrack_insert_to_lru_head t h = Some t' /\ lru_repr t' (h :: L) /\ same_data t t'.
Proof.
  intros R Hh Hn. destruct R as [Hs Hl Hnd Hr Hhd Htl Hlk].
  unfold lrutrack_insert_to_lru_head. rewrite Hhd.
  destruct L as [|x L'].
  - cbn [hd]. rewrite Z.eqb_refl. cbn [negb].
    eexists; split; [reflexivity|]. split; [|repeat split; reflexivity].
    constructor; cbn; auto.
    + constructor; [set_solver|constructor].
    + intros b Hb. apply list_elem_of_singleton in Hb. subst. auto.
    + intros b Hb. destruct (Hlk b Hb) as [H0 H1]. cbn in H0, H1.
      unfold get_link in *. cbn. rewrite H0, H1. cbn [prev_in next_in hd].
      destruct (h =? b); auto.
  - assert (Hx : 0 <= x < hash_table_size t) by (apply Hr; set_solver).
    assert (HxN : x <> NONE) by (unfold NONE; lia).
    cbn [hd]. replace (x =? NONE) with false by (symmetry; apply Z.eqb_neq; exact HxN).
    cbn [negb].
    rewrite set_link_eq by lia. cbn [mbind option_bind].
    rewrite set_link_eq by (cbn; rewrite ?length_insert; lia).
    eexists; split; [reflexivity|]. split; [|repeat split; reflexivity].
    constructor; cbn [lru_head lru_tail set_lru_head set_links hash_table_size
                      hash_table_lru_links].
    + lia.
    + rewrite !length_insert. lia.
    + constructor; auto.
    + intros b Hb. apply elem_of_cons in Hb as [->|Hb]; auto.
    + reflexivity.
    + rewrite Htl. reflexivity.
    + intros b Hb. destruct (Hlk b Hb) as [H0 H1].
      rewrite get_link_eq in H0, H1 by lia. rewrite !get_link_eq by (cbn; lia).
      cbn [hash_table_lru_links set_links set_lru_head].
      assert (HbN : b <> NONE) by (unfold NONE; lia).
      rewrite prev_in_push, next_in_push by exact HbN. cbn [hd].
      pose proof (prev_in_notin NONE (x :: L') h Hn).
      pose proof (next_in_notin (x :: L') h Hn).
      assert (h <> x) by set_solver. cbn [hd] in Hhd.
      links_rw. split; zcases.
Qed.

Lemma prev_in_hd p L : L <> [] -> prev_in p L (hd NONE L) = p.
Proof. destruct L as [|x L]; [congruence|]. intros _. cbn. rewrite Z.eqb_refl. reflexivity. Qed.

Lemma lru_none_notin t L : lru_repr t L -> NONE ∉ L.
Proof. intros R HN. apply (lru_range _ _ R) in HN. pose proof (lru_hts _ _ R). unfold NONE in HN. lia. Qed.

Lemma lru_ne_none t L b : lru_repr t L -> 0 <= b < hash_table_size t -> b <> NONE.
Proof. intros R Hb. pose proof (lru_hts _ _ R). unfold NONE. lia. Qed.

Ltac bool_facts :=
  repeat match goal with
  | H : ?a <> ?b |- context [?a =? ?b] =>
      replace (a =? b) with false by (symmetry; apply Z.eqb_neq; exact H)
  | H : ?a <> ?b |- context [?b =? ?a] =>
      replace (b =? a) with false by (symmetry; apply Z.eqb_neq; congruence)
  | H : ?a = ?b |- context [?a =? ?b] =>
      replace (a =? b) with true by (symmetry; apply Z.eqb_eq; exact H)
  | H : ?a = ?b |- context [?b =? ?a] =>
      replace (b =? a) with true by (symmetry; apply Z.eqb_eq; congruence)
  end.

Lemma remove_from_lru_repr t L h :
  lru_repr t L -> h ∈ L ->
  exists t', lrutrack_remove_from_lru t h = Some t' /\ lru_repr t' (rm h L) /\ same_data t t'.
Proof.
  intros R Hh. pose proof R as [Hs Hl Hnd Hr Hhd Htl Hlk].
  pose proof (lru_none_notin _ _ R) as HN.
  assert (HhR : 0 <= h < hash_table_size t) by auto.
  assert (HhN : h <> NONE) by (intros ->; contradiction).
  assert (HLne : L <> []) by (intros ->; set_solver).
  pose proof (prev_in_neq NONE L h ltac:(congruence) HhN) as Hpn.
  pose proof (next_in_neq L h Hnd HhN) as Hnn.
  assert (Rm : forall b, b ∈ rm h L -> 0 <= b < hash_table_size t)
    by (intros b Hb; apply rm_sub in Hb; apply Hr; tauto).
  unfold lrutrack_remove_from_lru. rewrite Hhd, Htl.
  destruct (hd NONE L =? List.last L NONE) eqn:Eht; zeq.
  - (* a single listed row *)
    pose proof (lru_singleton L Hnd HLne Eht) as HL.
    assert (hd NONE L = h) as Hh0 by (rewrite HL in Hh; set_solver).
    rewrite Hh0 in HL. rewrite HL. rewrite rm_head by set_solver.
    eexists; split; [reflexivity|]. split; [|repeat split; reflexivity].
    constructor; cbn [lru_head lru_tail set_lru_tail set_lru_head hash_table_size
                      hash_table_lru_links].
    + lia.
    + lia.
    + constructor.
    + intros b Hb. apply elem_of_nil in Hb. contradiction.
    + reflexivity.
    + reflexivity.
    + intros b Hb. destruct (Hlk b Hb) as [H0 H1]. rewrite HL in H0, H1.
      rewrite !get_link_eq in * by (cbn; lia). cbn [hash_table_lru_links set_lru_tail set_lru_head].
      rewrite H0, H1. cbn [prev_in next_in hd]. destruct (h =? b); auto.
  - assert (HnR : h <> List.last L NONE -> 0 <= next_in L h < hash_table_size t)
      by (intros; apply Hr, next_in_mem_notlast; auto).
    assert (HpR : h <> hd NONE L -> 0 <= prev_in NONE L h < hash_table_size t)
      by (intros; apply Hr, prev_in_mem_nothd; auto).
    destruct (h =? hd NONE L) eqn:Eh; zeq.
    + (* the head row *)
      assert (Hp : prev_in NONE L h = NONE) by (rewrite Eh; apply prev_in_hd; auto).
      assert (h <> List.last L NONE) by congruence.
      destruct (Hlk h HhR) as [_ Hh1]. rewrite Hh1. cbn [mbind option_bind].
      rewrite set_link_eq by (cbn; auto; lia). cbn [mbind option_bind].
      rewrite set_link_eq by (cbn; rewrite ?length_insert; auto; lia).
      eexists; split; [reflexivity|]. split; [|repeat split; reflexivity].
      constructor; cbn [lru_head lru_tail set_lru_head set_links hash_table_size
                        hash_table_lru_links].
      * lia.
      * rewrite !length_insert. lia.
      * apply rm_nodup; auto.
      * exact Rm.
      * rewrite hd_rm by auto. rewrite <- Eh, Z.eqb_refl. reflexivity.
      * rewrite last_rm by auto. rewrite Htl. bool_facts. reflexivity.
      * intros b Hb. destruct (Hlk b Hb) as [H0 H1].
        rewrite get_link_eq in H0, H1 by lia. rewrite !get_link_eq by (cbn; lia).
        cbn [hash_table_lru_links set_links set_lru_head].
        pose proof (lru_ne_none _ _ _ R Hb) as HbN.
        rewrite prev_in_rm, next_in_rm by auto. rewrite Hp.
        links_rw. split; zcases.
    + destruct (h =? List.last L NONE) eqn:Et; zeq.
      * (* the tail row *)
        assert (Hn : next_in L h = NONE) by (rewrite Et; apply next_in_last; auto).
        destruct (Hlk h HhR) as [Hh0 _]. rewrite Hh0. cbn [mbind option_bind].
        rewrite set_link_eq by (cbn; auto; lia). cbn [mbind option_bind].
        rewrite set_link_eq by (cbn; rewrite ?length_insert; auto; lia).
        eexists; split; [reflexivity|]. split; [|repeat split; reflexivity].
        constructor; cbn [lru_head lru_tail set_lru_tail set_links hash_table_size
                          hash_table_lru_links].
        -- lia.
        -- rewrite !length_insert. lia.
        -- apply rm_nodup; auto.
        -- exact Rm.
        -- rewrite hd_rm by auto. rewrite Hhd. bool_facts. reflexivity.
        -- rewrite last_rm by auto. rewrite <- Et, Z.eqb_refl. reflexivity.
        -- intros b Hb. destruct (Hlk b Hb) as [H0 H1].
           rewrite get_link_eq in H0, H1 by lia. rewrite !get_link_eq by (cbn; lia).
           cbn [hash_table_lru_links set_links set_lru_tail].
           pose proof (lru_ne_none _ _ _ R Hb) as HbN.
           rewrite prev_in_rm, next_in_rm by auto. rewrite Hn.
           links_rw. split; zcases.
      * (* an interior row *)
        destruct (Hlk h HhR) as [Hh0 Hh1]. rewrite Hh0, Hh1. cbn [mbind option_bind].
        specialize (HnR Et). specialize (HpR Eh).
        rewrite set_link_eq by (cbn; auto; lia). cbn [mbind option_bind].
        rewrite set_link_eq by (cbn; rewrite ?length_insert; auto; lia).
        cbn [mbind option_bind].
        rewrite set_link_eq by (cbn; rewrite ?length_insert; auto; lia).
        cbn [mbind option_bind].
        rewrite set_link_eq by (cbn; rewrite ?length_insert; auto; lia).
        eexists; split; [reflexivity|]. split; [|repeat split; reflexivity].
        constructor; cbn [lru_head lru_tail set_links hash_table_size
                          hash_table_lru_links].
        -- lia.
        -- rewrite !length_insert. lia.
        -- apply rm_nodup; auto.
        -- exact Rm.
        -- rewrite hd_rm by auto. rewrite Hhd. bool_facts. reflexivity.
        -- rewrite last_rm by auto. rewrite Htl. bool_facts. reflexivity.
        -- intros b Hb. destruct (Hlk b Hb) as [H0 H1].
           rewrite get_link_eq in H0, H1 by lia. rewrite !get_link_eq by (cbn; lia).
           cbn [hash_table_lru_links set_links].
           pose proof (lru_ne_none _ _ _ R Hb) as HbN.
           rewrite prev_in_rm, next_in_rm by auto.
           links_rw. split; zcases.
Qed.

Lemma rm_at_head L h : NoDup L -> L <> [] -> hd NONE L = h -> h :: rm h L = L.
Proof.
  intros Hnd Hne Hd. destruct L as [|x L]; [congruence|]. cbn [hd] in Hd. subst x.
  apply NoDup_cons in Hnd as [Hx _]. rewrite rm_head by exact Hx. reflexivity.
Qed.

Lemma lru_repr_same t L L' : lru_repr t L -> L' = L -> lru_repr t L'.
Proof. intros R ->. exact R. Qed.

Lemma move_to_lru_head_repr t L h :
  lru_repr t L -> h ∈ L ->
  exists t', lrutrack_move_to_lru_head t h = Some t' /\ lru_repr t' (h :: rm h L) /\
             same_data t t'.
Proof.
  intros R Hh. pose proof R as [Hs Hl Hnd Hr Hhd Htl Hlk].
  pose proof (lru_none_notin _ _ R) as HN.
  assert (HhR : 0 <= h < hash_table_size t) by auto.
  assert (HhN : h <> NONE) by (intros ->; contradiction).
  assert (HLne : L <> []) by (intros ->; set_solver).
  pose proof (prev_in_neq NONE L h ltac:(congruence) HhN) as Hpn.
  pose proof (next_in_neq L h Hnd HhN) as Hnn.
  assert (Rm : forall b, b ∈ h :: rm h L -> 0 <= b < hash_table_size t)
    by (intros b Hb; apply elem_of_cons in Hb as [->|Hb]; auto;
        apply rm_sub in Hb; apply Hr; tauto).
  assert (Nd : NoDup (h :: rm h L))
    by (constructor; [intros Hm; apply rm_sub in Hm; tauto|apply rm_nodup; auto]).
  assert (HdR : 0 <= hd NONE L < hash_table_size t)
    by (apply Hr; destruct L; [congruence|apply list_elem_of_here]).
  unfold lrutrack_move_to_lru_head. rewrite Hhd, Htl.
  destruct (hd NONE L =? List.last L NONE) eqn:Eht; zeq; cbn [negb].
  - (* a single listed row *)
    pose proof (lru_singleton L Hnd HLne Eht) as HL.
    assert (hd NONE L = h) as Hh0 by (rewrite HL in Hh; set_solver).
    exists t. split; [reflexivity|]. split; [|repeat split; reflexivity].
    apply (lru_repr_same _ L); [exact R|]. apply rm_at_head; auto.
  - assert (HnR : h <> List.last L NONE -> 0 <= next_in L h < hash_table_size t)
      by (intros; apply Hr, next_in_mem_notlast; auto).
    assert (HpR : h <> hd NONE L -> 0 <= prev_in NONE L h < hash_table_size t)
      by (intros; apply Hr, prev_in_mem_nothd; auto).
    assert (HL1 : rm h L <> []).
    { intros E. destruct (Z.eq_dec h (hd NONE L)) as [E1|E1].
      - assert (Hm : List.last L NONE ∈ rm h L) by
          (apply rm_mem; [apply llast_mem; auto|congruence]).
        rewrite E in Hm. apply elem_of_nil in Hm. exact Hm.
      - assert (Hm : hd NONE L ∈ rm h L).
        { apply rm_mem; [|congruence]. destruct L as [|x L']; [congruence|].
          apply list_elem_of_here. }
        rewrite E in Hm. apply elem_of_nil in Hm. exact Hm. }
    assert (Htl' : List.last (h :: rm h L) NONE =
                   if List.last L NONE =? h then prev_in NONE L h else List.last L NONE)
      by (rewrite llast_cons, (llast_indep _ h NONE) by exact HL1; apply last_rm; auto).
    destruct (h =? List.last L NONE) eqn:Et; zeq.
    + (* the tail row *)
      assert (h <> hd NONE L) as Eh by congruence.
      specialize (HpR Eh).
      assert (Hn : next_in L h = NONE) by (rewrite Et; apply next_in_last; auto).
      bool_facts. destruct (Hlk h HhR) as [Hh0 _]. rewrite Hh0.
      cbn [mbind option_bind].
      rewrite set_link_eq by (cbn; auto; lia). cbn [mbind option_bind].
      rewrite set_link_eq by (cbn; rewrite ?length_insert; auto; lia).
      cbn [mbind option_bind].
      rewrite set_link_eq by (cbn; rewrite ?length_insert; auto; lia).
      cbn [mbind option_bind].
      rewrite set_link_eq by (cbn; rewrite ?length_insert; auto; lia).
      eexists; split; [reflexivity|]. split; [|repeat split; reflexivity].
      constructor; cbn [lru_head lru_tail set_lru_tail set_lru_head set_links
                        hash_table_size hash_table_lru_links].
      * lia.
      * rewrite !length_insert. lia.
      * exact Nd.
      * exact Rm.
      * reflexivity.
      * rewrite Htl'. rewrite <- Et, Z.eqb_refl. reflexivity.
      * intros b Hb. destruct (Hlk b Hb) as [H0 H1].
        rewrite get_link_eq in H0, H1 by lia. rewrite !get_link_eq by (cbn; lia).
        cbn [hash_table_lru_links set_links set_lru_tail set_lru_head].
        pose proof (lru_ne_none _ _ _ R Hb) as HbN.
        rewrite prev_in_push, next_in_push by exact HbN.
        rewrite hd_rm by auto. bool_facts.
        rewrite prev_in_rm, next_in_rm by auto. rewrite Hn.
        links_rw. split; zcases.
    + destruct (h =? hd NONE L) eqn:Eh; zeq; cbn [negb].
      * (* already the head *)
        exists t. split; [reflexivity|]. split; [|repeat split; reflexivity].
        apply (lru_repr_same _ L); [exact R|]. apply rm_at_head; auto.
      * (* an interior row *)
        specialize (HnR Et). specialize (HpR Eh).
        destruct (Hlk h HhR) as [Hh0 Hh1]. rewrite Hh0, Hh1. cbn [mbind option_bind].
        rewrite set_link_eq by (cbn; auto; lia). cbn [mbind option_bind].
        rewrite set_link_eq by (cbn; rewrite ?length_insert; auto; lia).
        cbn [mbind option_bind].
        rewrite set_link_eq by (cbn; rewrite ?length_insert; auto; lia).
        cbn [mbind option_bind].
        rewrite set_link_eq by (cbn; rewrite ?length_insert; auto; lia).
        cbn [mbind option_bind lru_head set_links].
        rewrite set_link_eq by (cbn; rewrite ?length_insert; auto; lia).
        eexists; split; [reflexivity|]. split; [|repeat split; reflexivity].
        constructor; cbn [lru_head lru_tail set_lru_head set_links
                          hash_table_size hash_table_lru_links].
        -- lia.
        -- rewrite !length_insert. lia.
        -- exact Nd.
        -- exact Rm.
        -- reflexivity.
        -- rewrite Htl', Htl. bool_facts. reflexivity.
        -- intros b Hb. destruct (Hlk b Hb) as [H0 H1].
           rewrite get_link_eq in H0, H1 by lia. rewrite !get_link_eq by (cbn; lia).
           cbn [hash_table_lru_links set_links set_lru_head].
           pose proof (lru_ne_none _ _ _ R Hb) as HbN.
           rewrite prev_in_push, next_in_push by exact HbN.
           rewrite hd_rm by auto. bool_facts.
           rewrite prev_in_rm, next_in_rm by auto.
           links_rw. split; zcases.
Qed.

Lemma rows_zrange n : rows n = zrange 0 n.
Proof. unfold rows, zrange. f_equal. f_equal. lia. Qed.

Lemma zrange_mem lo hi i : 0 <= lo -> i ∈ zrange lo hi <-> lo <= i < hi.
Proof.
  intros Hlo. unfold zrange. rewrite list_elem_of_In, in_map_iff. split.
  - intros (n & <- & Hn). apply in_seq in Hn. lia.
  - intros Hi. exists (Z.to_nat i). split; [lia|]. apply in_seq. lia.
Qed.

Lemma zrange_nodup lo hi : NoDup (zrange lo hi).
Proof.
  unfold zrange. apply NoDup_fmap_2; [intros x y; lia|]. apply NoDup_seq.
Qed.

Lemma zrange_cons lo hi : 0 <= lo < hi -> zrange lo hi = lo :: zrange (lo + 1) hi.
Proof.
  intros H. unfold zrange.
  replace (Z.to_nat (hi - lo)) with (S (Z.to_nat (hi - (lo + 1)))) by lia.
  cbn [seq map]. rewrite Z2Nat.id by lia. f_equal.
  replace (S (Z.to_nat lo)) with (Z.to_nat (lo + 1)) by lia. reflexivity.
Qed.

Lemma zrange_nil lo hi : hi <= lo -> zrange lo hi = [].
Proof. intros H. unfold zrange. replace (Z.to_nat (hi - lo)) with 0%nat by lia. reflexivity. Qed.

Lemma next_in_zrange lo hi i :
  0 <= lo -> lo <= i < hi -> next_in (zrange lo hi) i = if i + 1 <? hi then i + 1 else NONE.
Proof.
  intros Hlo Hi. remember (Z.to_nat (hi - lo)) as m eqn:Hm.
  revert lo Hlo Hi Hm. induction m as [|m IH]; intros lo Hlo Hi Hm; [lia|].
  rewrite zrange_cons by lia. cbn [next_in].
  destruct (lo =? i) eqn:E; zeq.
  - subst lo. destruct (i + 1 <? hi) eqn:E2.
    + apply Z.ltb_lt in E2. rewrite zrange_cons by lia. reflexivity.
    + apply Z.ltb_ge in E2. rewrite zrange_nil by lia. reflexivity.
  - apply IH; lia.
Qed.

Lemma hd_zrange lo hi : 0 <= lo < hi -> hd NONE (zrange lo hi) = lo.
Proof. intros H. rewrite zrange_cons by lia. reflexivity. Qed.

(** ** The loops that link slots *)

Lemma for_items_spec {A} fuel (body : Z -> A -> A) i hi (a : list A) :
  0 <= i -> hi <= Z.of_nat (length a) -> hi < 2 ^ 32 -> (Z.to_nat (hi - i) < fuel)%nat ->
  exists a', for_items fuel body i hi a = Some a' /\ length a' = length a /\
    forall j, 0 <= j ->
      rd a' j = if (i <=? j) && (j <? hi) then body j <$> rd a j else rd a j.
Proof.
  revert i a. induction fuel as [|f IH]; intros i a Hi Hhi H32 Hf; [lia|].
  cbn [for_items]. destruct (i <? hi) eqn:E.
  - apply Z.ltb_lt in E.
    destruct (rd_in_range a i) as [x Hx]; [lia|]. rewrite Hx. cbn [mbind option_bind].
    rewrite wr_ok by lia. cbn [mbind option_bind].
    rewrite u32_small by lia.
    destruct (IH (i + 1) (<[Z.to_nat i := body i x]> a)) as (a' & Ha' & Hl & Hr);
      [lia|rewrite length_insert; lia|lia|lia|].
    exists a'. split; [exact Ha'|]. split; [rewrite Hl, length_insert; reflexivity|].
    intros j Hj. rewrite Hr by exact Hj. rewrite !rd_insert by lia.
    destruct (j =? i) eqn:Eji; zeq.
    + subst j. rewrite Hx. replace ((i + 1 <=? i) && (i <? hi)) with false
        by (symmetry; apply andb_false_iff; left; apply Z.leb_gt; lia).
      replace ((i <=? i) && (i <? hi)) with true
        by (symmetry; apply andb_true_iff; split; [apply Z.leb_le|apply Z.ltb_lt]; lia).
      reflexivity.
    + destruct (i + 1 <=? j) eqn:E1, (i <=? j) eqn:E2, (j <? hi) eqn:E3;
        cbn [andb]; try reflexivity;
        apply Z.leb_le in E1 || apply Z.leb_gt in E1;
        apply Z.leb_le in E2 || apply Z.leb_gt in E2; lia.
  - apply Z.ltb_ge in E. exists a. split; [reflexivity|]. split; [reflexivity|].
    intros j Hj. replace ((i <=? j) && (j <? hi)) with false; [reflexivity|].
    symmetry. apply andb_false_iff.
    destruct (i <=? j) eqn:E1; [right|left; reflexivity].
    apply Z.ltb_ge. apply Z.leb_le in E1. lia.
Qed.

(** ** The arena: free list and row chains *)

Lemma linked_range its l i : linked its l -> i ∈ l -> 0 <= i < Z.of_nat (length its).
Proof. intros Hl Hi. destruct (Hl i Hi) as (it & Hr & _). eapply rd_Some_range; eauto. Qed.

Lemma linked_ext its its' l :
  linked its l -> (forall i, i ∈ l -> rd its' i = rd its i) -> linked its' l.
Proof. intros Hl He i Hi. rewrite He by exact Hi. auto. Qed.

Lemma keyed_ext its its' l :
  keyed its l -> (forall i, i ∈ l -> rd its' i = rd its i) -> keyed its' l.
Proof. intros Hl He i Hi. rewrite He by exact Hi. auto. Qed.

Lemma linked_tail its j l : linked its (j :: l) -> NoDup (j :: l) -> linked its l.
Proof.
  intros Hl Hnd i Hi. apply NoDup_cons in Hnd as [Hj _].
  destruct (Hl i (list_elem_of_further _ _ _ Hi)) as (it & Hr & Hn).
  exists it. split; [exact Hr|]. rewrite Hn. cbn [next_in].
  destruct (j =? i) eqn:E; zeq; [subst; contradiction|reflexivity].
Qed.

Lemma linked_cons its j l it :
  linked its l -> j ∉ l -> rd its j = Some it -> next it = hd NONE l -> linked its (j :: l).
Proof.
  intros Hl Hj Hr Hn i Hi. apply elem_of_cons in Hi as [->|Hi].
  - exists it. split; [exact Hr|]. cbn [next_in]. rewrite Z.eqb_refl. exact Hn.
  - destruct (Hl i Hi) as (it' & Hr' & Hn'). exists it'. split; [exact Hr'|].
    cbn [next_in]. destruct (j =? i) eqn:E; zeq; [subst; contradiction|exact Hn'].
Qed.

Lemma keyed_tail its j l : keyed its (j :: l) -> keyed its l.
Proof. intros Hk i Hi. apply Hk. apply list_elem_of_further. exact Hi. Qed.

Lemma rows_mem n b : b ∈ rows n <-> 0 <= b < n.
Proof. rewrite rows_zrange. apply zrange_mem. lia. Qed.

Lemma rows_nodup n : NoDup (rows n).
Proof. rewrite rows_zrange. apply zrange_nodup. Qed.

Lemma in_chains (ch : Z -> list Z) rs i :
  i ∈ concat (map ch rs) <-> exists b, b ∈ rs /\ i ∈ ch b.
Proof.
  rewrite list_elem_of_In, in_concat. split.
  - intros (l & Hl & Hi). apply in_map_iff in Hl as (b & <- & Hb).
    exists b. rewrite !list_elem_of_In. auto.
  - intros (b & Hb & Hi). exists (ch b). rewrite list_elem_of_In in Hb, Hi.
    split; [apply in_map; exact Hb|exact Hi].
Qed.

Lemma map_upd_notin ch h l rs : h ∉ rs -> map (upd ch h l) rs = map ch rs.
Proof.
  induction rs as [|x rs IH]; intros Hh; [reflexivity|].
  apply not_elem_of_cons in Hh as [Hx Hh]. cbn [map]. rewrite IH by exact Hh.
  unfold upd. destruct (x =? h) eqn:E; zeq; [congruence|reflexivity].
Qed.

Lemma concat_upd_perm ch h l rs :
  NoDup rs -> h ∈ rs ->
  ch h ++ concat (map (upd ch h l) rs) ≡ₚ l ++ concat (map ch rs).
Proof.
  induction rs as [|x rs IH]; intros Hnd Hh; [set_solver|].
  apply NoDup_cons in Hnd as [Hx Hnd]. cbn [map concat].
  unfold upd at 1. destruct (x =? h) eqn:E; zeq.
  - subst x. rewrite map_upd_notin by exact Hx.
    rewrite !app_assoc. apply Permutation_app_tail, Permutation_app_comm.
  - apply elem_of_cons in Hh as [Hh|Hh]; [congruence|].
    specialize (IH Hnd Hh).
    rewrite app_assoc, (Permutation_app_comm (ch h) (ch x)), <- app_assoc, IH.
    rewrite !app_assoc. apply Permutation_app_tail, Permutation_app_comm.
Qed.

Lemma perm_rm l i : NoDup l -> i ∈ l -> l ≡ₚ i :: rm i l.
Proof.
  induction l as [|x l IH]; intros Hnd Hi; [set_solver|].
  apply NoDup_cons in Hnd as [Hx Hnd].
  destruct (Z.eq_dec i x) as [<-|Hne].
  - rewrite rm_head by exact Hx. reflexivity.
  - apply elem_of_cons in Hi as [Hi|Hi]; [congruence|].
    unfold rm. cbn [List.remove]. destruct (Z.eq_dec i x); [congruence|].
    fold (rm i l). rewrite (IH Hnd Hi) at 1. apply Permutation_swap.
Qed.

(** ** Lookup *)

Lemma bytes_eqb_refl k : bytes_eqb k k = true.
Proof.
  induction k as [|x k IH]; [reflexivity|]. cbn [bytes_eqb].
  rewrite (Byte.byte_dec_lb eq_refl), IH. reflexivity.
Qed.

Lemma key_match_new k v n : key_match k (mk_item (Some k) (key_len k) v n) = true.
Proof. unfold key_match. cbn. rewrite Z.eqb_refl, bytes_eqb_refl. reflexivity. Qed.

Lemma hash_range k len sd n :
  0 < n <= 2 ^ 32 -> 0 <= lrutrack_hash k len sd n < n.
Proof.
  intros Hn. unfold lrutrack_hash, murmur_hash.
  rewrite u32_small by lia.
  set (h1 := mul32 _ murmur_m).
  assert (0 <= h1) by (unfold h1, mul32, u32; apply Z.mod_pos_bound; lia).
  assert (0 <= Z.lxor h1 (Z.shiftr h1 15)).
  { apply Z.lxor_nonneg. split; intros; [apply Z.shiftr_nonneg|]; auto. }
  split.
  - apply Z.land_nonneg. auto.
  - pose proof (land_le_r (Z.lxor h1 (Z.shiftr h1 15)) (n - 1) ltac:(auto) ltac:(lia)). lia.
Qed.

Lemma chain_length its l :
  linked its l -> NoDup l -> (length l <= length its)%nat.
Proof.
  intros Hl Hnd.
  assert (Hinc : incl l (zrange 0 (Z.of_nat (length its)))).
  { intros x Hx. rewrite <- list_elem_of_In in Hx |- *. apply zrange_mem; [lia|].
    apply (linked_range _ _ _ Hl Hx). }
  rewrite NoDup_ListNoDup in Hnd.
  pose proof (NoDup_incl_length Hnd Hinc) as H.
  unfold zrange in H. rewrite length_map, length_seq in H. lia.
Qed.

Lemma find_loop_spec its k fuel l :
  linked its l -> keyed its l -> NoDup l -> Z.of_nat (length its) <= NONE ->
  (length l < fuel)%nat ->
  lrutrack_find_loop its k (key_len k) fuel (hd NONE l) = Some (find_in its k l).
Proof.
  revert fuel. induction l as [|i l IH]; intros fuel Hl Hk Hnd Hmax Hf.
  - destruct fuel; [lia|]. cbn [lrutrack_find_loop hd find_in]. rewrite Z.eqb_refl. reflexivity.
  - destruct fuel as [|f]; [cbn in Hf; lia|].
    destruct (Hk i (list_elem_of_here _ _)) as (it & kb & Hr & Hkey & Hkl).
    pose proof (linked_range _ _ i Hl (list_elem_of_here _ _)).
    cbn [lrutrack_find_loop hd find_in].
    replace (i =? NONE) with false by (symmetry; apply Z.eqb_neq; lia).
    rewrite Hr. cbn [mbind option_bind].
    unfold lrutrack_cmp_keys. rewrite Hkey, Hkl.
    unfold key_match. rewrite Hkey, Hkl.
    destruct (key_len k =? key_len kb) eqn:E; cbn [negb andb].
    + destruct (bytes_eqb k kb); [reflexivity|].
      destruct (Hl i (list_elem_of_here _ _)) as (it' & Hr' & Hn).
      rewrite Hr in Hr'. injection Hr' as <-. rewrite Hn. cbn [next_in]. rewrite Z.eqb_refl.
      apply IH; [eapply linked_tail; eauto|eapply keyed_tail; eauto|
                 apply NoDup_cons in Hnd; tauto|exact Hmax|cbn in Hf; lia].
    + destruct (Hl i (list_elem_of_here _ _)) as (it' & Hr' & Hn).
      rewrite Hr in Hr'. injection Hr' as <-. rewrite Hn. cbn [next_in]. rewrite Z.eqb_refl.
      apply IH; [eapply linked_tail; eauto|eapply keyed_tail; eauto|
                 apply NoDup_cons in Hnd; tauto|exact Hmax|cbn in Hf; lia].
Qed.

Lemma lru_repr_data t t' L :
  lru_repr t L -> hash_table_size t' = hash_table_size t ->
  hash_table_lru_links t' = hash_table_lru_links t ->
  lru_head t' = lru_head t -> lru_tail t' = lru_tail t -> lru_repr t' L.
Proof.
  intros [Hs Hl Hnd Hr Hhd Htl Hlk] E1 E2 E3 E4.
  constructor; rewrite ?E1, ?E2, ?E3, ?E4; auto.
  intros b Hb. unfold get_link. rewrite E2. apply Hlk. exact Hb.
Qed.

Lemma set_item_eq t j it :
  0 <= j < Z.of_nat (length (items t)) ->
  set_item t j it = Some (set_items t (<[Z.to_nat j := it]> (items t))).
Proof. intros H. unfold set_item. rewrite wr_ok by exact H. reflexivity. Qed.

Lemma set_ht_eq t b x :
  0 <= b < Z.of_nat (length (hash_table t)) ->
  set_ht t b x = Some (set_hash_table t (<[Z.to_nat b := x]> (hash_table t))).
Proof. intros H. unfold set_ht. rewrite wr_ok by exact H. reflexivity. Qed.

Lemma nodup_concat_row (ch : Z -> list Z) rs b :
  NoDup (concat (map ch rs)) -> b ∈ rs -> NoDup (ch b).
Proof.
  induction rs as [|x rs IH]; intros Hnd Hb; [set_solver|].
  cbn [map concat] in Hnd. apply NoDup_app in Hnd as (H1 & _ & H2).
  apply elem_of_cons in Hb as [->|Hb]; auto.
Qed.

Lemma lt_row_nodup t F ch L b :
  lt_repr t F ch L -> 0 <= b < hash_table_size t -> NoDup (ch b).
Proof.
  intros R Hb. pose proof (lt_disj _ _ _ _ R) as D.
  apply NoDup_app in D as (_ & _ & D). eapply nodup_concat_row; [exact D|].
  apply rows_mem. exact Hb.
Qed.

Lemma lt_free_nodup t F ch L : lt_repr t F ch L -> NoDup F.
Proof. intros R. pose proof (lt_disj _ _ _ _ R) as D. apply NoDup_app in D. tauto. Qed.

Lemma lt_free_not_row t F ch L b i :
  lt_repr t F ch L -> 0 <= b < hash_table_size t -> i ∈ F -> i ∉ ch b.
Proof.
  intros R Hb Hi Hc. pose proof (lt_disj _ _ _ _ R) as D.
  apply NoDup_app in D as (_ & D & _). apply (D i Hi). apply in_chains.
  exists b. split; [apply rows_mem; exact Hb|exact Hc].
Qed.

Lemma lt_find_index t F ch L k h :
  lt_repr t F ch L -> 0 <= h < hash_table_size t ->
  lrutrack_find_index t k (key_len k) h = Some (find_in (items t) k (ch h)).
Proof.
  intros R Hh. destruct (lt_rows _ _ _ _ R h Hh) as (Hht & Hl & Hk).
  unfold lrutrack_find_index. rewrite Hht. cbn [mbind option_bind].
  apply find_loop_spec; auto.
  - eapply lt_row_nodup; eauto.
  - rewrite <- (lt_num _ _ _ _ R). apply (lt_num_max _ _ _ _ R).
  - pose proof (chain_length _ _ Hl (lt_row_nodup _ _ _ _ _ R Hh)). lia.
Qed.

Lemma malloc_fail w w' : malloc w = (AllocFail, w') -> AllocFail ∈ w_alloc w.
Proof.
  unfold malloc. destruct (w_alloc w) as [|r rs]; intros H; [discriminate|].
  injection H as -> _. apply list_elem_of_here.
Qed.

Lemma malloc_rest w r w' : malloc w = (r, w') -> AllocFail ∉ w_alloc w -> AllocFail ∉ w_alloc w'.
Proof.
  unfold malloc. destruct (w_alloc w) as [|r' rs] eqn:E; intros H Hn.
  - injection H as _ <-. rewrite E. exact Hn.
  - injection H as _ <-. cbn [w_alloc]. intros Hr. apply Hn. apply list_elem_of_further. exact Hr.
Qed.

Lemma rd_app_l {A} (l1 l2 : list A) i :
  i < Z.of_nat (length l1) -> rd (l1 ++ l2) i = rd l1 i.
Proof.
  intros Hi. unfold rd. rewrite length_app.
  destruct (0 <=? i) eqn:E1; cbn [andb]; [|reflexivity].
  apply Z.leb_le in E1.
  replace (i <? Z.of_nat (length l1 + length l2)) with true by (symmetry; apply Z.ltb_lt; lia).
  replace (i <? Z.of_nat (length l1)) with true by (symmetry; apply Z.ltb_lt; lia).
  apply lookup_app_l. lia.
Qed.

Lemma rd_app_r {A} (l1 l2 : list A) i :
  Z.of_nat (length l1) <= i -> rd (l1 ++ l2) i = rd l2 (i - Z.of_nat (length l1)).
Proof.
  intros Hi. unfold rd. rewrite length_app.
  replace (0 <=? i) with true by (symmetry; apply Z.leb_le; lia).
  replace (0 <=? i - Z.of_nat (length l1)) with true by (symmetry; apply Z.leb_le; lia).
  cbn [andb].
  destruct (i <? Z.of_nat (length l1 + length l2)) eqn:E1,
           (i - Z.of_nat (length l1) <? Z.of_nat (length l2)) eqn:E2;
    try (apply Z.ltb_lt in E1 || apply Z.ltb_ge in E1);
    try (apply Z.ltb_lt in E2 || apply Z.ltb_ge in E2); try lia; try reflexivity.
  rewrite lookup_app_r by lia. f_equal. lia.
Qed.

Lemma repeat_replicate {A} (x : A) m : repeat x m = replicate m x.
Proof. induction m as [|m IH]; [reflexivity|]. cbn. rewrite IH. reflexivity. Qed.

Lemma rd_repeat {A} (x : A) m i : 0 <= i < Z.of_nat m -> rd (repeat x m) i = Some x.
Proof.
  intros Hi. rewrite rd_nonneg by lia. rewrite repeat_replicate.
  apply lookup_replicate_2. lia.
Qed.

Lemma chains_empty t F ch L b :
  lt_repr t F ch L -> num_items t = 0 -> 0 <= b < hash_table_size t -> ch b = [].
Proof.
  intros R H0 Hb. destruct (lt_rows _ _ _ _ R b Hb) as (_ & Hl & _).
  destruct (ch b) as [|i l] eqn:E; [reflexivity|].
  pose proof (linked_range _ _ i Hl (list_elem_of_here _ _)).
  rewrite <- (lt_num _ _ _ _ R) in H. lia.
Qed.

Lemma lt_repr_regrow t t' F' ch L :
  lt_repr t [] ch L -> keeps t t' ch ->
  num_items t' = Z.of_nat (length (items t')) -> num_items t' <= NONE ->
  first_free t' = hd NONE F' -> linked (items t') F' -> NoDup F' ->
  (forall i b, i ∈ F' -> 0 <= b < hash_table_size t -> i ∉ ch b) ->
  lt_repr t' F' ch L.
Proof.
  intros R (E1 & E2 & E3 & E4 & E5 & E6 & E7 & Ei) Hn Hm Hf Hl Hnd Hd.
  constructor.
  - eapply lru_repr_data; [exact (lt_lru _ _ _ _ R)|..]; assumption.
  - rewrite E1, E3. exact (lt_ht_len _ _ _ _ R).
  - exact Hn.
  - exact Hm.
  - exact Hf.
  - exact Hl.
  - intros b Hb. rewrite E3 in Hb. destruct (lt_rows _ _ _ _ R b Hb) as (H1 & H2 & H3).
    rewrite E1. split; [exact H1|]. split.
    + eapply linked_ext; [exact H2|]. intros i Hi. eapply Ei; eauto.
    + eapply keyed_ext; [exact H3|]. intros i Hi. eapply Ei; eauto.
  - rewrite E3. pose proof (lt_disj _ _ _ _ R) as D. cbn [app] in D.
    apply NoDup_app. split; [exact Hnd|]. split; [|exact D].
    intros i Hi Hc. apply in_chains in Hc as (b & Hb & Hc). apply rows_mem in Hb.
    exact (Hd i b Hi Hb Hc).
  - rewrite E3. exact (lt_lru_mem _ _ _ _ R).
Qed.

(** Decide the comparisons of a goal that [lia] settles. *)
Ltac zbool :=
  repeat match goal with
  | |- context [?a <? ?b] =>
      first [replace (a <? b) with true by (symmetry; apply Z.ltb_lt; unfold NONE in *; lia)
            |replace (a <? b) with false by (symmetry; apply Z.ltb_ge; unfold NONE in *; lia)]
  | |- context [?a <=? ?b] =>
      first [replace (a <=? b) with true by (symmetry; apply Z.leb_le; unfold NONE in *; lia)
            |replace (a <=? b) with false by (symmetry; apply Z.leb_gt; unfold NONE in *; lia)]
  | |- context [?a =? ?b] =>
      first [replace (a =? b) with true by (symmetry; apply Z.eqb_eq; unfold NONE in *; lia)
            |replace (a =? b) with false by (symmetry; apply Z.eqb_neq; unfold NONE in *; lia)]
  end; cbn [andb orb negb].

Ltac for_spec a' Ha Hlen Hrd :=
  match goal with
  | |- context [for_items ?f ?bd ?i ?hi ?a] =>
      destruct (for_items_spec f bd i hi a) as (a' & Ha & Hlen & Hrd)
  end.

Lemma grow_zero_repr t w ch L :
  lt_repr t [] ch L -> num_items t = 0 ->
  exists ok t' w', lrutrack_insert_grow t w = Some (ok, t', w') /\ w' = snd (malloc w) /\
    (AllocFail ∉ w_alloc w -> ok = true) /\
    (ok = true -> exists F', F' <> [] /\ lt_repr t' F' ch L /\ keeps t t' ch).
Proof.
  intros R H0. pose proof (lru_hts _ _ (lt_lru _ _ _ _ R)) as Hs.
  unfold lrutrack_insert_grow. rewrite H0, Z.eqb_refl.
  destruct (malloc w) as [r w1] eqn:Em. destruct r as [|j].
  - exists false, (set_items t []), w1. split; [reflexivity|]. split; [reflexivity|].
    split; [|discriminate]. intros Hn. apply malloc_fail in Em. contradiction.
  - unfold for_range. cbn [items set_num_items set_items].
    rewrite u32_small by lia.
    for_spec a' Ha Hlen Hrd; [lia|rewrite repeat_length; lia|lia|rewrite repeat_length; lia|].
    rewrite Ha. cbn [mbind option_bind].
    rewrite (Hrd (hash_table_size t - 1)) by lia. zbool.
    rewrite rd_repeat by lia. cbn [mbind option_bind].
    rewrite wr_ok by (rewrite Hlen, repeat_length; lia).
    eexists true, _, w1. split; [reflexivity|]. split; [reflexivity|].
    split; [reflexivity|]. intros _.
    assert (K : keeps t (set_first_free (set_items (set_num_items (set_items t
      (repeat (junk_item j) (Z.to_nat (hash_table_size t)))) (hash_table_size t))
      (<[Z.to_nat (hash_table_size t - 1) := with_next (junk_item j) NONE]> a')) 0) ch).
    { unfold keeps. cbn. repeat split. intros b i Hb Hi.
      rewrite (chains_empty _ _ _ _ _ R H0 Hb) in Hi. apply elem_of_nil in Hi. contradiction. }
    exists (zrange 0 (hash_table_size t)). split; [rewrite zrange_cons by lia; discriminate|].
    split; [|exact K].
    apply (lt_repr_regrow t); [exact R|exact K|..]; cbn [num_items items first_free
      set_first_free set_items set_num_items].
    + rewrite length_insert, Hlen, repeat_length. lia.
    + unfold NONE. lia.
    + rewrite hd_zrange by lia. reflexivity.
    + intros i Hi. apply zrange_mem in Hi; [|lia].
      rewrite rd_insert by (rewrite Hlen, repeat_length; lia).
      rewrite next_in_zrange by lia.
      destruct (i =? hash_table_size t - 1) eqn:E; zeq.
      * subst i. eexists; split; [reflexivity|]. cbn. zbool. reflexivity.
      * rewrite Hrd by lia. zbool. rewrite rd_repeat by lia.
        eexists; split; [reflexivity|]. cbn. rewrite u32_small by lia. zbool. reflexivity.
    + apply zrange_nodup.
    + intros i b _ Hb Hi. rewrite (chains_empty _ _ _ _ _ R H0 Hb) in Hi.
      apply elem_of_nil in Hi. exact Hi.
Qed.

Lemma grow_double_repr t w ch L :
  lt_repr t [] ch L -> num_items t <> 0 -> SIZEOF_ITEM * (2 * num_items t) < 2 ^ 32 ->
  exists ok t' w', lrutrack_insert_grow t w = Some (ok, t', w') /\ w' = snd (malloc w) /\
    (AllocFail ∉ w_alloc w -> ok = true) /\
    (ok = true -> exists F', F' <> [] /\ lt_repr t' F' ch L /\ keeps t t' ch).
Proof.
  intros R H0 Hsz. pose proof (lt_num _ _ _ _ R) as Hn.
  assert (Hn0 : 0 < num_items t) by lia.
  assert (H31 : num_items t < 2 ^ 31) by (unfold SIZEOF_ITEM in Hsz; lia).
  unfold lrutrack_insert_grow.
  replace (num_items t =? 0) with false by (symmetry; apply Z.eqb_neq; exact H0).
  destruct (malloc w) as [r w1] eqn:Em. destruct r as [|j].
  - exists false, (set_items (set_num_items t (u32 (num_items t * 2))) []), w1.
    split; [reflexivity|]. split; [reflexivity|].
    split; [|discriminate]. intros Hf. apply malloc_fail in Em. contradiction.
  - cbn [items set_num_items set_items num_items invalid_value].
    rewrite u32_small by lia. zbool.
    unfold arena_bytes_wrap.
    replace (2 ^ 32 <=? SIZEOF_ITEM * (num_items t * 2)) with false
      by (symmetry; apply Z.leb_gt; lia).
    rewrite (take_ge (items t)) by lia.
    rewrite take_app_length' by lia.
    unfold for_range. rewrite u32_small by lia.
    for_spec a' Ha Hlen Hrd; [lia|rewrite length_app, repeat_length; lia|lia|
                              rewrite length_app, repeat_length; lia|].
    rewrite Ha. cbn [mbind option_bind].
    rewrite (Hrd (num_items t * 2 - 1)) by lia. zbool.
    rewrite rd_app_r by lia. rewrite rd_repeat by lia. cbn [mbind option_bind].
    rewrite wr_ok by (rewrite Hlen, length_app, repeat_length; lia).
    eexists true, _, w1. split; [reflexivity|]. split; [reflexivity|].
    split; [reflexivity|]. intros _.
    assert (Hold : forall i, 0 <= i < num_items t ->
      rd (<[Z.to_nat (num_items t * 2 - 1) := with_value_next zero_item (invalid_value t) NONE]> a') i
      = rd (items t) i).
    { intros i Hi. rewrite rd_insert by (rewrite Hlen, length_app, repeat_length; lia).
      zbool. rewrite Hrd by lia. zbool. apply rd_app_l. lia. }
    assert (K : keeps t (set_first_free (set_items (set_num_items t (num_items t * 2))
      (<[Z.to_nat (num_items t * 2 - 1) := with_value_next zero_item (invalid_value t) NONE]> a'))
      (num_items t)) ch).
    { unfold keeps. cbn [hash_table hash_table_lru_links hash_table_size lru_head lru_tail seed
        invalid_value items set_first_free set_items set_num_items].
      repeat split. intros b i Hb Hi. apply Hold.
      destruct (lt_rows _ _ _ _ R b Hb) as (_ & Hl & _).
      pose proof (linked_range _ _ _ Hl Hi). lia. }
    exists (zrange (num_items t) (num_items t * 2)).
    split; [rewrite zrange_cons by lia; discriminate|].
    split; [|exact K].
    apply (lt_repr_regrow t); [exact R|exact K|..]; cbn [num_items items first_free
      set_first_free set_items set_num_items].
    + rewrite length_insert, Hlen, length_app, repeat_length. lia.
    + unfold NONE. lia.
    + rewrite hd_zrange by lia. reflexivity.
    + intros i Hi. apply zrange_mem in Hi; [|lia].
      rewrite rd_insert by (rewrite Hlen, length_app, repeat_length; lia).
      rewrite next_in_zrange by lia.
      destruct (i =? num_items t * 2 - 1) eqn:E; zeq.
      * subst i. eexists; split; [reflexivity|]. cbn. zbool. reflexivity.
      * rewrite Hrd by lia. zbool. rewrite rd_app_r by lia. rewrite rd_repeat by lia.
        eexists; split; [reflexivity|]. cbn. rewrite u32_small by lia. zbool. reflexivity.
    + apply zrange_nodup.
    + intros i b Hi Hb Hc. apply zrange_mem in Hi; [|lia].
      destruct (lt_rows _ _ _ _ R b Hb) as (_ & Hl & _).
      pose proof (linked_range _ _ _ Hl Hc). lia.
Qed.

Lemma bucket_range t F ch L k :
  lt_repr t F ch L -> 0 <= bucket t k < hash_table_size t.
Proof.
  intros R. pose proof (lru_hts _ _ (lt_lru _ _ _ _ R)). unfold bucket.
  apply hash_range. lia.
Qed.

Lemma lru_update_repr t L ch h :
  lru_repr t L -> 0 <= h < hash_table_size t ->
  (h ∈ L <-> ch h <> []) ->
  (forall x, x ∈ ch h -> x <> NONE) ->
  exists t', (if hd NONE (ch h) =? NONE then lrutrack_insert_to_lru_head t h
              else lrutrack_move_to_lru_head t h) = Some t' /\
             lru_repr t' (h :: rm h L) /\ same_data t t'.
Proof.
  intros R Hh Hm Hx. destruct (ch h) as [|x l] eqn:E; cbn [hd].
  - rewrite Z.eqb_refl. assert (Hn : h ∉ L) by (intros Hi; apply Hm in Hi; congruence).
    rewrite rm_notin by exact Hn. apply insert_to_lru_head_repr; assumption.
  - replace (x =? NONE) with false
      by (symmetry; apply Z.eqb_neq; apply Hx; apply list_elem_of_here).
    apply move_to_lru_head_repr; [exact R|]. apply Hm. discriminate.
Qed.

Lemma chain_not_none t F ch L b x :
  lt_repr t F ch L -> 0 <= b < hash_table_size t -> x ∈ ch b -> x <> NONE.
Proof.
  intros R Hb Hx. destruct (lt_rows _ _ _ _ R b Hb) as (_ & Hl & _).
  pose proof (linked_range _ _ _ Hl Hx). pose proof (lt_num_max _ _ _ _ R).
  pose proof (lt_num _ _ _ _ R). unfold NONE in *. lia.
Qed.

Lemma free_not_none t F ch L x :
  lt_repr t F ch L -> x ∈ F -> x <> NONE.
Proof.
  intros R Hx. pose proof (linked_range _ _ _ (lt_free _ _ _ _ R) Hx).
  pose proof (lt_num_max _ _ _ _ R). pose proof (lt_num _ _ _ _ R). unfold NONE in *. lia.
Qed.

Lemma ins_post_intro t t' F' ch L k v j :
  lt_repr t (j :: F') ch L ->
  lru_repr t' (bucket t k :: rm (bucket t k) L) ->
  hash_table_size t' = hash_table_size t -> num_items t' = num_items t ->
  seed t' = seed t -> invalid_value t' = invalid_value t ->
  first_free t' = hd NONE F' ->
  hash_table t' = <[Z.to_nat (bucket t k) := j]> (hash_table t) ->
  (forall i, rd (items t') i = if i =? j
     then Some (mk_item (Some k) (key_len k) v (hd NONE (ch (bucket t k))))
     else rd (items t) i) ->
  length (items t') = length (items t) ->
  ins_post t t' ch L k v.
Proof.
  intros R RL' Es En Esd Ei Ef Eht Erd Elen.
  pose proof (bucket_range _ _ _ _ k R) as Hh.
  unfold ins_post. cbv zeta. set (h := bucket t k) in *.
  pose proof (lt_free_nodup _ _ _ _ R) as HndF.
  pose proof (lt_ht_len _ _ _ _ R) as Hhl.
  assert (HnjC : forall b, 0 <= b < hash_table_size t -> j ∉ ch b)
    by (intros b Hb; eapply lt_free_not_row; [exact R|exact Hb|apply list_elem_of_here]).
  assert (Hne : forall b i, 0 <= b < hash_table_size t -> i ∈ ch b -> i <> j)
    by (intros b i Hb Hi ->; exact (HnjC b Hb Hi)).
  assert (Hsame : forall b i, 0 <= b < hash_table_size t -> i ∈ ch b ->
                    rd (items t') i = rd (items t) i).
  { intros b i Hb Hi. rewrite Erd. pose proof (Hne b i Hb Hi).
    replace (i =? j) with false by (symmetry; apply Z.eqb_neq; assumption). reflexivity. }
  destruct (lt_rows _ _ _ _ R h Hh) as (Hht & Hlh & Hkh).
  exists j, F'. split; [|split; [|split; [|split; [|split]]]].
  - constructor.
    + exact RL'.
    + rewrite Eht, length_insert, Es. exact Hhl.
    + rewrite En, Elen. exact (lt_num _ _ _ _ R).
    + rewrite En. exact (lt_num_max _ _ _ _ R).
    + exact Ef.
    + eapply linked_ext; [eapply linked_tail; [exact (lt_free _ _ _ _ R)|exact HndF]|].
      intros i Hi. rewrite Erd. apply NoDup_cons in HndF as [HjF _].
      replace (i =? j) with false by (symmetry; apply Z.eqb_neq; intros ->; contradiction).
      reflexivity.
    + intros b Hb. rewrite Es in Hb. unfold upd. destruct (b =? h) eqn:Eb; zeq.
      * subst b. split; [|split].
        -- rewrite Eht, rd_insert by lia. rewrite Z.eqb_refl. reflexivity.
        -- apply (linked_cons _ _ _ (mk_item (Some k) (key_len k) v (hd NONE (ch h)))).
           ++ eapply linked_ext; [exact Hlh|]. intros i Hi. eapply Hsame; eauto.
           ++ exact (HnjC h Hh).
           ++ rewrite Erd, Z.eqb_refl. reflexivity.
           ++ reflexivity.
        -- intros i Hi. apply elem_of_cons in Hi as [->|Hi].
           ++ exists (mk_item (Some k) (key_len k) v (hd NONE (ch h))), k.
              rewrite Erd, Z.eqb_refl. auto.
           ++ destruct (Hkh i Hi) as (it & kb & H1 & H2 & H3). exists it, kb.
              rewrite (Hsame h i Hh Hi). auto.
      * destruct (lt_rows _ _ _ _ R b Hb) as (Hb1 & Hb2 & Hb3). split; [|split].
        -- rewrite Eht, rd_insert by lia.
           replace (b =? h) with false by (symmetry; apply Z.eqb_neq; exact Eb). exact Hb1.
        -- eapply linked_ext; [exact Hb2|]. intros i Hi. eapply Hsame; eauto.
        -- eapply keyed_ext; [exact Hb3|]. intros i Hi. eapply Hsame; eauto.
    + rewrite Es.
      assert (P : concat (map (upd ch h (j :: ch h)) (rows (hash_table_size t)))
                  ≡ₚ j :: concat (map ch (rows (hash_table_size t)))).
      { apply (Permutation_app_inv_l (ch h)).
        rewrite concat_upd_perm by (apply rows_nodup || (apply rows_mem; exact Hh)).
        cbn [app]. apply Permutation_middle. }
      rewrite P, <- Permutation_middle. exact (lt_disj _ _ _ _ R).
    + intros b Hb. rewrite Es in Hb. unfold upd. destruct (b =? h) eqn:Eb; zeq.
      * subst b. split; [discriminate|intros _; apply list_elem_of_here].
      * rewrite elem_of_cons. split.
        -- intros [->|Hi]; [contradiction|]. apply rm_sub in Hi as [Hi _].
           apply (lt_lru_mem _ _ _ _ R b Hb). exact Hi.
        -- intros Hc. right. apply rm_mem; [|exact Eb].
           apply (lt_lru_mem _ _ _ _ R b Hb). exact Hc.
  - rewrite Erd, Z.eqb_refl. reflexivity.
  - intros b i Hb Hi. split; [eapply Hsame; eauto|eapply Hne; eauto].
  - exact Es.
  - exact Esd.
  - exact Ei.
Qed.

Lemma insert_nogrow t w k v j F' ch L :
  lt_repr t (j :: F') ch L ->
  exists r t' w', lrutrack_insert t w k v = Some (r, t', w') /\ w' = snd (malloc w) /\
    (fst (malloc w) = AllocFail -> r = LRUTRACK_OOM) /\
    (fst (malloc w) <> AllocFail -> r = LRUTRACK_OK /\ ins_post t t' ch L k v).
Proof.
  intros R.
  pose proof (bucket_range _ _ _ _ k R) as Hh.
  pose proof (lt_lru _ _ _ _ R) as RL. pose proof (lru_hts _ _ RL) as Hs.
  pose proof (lt_ht_len _ _ _ _ R) as Hhl.
  destruct (lt_free _ _ _ _ R j (list_elem_of_here _ _)) as (it0 & Hit0 & Hnext0).
  pose proof (rd_Some_range _ _ _ Hit0) as Hj.
  pose proof (free_not_none _ _ _ _ _ R (list_elem_of_here _ _)) as HjN.
  destruct (lt_rows _ _ _ _ R (bucket t k) Hh) as (Hht & Hlh & Hkh).
  unfold lrutrack_insert. cbv zeta.
  change (lrutrack_hash k (key_len k) (seed t) (hash_table_size t)) with (bucket t k).
  rewrite (lt_free_head _ _ _ _ R). cbn [hd].
  replace (j =? NONE) with false by (symmetry; apply Z.eqb_neq; exact HjN).
  cbn [mbind option_bind negb].
  rewrite (lt_free_head _ _ _ _ R). cbn [hd].
  rewrite Hit0. cbn [mbind option_bind].
  destruct (malloc w) as [r w1] eqn:Em. destruct r as [|j0]; cbn [fst snd].
  - rewrite set_item_eq by lia. cbn [mbind option_bind].
    eexists _, _, _. split; [reflexivity|]. split; [reflexivity|].
    split; [reflexivity|]. congruence.
  - rewrite set_item_eq by lia. cbn [mbind option_bind hash_table set_items].
    rewrite Hht. cbn [mbind option_bind].
    destruct (lru_update_repr (set_items t (<[Z.to_nat j := mk_item (Some k) (key_len k) v
      (next it0)]> (items t))) L ch (bucket t k)) as (t3 & E3 & R3 & SD).
    + eapply lru_repr_data; [exact RL|reflexivity..].
    + exact Hh.
    + exact (lt_lru_mem _ _ _ _ R _ Hh).
    + intros x Hx. eapply chain_not_none; eauto.
    + rewrite E3. cbn [mbind option_bind].
      destruct SD as (S1 & S2 & S3 & S4 & S5 & S6 & S7).
      cbn [hash_table items num_items hash_table_size first_free seed invalid_value set_items]
        in S1, S2, S3, S4, S5, S6, S7.
      rewrite S2, rd_insert by lia. rewrite Z.eqb_refl. cbn [mbind option_bind].
      cbn [hash_table set_first_free]. rewrite S1, Hht. cbn [mbind option_bind].
      rewrite set_item_eq by (cbn [items set_first_free]; rewrite S2, length_insert; lia).
      cbn [mbind option_bind].
      rewrite set_ht_eq by (cbn [hash_table set_items set_first_free]; rewrite S1; lia).
      cbn [mbind option_bind].
      eexists _, _, _. split; [reflexivity|]. split; [reflexivity|].
      split; [discriminate|]. intros _. split; [reflexivity|].
      apply (ins_post_intro _ _ F' _ _ _ _ j); [exact R|..];
        cbn [hash_table items num_items hash_table_size first_free seed invalid_value
             set_items set_first_free set_hash_table next].
      * eapply lru_repr_data; [exact R3|reflexivity..].
      * exact S4.
      * exact S3.
      * exact S6.
      * exact S7.
      * rewrite Hnext0. cbn [next_in]. rewrite Z.eqb_refl. reflexivity.
      * rewrite S1. reflexivity.
      * intros i. rewrite S2. rewrite rd_insert by (rewrite length_insert; lia).
        rewrite rd_insert by lia. destruct (i =? j); reflexivity.
      * rewrite S2, !length_insert. reflexivity.
Qed.

Lemma insert_after_grow t w k v t1 w1 ok :
  first_free t = NONE -> lrutrack_insert_grow t w = Some (ok, t1, w1) ->
  (ok = true -> seed t1 = seed t /\ hash_table_size t1 = hash_table_size t /\
                (first_free t1 <> NONE)) ->
  lrutrack_insert t w k v =
    if ok then lrutrack_insert t1 w1 k v else Some (LRUTRACK_OOM, t1, w1).
Proof.
  intros Hf Hg Hok. unfold lrutrack_insert at 1. cbv zeta.
  rewrite Hf, Z.eqb_refl, Hg. cbn [mbind option_bind].
  destruct ok; cbn [negb]; [|reflexivity].
  destruct (Hok eq_refl) as (Hs & Hh & Hn).
  unfold lrutrack_insert. cbv zeta. rewrite Hs, Hh.
  replace (first_free t1 =? NONE) with false
    by (symmetry; apply Z.eqb_neq; exact Hn).
  reflexivity.
Qed.

Lemma u32_wrap z : 2 ^ 32 <= z < 2 ^ 33 -> u32 z = z - 2 ^ 32.
Proof.
  intros H. unfold u32. replace z with ((z - 2 ^ 32) + 1 * 2 ^ 32) at 1 by ring.
  rewrite Z_mod_plus_full. apply Z.mod_small. lia.
Qed.

Lemma grow_overflow t w ch L :
  lt_repr t [] ch L -> 2 ^ 32 <= SIZEOF_ITEM * (2 * num_items t) ->
  lrutrack_insert_grow t w = None \/
  exists t1 w1, lrutrack_insert_grow t w = Some (false, t1, w1).
Proof.
  intros R Hb. pose proof (lt_num_max _ _ _ _ R) as Hm.
  unfold SIZEOF_ITEM in Hb. unfold lrutrack_insert_grow.
  replace (num_items t =? 0) with false by (symmetry; apply Z.eqb_neq; lia).
  destruct (malloc w) as [r w1]. destruct r as [|j].
  - right. eexists _, _. reflexivity.
  - left. cbn [num_items set_num_items]. unfold arena_bytes_wrap, SIZEOF_ITEM.
    destruct (Z.lt_ge_cases (num_items t) (2 ^ 31)) as [H31|H31].
    + rewrite u32_small by lia.
      replace (2 ^ 32 <=? 24 * (num_items t * 2)) with true
        by (symmetry; apply Z.leb_le; lia).
      reflexivity.
    + rewrite u32_wrap by (unfold NONE in Hm; lia).
      destruct (2 ^ 32 <=? 24 * (num_items t * 2 - 2 ^ 32)); [reflexivity|].
      replace (num_items t <=? num_items t * 2 - 2 ^ 32) with false
        by (symmetry; apply Z.leb_gt; unfold NONE in Hm; lia).
      reflexivity.
Qed.

Lemma ins_post_keeps t t1 t' ch L k v :
  keeps t t1 ch -> ins_post t1 t' ch L k v -> ins_post t t' ch L k v.
Proof.
  intros (E1 & E2 & E3 & E4 & E5 & E6 & E7 & Ei).
  unfold ins_post, bucket. cbv zeta. rewrite E3, E6.
  intros (j & F' & H1 & H2 & H3 & H4 & H5 & H6).
  exists j, F'. split; [exact H1|]. split; [exact H2|]. split.
  - intros b i Hb Hi. destruct (H3 b i) as [H3a H3b]; [lia|exact Hi|].
    split; [rewrite H3a; eapply Ei; eauto|exact H3b].
  - rewrite H4, H5, H6. auto.
Qed.

Lemma malloc_ok w : AllocFail ∉ w_alloc w -> fst (malloc w) <> AllocFail.
Proof.
  unfold malloc. destruct (w_alloc w) as [|r rs]; cbn [fst]; intros Hn; [discriminate|].
  intros ->. apply Hn. apply list_elem_of_here.
Qed.

Lemma grow_repr t w ch L :
  lt_repr t [] ch L -> SIZEOF_ITEM * (2 * num_items t) < 2 ^ 32 ->
  exists ok t' w', lrutrack_insert_grow t w = Some (ok, t', w') /\ w' = snd (malloc w) /\
    (AllocFail ∉ w_alloc w -> ok = true) /\
    (ok = true -> exists F', F' <> [] /\ lt_repr t' F' ch L /\ keeps t t' ch).
Proof.
  intros R H31. destruct (Z.eq_dec (num_items t) 0) as [H0|H0].
  - apply grow_zero_repr; assumption.
  - apply grow_double_repr; assumption.
Qed.

Lemma insert_spec t w k v F ch L :
  lt_repr t F ch L -> (F <> [] \/ SIZEOF_ITEM * (2 * num_items t) < 2 ^ 32) ->
  exists r t' w', lrutrack_insert t w k v = Some (r, t', w') /\
    (AllocFail ∉ w_alloc w -> r = LRUTRACK_OK) /\
    (r = LRUTRACK_OK -> ins_post t t' ch L k v).
Proof.
  intros R Hc. destruct F as [|j F'].
  - destruct Hc as [Hc|Hc]; [congruence|].
    pose proof (lt_free_head _ _ _ _ R) as Hf. cbn [hd] in Hf.
    destruct (grow_repr t w ch L R Hc) as (ok & t1 & w1 & Hg & Hw1 & Hok & Hpost).
    destruct ok.
    + destruct (Hpost eq_refl) as (F1 & Hne & R1 & K). destruct F1 as [|j1 F1']; [congruence|].
      pose proof K as (_ & _ & K3 & _ & _ & K6 & _).
      rewrite (insert_after_grow t w k v t1 w1 true Hf Hg).
      2:{ intros _. split; [exact K6|]. split; [exact K3|].
          rewrite (lt_free_head _ _ _ _ R1). eapply free_not_none; [exact R1|apply list_elem_of_here]. }
      destruct (insert_nogrow t1 w1 k v j1 F1' ch L R1) as (r & t' & w' & E & _ & Hfail & Hok').
      exists r, t', w'. split; [exact E|]. split.
      * intros Hn. apply Hok'. subst w1. apply malloc_ok.
        destruct (malloc w) as [r0 w0] eqn:Em. eapply malloc_rest; [exact Em|exact Hn].
      * intros ->. apply (ins_post_keeps t t1); [exact K|]. apply Hok'.
        intros Hfa. apply Hfail in Hfa. discriminate.
    + rewrite (insert_after_grow t w k v t1 w1 false Hf Hg) by discriminate.
      exists LRUTRACK_OOM, t1, w1. split; [reflexivity|]. split; [|discriminate].
      intros Hn. specialize (Hok Hn). discriminate.
  - destruct (insert_nogrow t w k v j F' ch L R) as (r & t' & w' & E & _ & Hfail & Hok').
    exists r, t', w'. split; [exact E|]. split.
    + intros Hn. apply Hok'. apply malloc_ok. exact Hn.
    + intros ->. apply Hok'. intros Hfa. apply Hfail in Hfa. discriminate.
Qed.

Lemma insert_ok_post t w k v F ch L t' w' :
  lt_repr t F ch L -> lrutrack_insert t w k v = Some (LRUTRACK_OK, t', w') ->
  ins_post t t' ch L k v.
Proof.
  intros R E.
  destruct (decide (F <> [] \/ SIZEOF_ITEM * (2 * num_items t) < 2 ^ 32)) as [Hc|Hc].
  - destruct (insert_spec t w k v F ch L R Hc) as (r & t1 & w1 & E1 & _ & Hp).
    rewrite E in E1. injection E1 as <- <- <-. apply Hp. reflexivity.
  - assert (F = []) as -> by (destruct F; [reflexivity|exfalso; apply Hc; left; discriminate]).
    assert (H31 : 2 ^ 32 <= SIZEOF_ITEM * (2 * num_items t))
      by (apply Z.nlt_ge; intros H; apply Hc; right; exact H).
    pose proof (lt_free_head _ _ _ _ R) as Hf. cbn [hd] in Hf.
    destruct (grow_overflow t w ch L R H31) as [Hg|(t1 & w1 & Hg)].
    + unfold lrutrack_insert in E. cbv zeta in E. rewrite Hf, Z.eqb_refl, Hg in E.
      discriminate.
    + rewrite (insert_after_grow t w k v t1 w1 false Hf Hg) in E by discriminate.
      discriminate.
Qed.

Lemma prev_in_in p l i : i ∈ l -> prev_in p l i = p \/ prev_in p l i ∈ l.
Proof.
  revert p. induction l as [|x l IH]; intros p Hi; [set_solver|].
  cbn [prev_in]. destruct (x =? i) eqn:E; zeq; [auto|].
  apply elem_of_cons in Hi as [Hi|Hi]; [congruence|].
  destruct (IH x Hi) as [->|H]; right; [apply list_elem_of_here|apply list_elem_of_further; exact H].
Qed.

Lemma prev_walk_spec its l i p fuel :
  linked its l -> NoDup l -> (forall x, x ∈ l -> x <> NONE) -> i ∈ l ->
  (length l < fuel)%nat ->
  prev_walk next its i fuel p (hd NONE l) = Some (prev_in p l i).
Proof.
  revert p fuel. induction l as [|x l IH]; intros p fuel Hl Hnd HN Hi Hf; [set_solver|].
  destruct fuel as [|f]; [cbn in Hf; lia|].
  cbn [prev_walk hd prev_in].
  replace (x =? NONE) with false
    by (symmetry; apply Z.eqb_neq; apply HN; apply list_elem_of_here).
  destruct (x =? i) eqn:E; zeq.
  - reflexivity.
  - destruct (Hl x (list_elem_of_here _ _)) as (it & Hr & Hn). rewrite Hr.
    cbn [mbind option_bind]. rewrite Hn. cbn [next_in]. rewrite Z.eqb_refl.
    apply elem_of_cons in Hi as [Hi|Hi]; [congruence|].
    apply IH.
    + eapply linked_tail; eauto.
    + apply NoDup_cons in Hnd. tauto.
    + intros y Hy. apply HN. apply list_elem_of_further. exact Hy.
    + exact Hi.
    + cbn in Hf. lia.
Qed.

Lemma find_in_mem its k l : find_in its k l = NONE \/ find_in its k l ∈ l.
Proof.
  induction l as [|x l IH]; cbn [find_in]; [auto|].
  destruct (rd its x); [|auto]. destruct (key_match k l0); [right; apply list_elem_of_here|].
  destruct IH as [->|H]; [auto|right; apply list_elem_of_further; exact H].
Qed.

Lemma key_match_strip k a b : strip a = strip b -> key_match k a = key_match k b.
Proof. unfold strip, key_match. intros E. injection E as E1 E2 _. rewrite E1, E2. reflexivity. Qed.

Lemma find_in_strip its its' k l :
  (forall x, x ∈ l -> strip <$> rd its' x = strip <$> rd its x) ->
  find_in its' k l = find_in its k l.
Proof.
  induction l as [|x l IH]; intros Hs; [reflexivity|]. cbn [find_in].
  pose proof (Hs x (list_elem_of_here _ _)) as Hx.
  rewrite IH by (intros y Hy; apply Hs; apply list_elem_of_further; exact Hy).
  destruct (rd its' x) as [a|], (rd its x) as [b|]; cbn in Hx; try discriminate; [|reflexivity].
  assert (Hab : strip a = strip b) by (injection Hx; intros; unfold strip; congruence).
  rewrite (key_match_strip k a b Hab). reflexivity.
Qed.

Lemma find_in_found its k l i :
  find_in its k l = i -> i <> NONE -> exists it, rd its i = Some it /\ key_match k it = true.
Proof.
  induction l as [|x l IH]; cbn [find_in]; intros E Hn; [congruence|].
  destruct (rd its x) as [it|] eqn:Er; [|congruence].
  destruct (key_match k it) eqn:Ek; [subst x; eauto|auto].
Qed.

Lemma lt_repr_lru t t' F ch L L' :
  lt_repr t F ch L -> lru_repr t' L' -> same_data t t' ->
  (forall b, 0 <= b < hash_table_size t -> b ∈ L' <-> ch b <> []) ->
  lt_repr t' F ch L'.
Proof.
  intros R R' (E1 & E2 & E3 & E4 & E5 & E6 & E7) Hm.
  constructor; rewrite ?E1, ?E2, ?E3, ?E4, ?E5.
  - exact R'.
  - exact (lt_ht_len _ _ _ _ R).
  - exact (lt_num _ _ _ _ R).
  - exact (lt_num_max _ _ _ _ R).
  - exact (lt_free_head _ _ _ _ R).
  - exact (lt_free _ _ _ _ R).
  - exact (lt_rows _ _ _ _ R).
  - exact (lt_disj _ _ _ _ R).
  - exact Hm.
Qed.

Lemma use_hit t F ch L k :
  lt_repr t F ch L -> find_in (items t) k (ch (bucket t k)) <> NONE ->
  exists it t', rd (items t) (find_in (items t) k (ch (bucket t k))) = Some it /\
    lrutrack_use t k = Some (value it, t') /\
    lt_repr t' F ch (bucket t k :: rm (bucket t k) L) /\ same_data t t'.
Proof.
  intros R Hn. pose proof (bucket_range _ _ _ _ k R) as Hh.
  set (h := bucket t k) in *. set (i := find_in (items t) k (ch h)) in *.
  destruct (find_in_found _ _ _ i eq_refl Hn) as (it & Hit & _).
  assert (Hi : i ∈ ch h)
    by (destruct (find_in_mem (items t) k (ch h)) as [E|E]; [exfalso; apply Hn; exact E|exact E]).
  assert (HL : h ∈ L).
  { apply (lt_lru_mem _ _ _ _ R h Hh). intros E. rewrite E in Hi. apply elem_of_nil in Hi. exact Hi. }
  destruct (move_to_lru_head_repr t L h (lt_lru _ _ _ _ R) HL) as (t' & E' & R' & SD).
  exists it, t'. split; [exact Hit|]. split.
  - unfold lrutrack_use. cbv zeta.
    change (lrutrack_hash k (key_len k) (seed t) (hash_table_size t)) with h.
    rewrite (lt_find_index _ _ _ _ k h R Hh). cbn [mbind option_bind]. fold i.
    replace (i =? NONE) with false by (symmetry; apply Z.eqb_neq; exact Hn).
    rewrite E'. cbn [mbind option_bind]. destruct SD as (_ & S2 & _). rewrite S2, Hit.
    reflexivity.
  - split; [|exact SD]. apply (lt_repr_lru t _ _ _ L); [exact R|exact R'|exact SD|].
    intros b Hb. rewrite elem_of_cons. split.
    + intros [->|Hb'].
      * intros E. rewrite E in Hi. apply elem_of_nil in Hi. exact Hi.
      * apply rm_sub in Hb' as [Hb' _]. apply (lt_lru_mem _ _ _ _ R b Hb). exact Hb'.
    + intros Hc. destruct (Z.eq_dec b h) as [->|Hne]; [left; reflexivity|].
      right. apply rm_mem; [|exact Hne]. apply (lt_lru_mem _ _ _ _ R b Hb). exact Hc.
Qed.

Lemma use_miss t F ch L k :
  lt_repr t F ch L -> find_in (items t) k (ch (bucket t k)) = NONE ->
  lrutrack_use t k = Some (invalid_value t, t).
Proof.
  intros R Hn. pose proof (bucket_range _ _ _ _ k R) as Hh.
  unfold lrutrack_use. cbv zeta.
  change (lrutrack_hash k (key_len k) (seed t) (hash_table_size t)) with (bucket t k).
  rewrite (lt_find_index _ _ _ _ k _ R Hh). cbn [mbind option_bind]. rewrite Hn, Z.eqb_refl.
  reflexivity.
Qed.

Lemma concat_rows_disjoint (ch : Z -> list Z) rs b b' x :
  NoDup (concat (map ch rs)) -> NoDup rs -> b ∈ rs -> b' ∈ rs -> b <> b' ->
  x ∈ ch b -> x ∉ ch b'.
Proof.
  induction rs as [|r rs IH]; intros D Nr Hb Hb' Hne Hx Hx'; [set_solver|].
  cbn [map concat] in D. apply NoDup_app in D as (D1 & D2 & D3).
  apply NoDup_cons in Nr as [Hr Nr].
  apply elem_of_cons in Hb as [->|Hb]; apply elem_of_cons in Hb' as [->|Hb'].
  - congruence.
  - apply (D2 x Hx). apply in_chains. eauto.
  - apply (D2 x Hx'). apply in_chains. eauto.
  - exact (IH D3 Nr Hb Hb' Hne Hx Hx').
Qed.

Lemma lt_rows_disjoint t F ch L b b' x :
  lt_repr t F ch L -> 0 <= b < hash_table_size t -> 0 <= b' < hash_table_size t ->
  b <> b' -> x ∈ ch b -> x ∉ ch b'.
Proof.
  intros R Hb Hb' Hne. pose proof (lt_disj _ _ _ _ R) as D. apply NoDup_app in D as (_ & _ & D).
  apply (concat_rows_disjoint ch (rows (hash_table_size t))); auto using rows_nodup;
    apply rows_mem; assumption.
Qed.

Lemma rm_post_intro t t' F ch L L' h i kl vv :
  lt_repr t F ch L -> 0 <= h < hash_table_size t -> i ∈ ch h ->
  lru_repr t' L' ->
  (forall b, 0 <= b < hash_table_size t -> b ∈ L' <-> upd ch h (rm i (ch h)) b <> []) ->
  hash_table_size t' = hash_table_size t -> num_items t' = num_items t -> first_free t' = i ->
  length (hash_table t') = length (hash_table t) ->
  (forall b, rd (hash_table t') b =
     if b =? h then Some (hd NONE (rm i (ch h))) else rd (hash_table t) b) ->
  length (items t') = length (items t) ->
  (forall x, rd (items t') x =
     if x =? i then Some (mk_item None kl vv (first_free t))
     else if x =? prev_in NONE (ch h) i
     then (fun a => with_next a (next_in (ch h) i)) <$> rd (items t) x
     else rd (items t) x) ->
  lt_repr t' (i :: F) (upd ch h (rm i (ch h))) L'.
Proof.
  intros R Hh Hi R' Hm Es En Ef Ehl Eht Eil Erd.
  pose proof (lt_row_nodup _ _ _ _ _ R Hh) as Hnd.
  assert (HN : forall x, x ∈ ch h -> x <> NONE) by (intros x Hx; eapply chain_not_none; eauto).
  assert (HNn : NONE ∉ ch h) by (intros Hx; exact (HN _ Hx eq_refl)).
  assert (HiF : i ∉ F) by (intros HF; exact (lt_free_not_row _ _ _ _ _ _ R Hh HF Hi)).
  set (p := prev_in NONE (ch h) i) in *.
  assert (Hp : p = NONE \/ p ∈ ch h) by (destruct (prev_in_in NONE (ch h) i Hi); auto).
  assert (Hpi : p <> i) by (apply prev_in_neq; [intros E; rewrite <- E in Hi; contradiction|apply HN; exact Hi]).
  assert (Hsame : forall x, x <> i -> x <> p -> rd (items t') x = rd (items t) x).
  { intros x H1 H2. rewrite Erd.
    replace (x =? i) with false by (symmetry; apply Z.eqb_neq; exact H1).
    replace (x =? p) with false by (symmetry; apply Z.eqb_neq; exact H2). reflexivity. }
  assert (Hother : forall b x, 0 <= b < hash_table_size t -> b <> h -> x ∈ ch b ->
                     rd (items t') x = rd (items t) x).
  { intros b x Hb Hbh Hx. apply Hsame.
    - intros ->. exact (lt_rows_disjoint _ _ _ _ _ _ _ R Hb Hh Hbh Hx Hi).
    - intros ->. destruct Hp as [Hp|Hp].
      + rewrite Hp in Hx. exact (chain_not_none _ _ _ _ _ _ R Hb Hx eq_refl).
      + exact (lt_rows_disjoint _ _ _ _ _ _ _ R Hb Hh Hbh Hx Hp). }
  constructor.
  - exact R'.
  - rewrite Ehl, Es. exact (lt_ht_len _ _ _ _ R).
  - rewrite En, Eil. exact (lt_num _ _ _ _ R).
  - rewrite En. exact (lt_num_max _ _ _ _ R).
  - exact Ef.
  - apply (linked_cons _ _ _ (mk_item None kl vv (first_free t))).
    + eapply linked_ext; [exact (lt_free _ _ _ _ R)|]. intros x Hx. apply Hsame.
      * intros ->. contradiction.
      * intros ->. destruct Hp as [Hp|Hp].
        -- rewrite Hp in Hx. exact (free_not_none _ _ _ _ _ R Hx eq_refl).
        -- exact (lt_free_not_row _ _ _ _ _ _ R Hh Hx Hp).
    + exact HiF.
    + rewrite Erd, Z.eqb_refl. reflexivity.
    + exact (lt_free_head _ _ _ _ R).
  - intros b Hb. rewrite Es in Hb. unfold upd. rewrite Eht.
    destruct (b =? h) eqn:Eb; zeq.
    + subst b. destruct (lt_rows _ _ _ _ R h Hh) as (_ & Hl & Hk).
      split; [reflexivity|]. split.
      * intros x Hx. apply rm_sub in Hx as [Hx Hxi].
        rewrite next_in_rm by auto. rewrite Erd.
        replace (x =? i) with false by (symmetry; apply Z.eqb_neq; exact Hxi).
        fold p. destruct (x =? p) eqn:Ex; zeq.
        -- subst x. destruct (Hl p Hx) as (a & Ha & _). rewrite Ha.
           eexists; split; [reflexivity|]. reflexivity.
        -- exact (Hl x Hx).
      * intros x Hx. apply rm_sub in Hx as [Hx Hxi]. rewrite Erd.
        replace (x =? i) with false by (symmetry; apply Z.eqb_neq; exact Hxi).
        fold p. destruct (Hk x Hx) as (a & kb & Ha & Hka & Hla).
        destruct (x =? p).
        -- rewrite Ha. exists (with_next a (next_in (ch h) i)), kb. auto.
        -- exists a, kb. auto.
    + destruct (lt_rows _ _ _ _ R b Hb) as (H1 & H2 & H3). split; [exact H1|]. split.
      * eapply linked_ext; [exact H2|]. intros x Hx. eapply Hother; eauto.
      * eapply keyed_ext; [exact H3|]. intros x Hx. eapply Hother; eauto.
  - rewrite Es.
    set (X := concat (map ch (rows (hash_table_size t)))).
    set (X' := concat (map (upd ch h (rm i (ch h))) (rows (hash_table_size t)))).
    assert (P1 : ch h ++ X' ≡ₚ rm i (ch h) ++ X).
    { apply concat_upd_perm; [apply rows_nodup|apply rows_mem; exact Hh]. }
    assert (P : i :: X' ≡ₚ X).
    { apply (Permutation_app_inv_l (rm i (ch h))). rewrite <- Permutation_middle.
      etransitivity; [|exact P1].
      change (i :: rm i (ch h) ++ X') with ((i :: rm i (ch h)) ++ X').
      apply Permutation_app_tail. symmetry. apply perm_rm; assumption. }
    cbn [app]. rewrite Permutation_middle, P. exact (lt_disj _ _ _ _ R).
  - rewrite Es. exact Hm.
Qed.

Lemma rm_post_common t t' F ch L h i kl vv :
  lt_repr t F ch L -> 0 <= h < hash_table_size t -> i ∈ ch h ->
  lru_repr t' (match rm i (ch h) with [] => rm h L | _ => L end) ->
  hash_table_size t' = hash_table_size t -> num_items t' = num_items t -> first_free t' = i ->
  seed t' = seed t -> invalid_value t' = invalid_value t ->
  (rm i (ch h) <> [] -> hash_table_lru_links t' = hash_table_lru_links t /\
     lru_head t' = lru_head t /\ lru_tail t' = lru_tail t) ->
  length (hash_table t') = length (hash_table t) ->
  (forall b, rd (hash_table t') b =
     if b =? h then Some (hd NONE (rm i (ch h))) else rd (hash_table t) b) ->
  length (items t') = length (items t) ->
  (forall x, rd (items t') x =
     if x =? i then Some (mk_item None kl vv (first_free t))
     else if x =? prev_in NONE (ch h) i
     then (fun a => with_next a (next_in (ch h) i)) <$> rd (items t) x
     else rd (items t) x) ->
  rm_post t t' F ch L h i.
Proof.
  intros R Hh Hi R' Es En Ef Esd Ei Elk Ehl Eht Eil Erd.
  split; [|split; [|split; [exact Es|split; [exact Esd|split; [exact Ei|exact Elk]]]]].
  - eapply rm_post_intro; eauto.
    intros b Hb. unfold upd. destruct (b =? h) eqn:Eb; zeq.
    + subst b. destruct (rm i (ch h)) as [|y l] eqn:Er.
      * split; [|intros []; reflexivity]. intros Hx. apply rm_sub in Hx as [_ Hx]. congruence.
      * split; [discriminate|]. intros _. apply (lt_lru_mem _ _ _ _ R h Hh).
        intros E. rewrite E in Hi. apply elem_of_nil in Hi. exact Hi.
    + rewrite <- (lt_lru_mem _ _ _ _ R b Hb).
      destruct (rm i (ch h)); [|reflexivity]. split.
      * intros Hx. apply rm_sub in Hx. tauto.
      * intros Hx. apply rm_mem; assumption.
  - intros b x Hb Hx Hxi. rewrite Erd.
    replace (x =? i) with false by (symmetry; apply Z.eqb_neq; exact Hxi).
    destruct (x =? prev_in NONE (ch h) i); [|reflexivity].
    destruct (rd (items t) x); reflexivity.
Qed.

Lemma rd_none_idx t F ch L : lt_repr t F ch L -> rd (items t) NONE = None.
Proof.
  intros R. pose proof (lt_num _ _ _ _ R). pose proof (lt_num_max _ _ _ _ R).
  unfold rd. replace (NONE <? Z.of_nat (length (items t))) with false
    by (symmetry; apply Z.ltb_ge; lia).
  rewrite andb_false_r. reflexivity.
Qed.

Lemma remove_hit t w F ch L k h i :
  lt_repr t F ch L -> h = bucket t k -> i = find_in (items t) k (ch h) -> i <> NONE ->
  exists t' w', lrutrack_remove t w k = Some (LRUTRACK_OK, t', w') /\ rm_post t t' F ch L h i.
Proof.
  intros R Eh Ei Hn.
  assert (Hh : 0 <= h < hash_table_size t) by (rewrite Eh; eapply bucket_range; eauto).
  assert (Hi : i ∈ ch h).
  { destruct (find_in_mem (items t) k (ch h)) as [E|E]; rewrite <- Ei in E; [contradiction|exact E]. }
  pose proof (lt_row_nodup _ _ _ _ _ R Hh) as Hnd.
  assert (HN : forall x, x ∈ ch h -> x <> NONE) by (intros x Hx; eapply chain_not_none; eauto).
  assert (HNn : NONE ∉ ch h) by (intros Hx; exact (HN _ Hx eq_refl)).
  pose proof (lt_lru _ _ _ _ R) as RL. pose proof (lru_hts _ _ RL) as Hs.
  pose proof (lt_ht_len _ _ _ _ R) as Hhl.
  pose proof (rd_none_idx _ _ _ _ R) as HNone.
  destruct (lt_rows _ _ _ _ R h Hh) as (Hht & Hl & Hk).
  destruct (Hl i Hi) as (it & Hit & Hnext).
  pose proof (chain_length _ _ Hl Hnd) as Hcl.
  pose proof (rd_Some_range _ _ _ Hit) as Hir.
  assert (HL : h ∈ L).
  { apply (lt_lru_mem _ _ _ _ R h Hh). intros E. rewrite E in Hi. apply elem_of_nil in Hi. exact Hi. }
  unfold lrutrack_remove. cbv zeta.
  change (lrutrack_hash k (key_len k) (seed t) (hash_table_size t)) with (bucket t k).
  rewrite <- Eh, (lt_find_index _ _ _ _ k h R Hh). cbn [mbind option_bind]. rewrite <- Ei.
  replace (i =? NONE) with false by (symmetry; apply Z.eqb_neq; exact Hn).
  rewrite Hit. cbn [mbind option_bind]. rewrite Hht. cbn [mbind option_bind].
  rewrite (prev_walk_spec _ _ _ _ _ Hl Hnd HN Hi) by lia. cbn [mbind option_bind].
  destruct (prev_in NONE (ch h) i =? NONE) eqn:Ep; zeq.
  - (* [index] heads its row *)
    assert (Hhd : exists l', ch h = i :: l').
    { destruct (ch h) as [|x l'] eqn:Ech; [apply elem_of_nil in Hi; contradiction|].
      cbn [prev_in] in Ep. destruct (x =? i) eqn:Exi; zeq; [exists l'; rewrite Exi; reflexivity|].
      exfalso. apply elem_of_cons in Hi as [Hi'|Hi']; [congruence|].
      destruct (prev_in_in x l' i Hi') as [E|E]; rewrite Ep in E.
      - apply (HN x); [apply list_elem_of_here|symmetry; exact E].
      - apply HNn. apply list_elem_of_further. exact E. }
    destruct Hhd as (l' & Ech).
    assert (Hil' : i ∉ l') by (rewrite Ech in Hnd; apply NoDup_cons in Hnd; tauto).
    assert (Hrm : rm i (ch h) = l') by (rewrite Ech; apply rm_head; exact Hil').
    assert (Hni : next it = hd NONE l')
      by (rewrite Hnext, Ech; cbn [next_in]; rewrite Z.eqb_refl; reflexivity).
    rewrite set_ht_eq by lia. cbn [mbind option_bind hash_table set_hash_table].
    rewrite rd_insert by lia. rewrite Z.eqb_refl. cbn [mbind option_bind].
    rewrite Hni. destruct l' as [|y l''].
    + cbn [hd]. rewrite Z.eqb_refl.
      destruct (remove_from_lru_repr (set_hash_table t (<[Z.to_nat h := NONE]> (hash_table t))) L h)
        as (t2 & E2 & R2 & SD); [eapply lru_repr_data; [exact RL|reflexivity..]|exact HL|].
      rewrite E2. cbn [mbind option_bind].
      destruct SD as (S1 & S2 & S3 & S4 & S5 & S6 & S7).
      cbn [hash_table items num_items hash_table_size first_free seed invalid_value set_hash_table]
        in S1, S2, S3, S4, S5, S6, S7.
      rewrite S2, Hit. cbn [mbind option_bind]. rewrite set_item_eq by (rewrite S2; lia).
      cbn [mbind option_bind].
      eexists _, _. split; [reflexivity|].
      apply (rm_post_common t _ F ch L h i (key_length it) (invalid_value t2));
        [exact R|exact Hh|exact Hi|..];
        cbn [hash_table items num_items hash_table_size first_free seed invalid_value
             hash_table_lru_links lru_head lru_tail set_first_free set_items].
      * rewrite Hrm. eapply lru_repr_data; [exact R2|reflexivity..].
      * exact S4.
      * exact S3.
      * reflexivity.
      * exact S6.
      * exact S7.
      * rewrite Hrm. intros E; contradiction.
      * rewrite S1, length_insert. reflexivity.
      * intros b. rewrite S1, rd_insert by lia. rewrite Hrm. reflexivity.
      * rewrite length_insert, S2. reflexivity.
      * intros x. rewrite rd_insert by (rewrite S2; lia). rewrite S2, S5.
        destruct (x =? i); [reflexivity|].
        destruct (x =? prev_in NONE (ch h) i) eqn:Ex; zeq; [|reflexivity].
        rewrite Ex, Ep, HNone. reflexivity.
    + cbn [hd].
      assert (Hy : y <> NONE) by (apply HN; rewrite Ech; apply list_elem_of_further, list_elem_of_here).
      replace (y =? NONE) with false by (symmetry; apply Z.eqb_neq; exact Hy).
      cbn [mbind option_bind items set_hash_table]. rewrite Hit. cbn [mbind option_bind].
      rewrite set_item_eq by (cbn [items set_hash_table]; lia). cbn [mbind option_bind].
      eexists _, _. split; [reflexivity|].
      apply (rm_post_common t _ F ch L h i (key_length it)
               (invalid_value (set_hash_table t (<[Z.to_nat h:=y]> (hash_table t)))));
        [exact R|exact Hh|exact Hi|..];
        cbn [hash_table items num_items hash_table_size first_free seed invalid_value
             hash_table_lru_links lru_head lru_tail set_first_free set_items set_hash_table].
      * rewrite Hrm. eapply lru_repr_data; [exact RL|reflexivity..].
      * reflexivity.
      * reflexivity.
      * reflexivity.
      * reflexivity.
      * reflexivity.
      * intros _. auto.
      * rewrite length_insert. reflexivity.
      * intros b. rewrite rd_insert by lia. rewrite Hrm. reflexivity.
      * rewrite length_insert. reflexivity.
      * intros x. rewrite rd_insert by lia.
        destruct (x =? i); [reflexivity|].
        destruct (x =? prev_in NONE (ch h) i) eqn:Ex; zeq; [|reflexivity].
        rewrite Ex, Ep, HNone. reflexivity.
  - (* [index] has a predecessor [p] on its row *)
    set (p := prev_in NONE (ch h) i) in *.
    assert (Hp : p ∈ ch h) by (destruct (prev_in_in NONE (ch h) i Hi) as [E|E]; [contradiction|exact E]).
    assert (Hpi : p <> i) by (apply prev_in_neq; [intros E; rewrite <- E in Hi; contradiction|apply HN; exact Hi]).
    destruct (Hl p Hp) as (pit & Hpit & _). pose proof (rd_Some_range _ _ _ Hpit) as Hpr.
    rewrite Hpit. cbn [mbind option_bind]. rewrite set_item_eq by lia.
    cbn [mbind option_bind items set_items].
    rewrite rd_insert by lia.
    replace (i =? p) with false by (symmetry; apply Z.eqb_neq; intros E; apply Hpi; symmetry; exact E).
    rewrite Hit. cbn [mbind option_bind].
    rewrite set_item_eq by (cbn [items set_items]; rewrite length_insert; lia).
    cbn [mbind option_bind].
    eexists _, _. split; [reflexivity|].
    assert (Hnh : hd NONE (ch h) <> i).
    { intros E. apply Ep. unfold p. destruct (ch h) as [|x l]; cbn [hd] in E; [congruence|].
      subst x. cbn [prev_in]. rewrite Z.eqb_refl. reflexivity. }
    assert (Hrne : rm i (ch h) <> []).
    { intros E. assert (Hp' : p ∈ rm i (ch h)) by (apply rm_mem; assumption).
      rewrite E in Hp'. apply elem_of_nil in Hp'. exact Hp'. }
    apply (rm_post_common t _ F ch L h i (key_length it) (invalid_value t));
      [exact R|exact Hh|exact Hi|..];
      cbn [hash_table items num_items hash_table_size first_free seed invalid_value
           hash_table_lru_links lru_head lru_tail set_first_free set_items].
    + destruct (rm i (ch h)); [contradiction|]. eapply lru_repr_data; [exact RL|reflexivity..].
    + reflexivity.
    + reflexivity.
    + reflexivity.
    + reflexivity.
    + reflexivity.
    + intros _. auto.
    + reflexivity.
    + intros b. destruct (b =? h) eqn:Eb; zeq; [|reflexivity]. subst b.
      rewrite Hht, hd_rm by assumption.
      replace (hd NONE (ch h) =? i) with false by (symmetry; apply Z.eqb_neq; exact Hnh).
      reflexivity.
    + rewrite !length_insert. reflexivity.
    + intros x. rewrite rd_insert by (rewrite length_insert; lia). rewrite rd_insert by lia.
      destruct (x =? i); [reflexivity|].
      fold p. destruct (x =? p) eqn:Ex; zeq; [|reflexivity]. subst x. rewrite Hpit.
      cbn [fmap option_fmap option_map]. rewrite Hnext. reflexivity.
Qed.

Lemma remove_miss t w F ch L k :
  lt_repr t F ch L -> find_in (items t) k (ch (bucket t k)) = NONE ->
  lrutrack_remove t w k = Some (LRUTRACK_NOT_FOUND, t, w).
Proof.
  intros R Hn. pose proof (bucket_range _ _ _ _ k R) as Hh.
  unfold lrutrack_remove. cbv zeta.
  change (lrutrack_hash k (key_len k) (seed t) (hash_table_size t)) with (bucket t k).
  rewrite (lt_find_index _ _ _ _ k _ R Hh). cbn [mbind option_bind]. rewrite Hn, Z.eqb_refl.
  reflexivity.
Qed.

Lemma next_in_app L1 b L2 : NoDup (L1 ++ b :: L2) -> next_in (L1 ++ b :: L2) b = hd NONE L2.
Proof.
  induction L1 as [|x L1 IH]; intros Hnd; cbn [app next_in]; [rewrite Z.eqb_refl; reflexivity|].
  apply NoDup_cons in Hnd as [Hx Hnd].
  destruct (x =? b) eqn:E; zeq; [|auto].
  subst x. exfalso. apply Hx. apply elem_of_app. right. apply list_elem_of_here.
Qed.

Lemma lru_length t L : lru_repr t L -> (length L <= Z.to_nat (hash_table_size t))%nat.
Proof.
  intros R. pose proof (lru_hts _ _ R).
  assert (Hinc : incl L (zrange 0 (hash_table_size t))).
  { intros x Hx. rewrite <- list_elem_of_In in Hx |- *. apply zrange_mem; [lia|].
    apply (lru_range _ _ R). exact Hx. }
  pose proof (lru_nodup _ _ R) as Hnd. rewrite NoDup_ListNoDup in Hnd.
  pose proof (NoDup_incl_length Hnd Hinc) as Hle.
  unfold zrange in Hle. rewrite length_map, length_seq in Hle. lia.
Qed.

Lemma lru_walk_suffix t L L1 L2 fuel :
  lru_repr t L -> L = L1 ++ L2 -> (length L2 < fuel)%nat ->
  lru_walk t fuel (hd NONE L2) = Some L2.
Proof.
  intros R. revert L1 fuel. induction L2 as [|b L2 IH]; intros L1 fuel EL Hf;
    (destruct fuel as [|f]; [cbn in Hf; lia|]); cbn [lru_walk hd].
  - rewrite Z.eqb_refl. reflexivity.
  - assert (Hb : b ∈ L) by (rewrite EL; apply elem_of_app; right; apply list_elem_of_here).
    pose proof (lru_range _ _ R b Hb) as Hbr.
    pose proof (lru_ne_none _ _ _ R Hbr) as HbN.
    replace (b =? NONE) with false by (symmetry; apply Z.eqb_neq; exact HbN).
    destruct (lru_links_eq _ _ R b Hbr) as [_ H1]. rewrite H1. cbn [mbind option_bind].
    assert (Hn : next_in L b = hd NONE L2).
    { rewrite EL. apply next_in_app. rewrite <- EL. exact (lru_nodup _ _ R). }
    rewrite Hn, (IH (L1 ++ [b])); [reflexivity| |cbn in Hf; lia].
    rewrite EL, <- app_assoc. reflexivity.
Qed.

Lemma lru_list_repr t L : lru_repr t L -> lru_list t = Some L.
Proof.
  intros R. unfold lru_list. rewrite (lru_head_eq _ _ R).
  apply (lru_walk_suffix t L []); [exact R|reflexivity|].
  pose proof (lru_length t L R). lia.
Qed.

Lemma concat_map_nil (rs : list Z) : concat (map (fun _ : Z => @nil Z) rs) = [].
Proof. induction rs as [|r rs IH]; [reflexivity|]. cbn. exact IH. Qed.

Lemma lru_repr_fresh t :
  0 < hash_table_size t <= 2 ^ 31 ->
  hash_table_lru_links t = repeat NONE (Z.to_nat (hash_table_size t * 2)) ->
  lru_head t = NONE -> lru_tail t = NONE -> lru_repr t [].
Proof.
  intros Hs El Eh Et. constructor.
  - exact Hs.
  - rewrite El, repeat_length. lia.
  - constructor.
  - intros b Hb. apply elem_of_nil in Hb. contradiction.
  - exact Eh.
  - exact Et.
  - intros b Hb. rewrite !get_link_eq by lia. rewrite El.
    rewrite !rd_repeat by lia. split; reflexivity.
Qed.

Lemma lt_repr_fresh t F :
  lru_repr t [] ->
  hash_table t = repeat NONE (Z.to_nat (hash_table_size t)) ->
  num_items t = Z.of_nat (length (items t)) -> num_items t <= NONE ->
  first_free t = hd NONE F -> linked (items t) F -> NoDup F ->
  lt_repr t F (fun _ => []) [].
Proof.
  intros RL Eht En Em Ef Hl Hnd. pose proof (lru_hts _ _ RL) as Hs.
  constructor; auto.
  - rewrite Eht, repeat_length. lia.
  - intros b Hb. rewrite Eht, rd_repeat by lia. split; [reflexivity|].
    split; intros i Hi; apply elem_of_nil in Hi; contradiction.
  - rewrite concat_map_nil, app_nil_r. exact Hnd.
  - intros b Hb. split; [intros Hx; apply elem_of_nil in Hx; contradiction|congruence].
Qed.

Lemma create_repr hts n sd inv w t w' :
  0 < hts <= 2 ^ 31 -> 0 <= n <= NONE ->
  lrutrack_create hts n sd inv w = Some (Some t, w') ->
  lt_repr t (zrange 0 n) (fun _ => []) [].
Proof.
  intros Hh Hn E. unfold lrutrack_create in E.
  destruct (malloc w) as [r1 w1]; destruct r1; [discriminate|].
  destruct (malloc w1) as [r2 w2]; destruct r2; [discriminate|].
  destruct (malloc w2) as [r3 w3]; destruct r3; [discriminate|].
  destruct (n =? 0) eqn:En; zeq; cbn [negb] in E.
  - subst n. injection E as <- _. apply lt_repr_fresh; cbn.
    + apply lru_repr_fresh; cbn; auto.
    + reflexivity.
    + reflexivity.
    + unfold NONE; lia.
    + rewrite zrange_nil by lia. reflexivity.
    + intros i Hi. rewrite zrange_nil in Hi by lia. apply elem_of_nil in Hi. contradiction.
    + apply zrange_nodup.
  - destruct (malloc w3) as [r4 w4]; destruct r4 as [|j4]; [discriminate|].
    destruct (arena_bytes_wrap SIZEOF_ITEM n); [discriminate|].
    unfold for_range in E. rewrite u32_small in E by (unfold NONE in Hn; lia).
    match type of E with context [for_items ?f ?bd ?i ?hi ?a] =>
      destruct (for_items_spec f bd i hi a) as (a' & Ha & Hlen & Hrd) end;
      [lia|rewrite repeat_length; lia|unfold NONE in Hn; lia|rewrite repeat_length; lia|].
    rewrite Ha in E. cbn [mbind option_bind] in E.
    rewrite (Hrd (n - 1)) in E by lia.
    replace ((0 <=? n - 1) && (n - 1 <? n - 1)) with false in E
      by (symmetry; apply andb_false_iff; right; apply Z.ltb_ge; lia).
    rewrite rd_repeat in E by lia. cbn [mbind option_bind] in E.
    rewrite wr_ok in E by (rewrite Hlen, repeat_length; lia).
    injection E as <- _. apply lt_repr_fresh; cbn.
    + apply lru_repr_fresh; cbn; auto.
    + reflexivity.
    + rewrite length_insert, Hlen, repeat_length. lia.
    + exact (proj2 Hn).
    + rewrite hd_zrange by lia. reflexivity.
    + intros i Hi. apply zrange_mem in Hi; [|lia].
      rewrite rd_insert by (rewrite Hlen, repeat_length; lia).
      rewrite next_in_zrange by lia.
      destruct (i =? n - 1) eqn:E; zeq.
      * subst i. eexists; split; [reflexivity|]. cbn. zbool. reflexivity.
      * rewrite Hrd by lia. zbool. rewrite rd_repeat by lia.
        eexists; split; [reflexivity|]. cbn. rewrite u32_small by (unfold NONE in Hn; lia).
        zbool. reflexivity.
    + apply zrange_nodup.
Qed.

Lemma bucket_eq t t' k :
  seed t' = seed t -> hash_table_size t' = hash_table_size t -> bucket t' k = bucket t k.
Proof. intros E1 E2. unfold bucket. rewrite E1, E2. reflexivity. Qed.

Lemma upd_eq (ch : Z -> list Z) h l : upd ch h l h = l.
Proof. unfold upd. rewrite Z.eqb_refl. reflexivity. Qed.

Lemma find_in_rd its its' k l :
  (forall x, x ∈ l -> rd its' x = rd its x) -> find_in its' k l = find_in its k l.
Proof. intros H. apply find_in_strip. intros x Hx. rewrite H by exact Hx. reflexivity. Qed.

Lemma find_in_new its k v n l j :
  rd its j = Some (mk_item (Some k) (key_len k) v n) -> find_in its k (j :: l) = j.
Proof. intros H. cbn [find_in]. rewrite H, key_match_new. reflexivity. Qed.

Lemma wf_create hts n sd inv w t w' :
  0 < hts <= 2 ^ 31 -> 0 <= n <= NONE ->
  lrutrack_create hts n sd inv w = Some (Some t, w') -> lrutrack_wf t.
Proof. intros H1 H2 E. exists (zrange 0 n), (fun _ => []), []. eapply create_repr; eauto. Qed.

Lemma wf_insert t w k v t' w' :
  lrutrack_wf t -> lrutrack_insert t w k v = Some (LRUTRACK_OK, t', w') -> lrutrack_wf t'.
Proof.
  intros (F & ch & L & R) E. destruct (insert_ok_post _ _ _ _ _ _ _ _ _ R E) as (j & F' & R' & _).
  eexists _, _, _. exact R'.
Qed.

Lemma wf_use t k x t' :
  lrutrack_wf t -> lrutrack_use t k = Some (x, t') -> lrutrack_wf t'.
Proof.
  intros (F & ch & L & R) E.
  destruct (decide (find_in (items t) k (ch (bucket t k)) = NONE)) as [Hn|Hn].
  - rewrite (use_miss _ _ _ _ _ R Hn) in E. injection E as _ <-. eexists _, _, _. exact R.
  - destruct (use_hit _ _ _ _ _ R Hn) as (it & t1 & _ & E1 & R1 & _).
    rewrite E1 in E. injection E as _ <-. eexists _, _, _. exact R1.
Qed.

Lemma wf_remove t w k r t' w' :
  lrutrack_wf t -> lrutrack_remove t w k = Some (r, t', w') -> lrutrack_wf t'.
Proof.
  intros (F & ch & L & R) E.
  destruct (decide (find_in (items t) k (ch (bucket t k)) = NONE)) as [Hn|Hn].
  - rewrite (remove_miss _ w _ _ _ _ R Hn) in E. injection E as _ <- _. eexists _, _, _. exact R.
  - destruct (remove_hit t w F ch L k _ _ R eq_refl eq_refl Hn) as (t1 & w1 & E1 & P & _).
    rewrite E1 in E. injection E as _ <- _. eexists _, _, _. exact P.
Qed.

Lemma insert_remove t F ch L t1 k v w2 :
  lt_repr t F ch L -> ins_post t t1 ch L k v ->
  exists t2 w3 F2 ch2 L2, lrutrack_remove t1 w2 k = Some (LRUTRACK_OK, t2, w3) /\
    lt_repr t2 F2 ch2 L2 /\ bucket t2 k = bucket t k /\
    ch2 (bucket t k) = ch (bucket t k) /\ invalid_value t2 = invalid_value t /\
    (forall x, x ∈ ch (bucket t k) -> strip <$> rd (items t2) x = strip <$> rd (items t) x).
Proof.
  intros R (j & F' & R1 & Hj & Hs & E1 & E2 & E3).
  pose proof (bucket_range _ _ _ _ k R) as Hh.
  set (h := bucket t k) in *.
  assert (Hb1 : bucket t1 k = h) by (apply bucket_eq; assumption).
  assert (Hjn : j ∉ ch h) by (intros Hc; destruct (Hs h j Hh Hc) as [_ C]; congruence).
  assert (Hf1 : find_in (items t1) k (upd ch h (j :: ch h) h) = j)
    by (rewrite upd_eq; eapply find_in_new; exact Hj).
  assert (Hj0 : j <> NONE).
  { apply (chain_not_none _ _ _ _ h j R1); [rewrite E1; exact Hh|].
    rewrite upd_eq. apply list_elem_of_here. }
  destruct (remove_hit t1 w2 F' _ _ k h j R1 (eq_sym Hb1) (eq_sym Hf1) Hj0)
    as (t2 & w3 & Er & R2 & Hst & F1 & F2 & F3 & _).
  exists t2, w3. eexists _, _, _. split; [exact Er|]. split; [exact R2|].
  split; [rewrite <- Hb1; apply bucket_eq; assumption|].
  split; [rewrite !upd_eq; apply rm_head; exact Hjn|].
  split; [congruence|].
  intros x Hx. assert (x <> j) by congruence.
  rewrite (Hst h x); [|rewrite E1; exact Hh|rewrite upd_eq; apply list_elem_of_further; exact Hx|assumption].
  destruct (Hs h x Hh Hx) as [-> _]. reflexivity.
Qed.

(** ** C7: insert, then use or remove

    On a well-formed tracker whose row for [k] holds no item with key [k],
    an insert that returns OK is followed by a use that returns [v] and
    leaves the row of [k] at the LRU head; and a remove of [k] after it
    returns OK, after which a use returns [invalid_value] (and changes
    nothing). *)
Theorem lrutrack_insert_use_remove t w k v t1 w1 :
  lrutrack_wf t ->
  lrutrack_find_index t k (key_len k) (bucket t k) = Some NONE ->
  lrutrack_insert t w k v = Some (LRUTRACK_OK, t1, w1) ->
  (exists t2, lrutrack_use t1 k = Some (v, t2) /\ lru_head t2 = bucket t k) /\
  (forall w2, exists t2 w3, lrutrack_remove t1 w2 k = Some (LRUTRACK_OK, t2, w3) /\
     lrutrack_use t2 k = Some (invalid_value t, t2)).
Proof.
  intros (F & ch & L & R) Hfind E.
  pose proof (bucket_range _ _ _ _ k R) as Hh.
  rewrite (lt_find_index _ _ _ _ k _ R Hh) in Hfind. injection Hfind as Hmiss.
  pose proof (insert_ok_post _ _ _ _ _ _ _ _ _ R E) as P.
  split.
  - destruct P as (j & F' & R1 & Hj & Hs & E1 & E2 & E3).
    set (h := bucket t k) in *.
    assert (Hb1 : bucket t1 k = h) by (apply bucket_eq; assumption).
    assert (Hf1 : find_in (items t1) k (upd ch h (j :: ch h) (bucket t1 k)) = j)
      by (rewrite Hb1, upd_eq; eapply find_in_new; exact Hj).
    assert (Hj0 : j <> NONE).
    { apply (chain_not_none _ _ _ _ h j R1); [rewrite E1; exact Hh|].
      rewrite upd_eq. apply list_elem_of_here. }
    destruct (use_hit _ _ _ _ k R1) as (it & t2 & Hit & Eu & R2 & _); [congruence|].
    rewrite Hf1, Hj in Hit. injection Hit as <-. cbn [value] in Eu.
    exists t2. split; [exact Eu|].
    rewrite (lru_head_eq _ _ (lt_lru _ _ _ _ R2)), Hb1. reflexivity.
  - intros w2.
    destruct (insert_remove _ _ _ _ _ _ _ w2 R P)
      as (t2 & w3 & F2 & ch2 & L2 & Er & R2 & Hb2 & Ech & Ei & Hst).
    exists t2, w3. split; [exact Er|].
    rewrite <- Ei. apply (use_miss _ F2 ch2 L2); [exact R2|].
    rewrite Hb2, Ech, (find_in_strip (items t)); [exact Hmiss|exact Hst].
Qed.

Lemma lru_list_lt t F ch L L' :
  lt_repr t F ch L -> lru_list t = Some L' -> L' = L.
Proof.
  intros R E. rewrite (lru_list_repr _ _ (lt_lru _ _ _ _ R)) in E. congruence.
Qed.

(** ** C8: the per-row LRU discipline

    On a well-formed tracker with LRU list [L] (rows, most recent first):
    an insert that returns OK and a use that hits both make the row of [k]
    the head, taking it out of its old place or adding it; a use that misses
    returns [invalid_value] and leaves the whole state unchanged; a remove
    that returns OK and empties the row takes the row out of the list; a
    remove that returns OK and leaves items on the row keeps the list, the
    links, the head and the tail unchanged. *)
Theorem lrutrack_lru_discipline t L w k v :
  lrutrack_wf t -> lru_list t = Some L ->
  (forall t' w', lrutrack_insert t w k v = Some (LRUTRACK_OK, t', w') ->
     lru_list t' = Some (bucket t k :: rm (bucket t k) L)) /\
  (forall x t', lrutrack_use t k = Some (x, t') ->
     (lrutrack_find_index t k (key_len k) (bucket t k) <> Some NONE ->
        lru_list t' = Some (bucket t k :: rm (bucket t k) L)) /\
     (lrutrack_find_index t k (key_len k) (bucket t k) = Some NONE ->
        x = invalid_value t /\ t' = t)) /\
  (forall t' w', lrutrack_remove t w k = Some (LRUTRACK_OK, t', w') ->
     (rd (hash_table t') (bucket t k) = Some NONE ->
        lru_list t' = Some (rm (bucket t k) L)) /\
     (rd (hash_table t') (bucket t k) <> Some NONE ->
        lru_list t' = Some L /\ hash_table_lru_links t' = hash_table_lru_links t /\
        lru_head t' = lru_head t /\ lru_tail t' = lru_tail t)).
Proof.
  intros (F & ch & L0 & R) EL. pose proof (lru_list_lt _ _ _ _ _ R EL) as <-.
  pose proof (bucket_range _ _ _ _ k R) as Hh.
  rewrite (lt_find_index _ _ _ _ k _ R Hh).
  set (h := bucket t k) in *.
  split; [|split].
  - intros t' w' E. destruct (insert_ok_post _ _ _ _ _ _ _ _ _ R E) as (j & F' & R1 & _).
    apply lru_list_repr. exact (lt_lru _ _ _ _ R1).
  - intros x t' E. split.
    + intros Hn. destruct (use_hit _ _ _ _ k R) as (it & t2 & _ & Eu & R2 & _); [fold h; congruence|].
      rewrite Eu in E. injection E as _ <-. apply lru_list_repr. exact (lt_lru _ _ _ _ R2).
    + intros Hn. injection Hn as Hn. rewrite (use_miss _ _ _ _ k R Hn) in E.
      injection E as <- <-. auto.
  - intros t' w' E.
    destruct (decide (find_in (items t) k (ch h) = NONE)) as [Hn|Hn].
    { rewrite (remove_miss _ w _ _ _ _ R Hn) in E. discriminate. }
    destruct (remove_hit t w F ch L k h _ R eq_refl eq_refl Hn)
      as (t2 & w3 & Er & R2 & _ & E1 & _ & _ & Hlk).
    rewrite Er in E. injection E as <- _.
    set (i := find_in (items t) k (ch h)) in *.
    destruct (lt_rows _ _ _ _ R2 h) as (Hht & _); [rewrite E1; exact Hh|].
    rewrite Hht, upd_eq.
    pose proof (lt_lru _ _ _ _ R2) as RL.
    destruct (rm i (ch h)) as [|y l] eqn:Erm.
    + split; [intros _; apply lru_list_repr; exact RL|]. intros C. contradiction.
    + split.
      * intros C. cbn [hd] in C. injection C as C.
        exfalso. apply (chain_not_none _ _ _ _ h y R); [exact Hh| |exact C].
        refine (proj1 (rm_sub i _ _ _)). rewrite Erm. apply list_elem_of_here.
      * intros _. destruct Hlk as (Hl & Hhd & Htl); [discriminate|].
        split; [apply lru_list_repr; exact RL|auto].
Qed.

(** ** C9: inserting a key that is already present

    Release build (assertions off), key [k] already in slot [i], malloc does
    not fail, and the free list is not empty or the doubled arena's byte
    count [sizeof(lrutrack_item_t) * 2 * num_items] fits the uint32_t
    [items_bytesize] of the growth: [lrutrack_insert] returns
    OK and puts a new slot [j] holding [k] and [v] at the head of the same row,
    linked to the old head; the slot [i] is unchanged; lookups find [j], and a
    use returns [v]. After a remove of [k], lookups find [i] again, and a use
    returns the old item's value. *)
Theorem lrutrack_insert_duplicate t w k v i :
  lrutrack_wf t ->
  lrutrack_find_index t k (key_len k) (bucket t k) = Some i -> i <> NONE ->
  AllocFail ∉ w_alloc w ->
  (first_free t <> NONE \/ SIZEOF_ITEM * (2 * num_items t) < 2 ^ 32) ->
  exists t1 w1 j it, lrutrack_insert t w k v = Some (LRUTRACK_OK, t1, w1) /\
    j <> i /\ rd (hash_table t1) (bucket t k) = Some j /\
    rd (items t1) j = Some it /\ key it = Some k /\ value it = v /\
    rd (hash_table t) (bucket t k) = Some (next it) /\
    rd (items t1) i = rd (items t) i /\
    lrutrack_find_index t1 k (key_len k) (bucket t k) = Some j /\
    (fst <$> lrutrack_use t1 k) = Some v /\
    (forall w2, exists t2 w3 old, lrutrack_remove t1 w2 k = Some (LRUTRACK_OK, t2, w3) /\
       rd (items t) i = Some old /\
       lrutrack_find_index t2 k (key_len k) (bucket t k) = Some i /\
       (fst <$> lrutrack_use t2 k) = Some (value old)).
Proof.
  intros (F & ch & L & R) Hf Hi Ha Hc.
  pose proof (bucket_range _ _ _ _ k R) as Hh.
  rewrite (lt_find_index _ _ _ _ k _ R Hh) in Hf. injection Hf as Hf.
  assert (Hcap : F <> [] \/ SIZEOF_ITEM * (2 * num_items t) < 2 ^ 32).
  { destruct Hc as [Hc|Hc]; [left|right; exact Hc].
    intros ->. apply Hc. rewrite (lt_free_head _ _ _ _ R). reflexivity. }
  destruct (insert_spec t w k v F ch L R Hcap) as (r & t1 & w1 & E & Hr & Hp).
  rewrite (Hr Ha) in E, Hp. pose proof (Hp eq_refl) as P.
  destruct (Hp eq_refl) as (j & F' & R1 & Hj & Hs & E1 & E2 & E3).
  set (h := bucket t k) in *.
  assert (Hb1 : bucket t1 k = h) by (apply bucket_eq; assumption).
  assert (Hin : i ∈ ch h) by (destruct (find_in_mem (items t) k (ch h)) as [C|C]; congruence).
  destruct (Hs h i Hh Hin) as [Hsi Hij].
  exists t1, w1, j, (mk_item (Some k) (key_len k) v (hd NONE (ch h))).
  destruct (lt_rows _ _ _ _ R1 h) as (Hht1 & _); [rewrite E1; exact Hh|].
  destruct (lt_rows _ _ _ _ R h Hh) as (Hht & _).
  assert (Hf1 : find_in (items t1) k (upd ch h (j :: ch h) (bucket t1 k)) = j)
    by (rewrite Hb1, upd_eq; eapply find_in_new; exact Hj).
  assert (Hj0 : j <> NONE).
  { apply (chain_not_none _ _ _ _ h j R1); [rewrite E1; exact Hh|].
    rewrite upd_eq. apply list_elem_of_here. }
  split; [exact E|]. split; [congruence|].
  split; [rewrite Hht1, upd_eq; reflexivity|]. split; [exact Hj|].
  split; [reflexivity|]. split; [reflexivity|]. split; [exact Hht|]. split; [exact Hsi|].
  split.
  { rewrite <- Hb1, (lt_find_index _ _ _ _ k _ R1) by (rewrite Hb1, E1; exact Hh).
    rewrite Hf1. reflexivity. }
  split.
  { destruct (use_hit _ _ _ _ k R1) as (it & t2 & Hit & Eu & _); [congruence|].
    rewrite Hf1, Hj in Hit. injection Hit as <-. rewrite Eu. reflexivity. }
  intros w2.
  destruct (insert_remove _ _ _ _ _ _ _ w2 R P)
    as (t2 & w3 & F2 & ch2 & L2 & Er & R2 & Hb2 & Ech & Ei & Hst).
  fold h in Hb2, Ech, Hst.
  destruct (find_in_found _ _ _ _ Hf Hi) as (old & Hold & _).
  assert (Hf2 : find_in (items t2) k (ch2 (bucket t2 k)) = i).
  { rewrite Hb2, Ech, (find_in_strip (items t)); [exact Hf|exact Hst]. }
  exists t2, w3, old. split; [exact Er|]. split; [exact Hold|]. split.
  { rewrite <- Hb2, (lt_find_index _ _ _ _ k _ R2) by (eapply bucket_range; exact R2).
    rewrite Hf2. reflexivity. }
  destruct (use_hit _ _ _ _ k R2) as (it & t3 & Hit & Eu & _); [congruence|].
  rewrite Eu. cbn. rewrite Hf2 in Hit.
  pose proof (Hst i Hin) as Hsv. rewrite Hit, Hold in Hsv. cbn in Hsv.
  injection Hsv as _ _ Hv. rewrite Hv. reflexivity.
Qed.

Lemma lrutrack_4_wf : lrutrack_wf lrutrack_4.
Proof.
  apply (wf_create 4 4 0 0 w_ok _ w_ok); [lia|unfold NONE; lia|vm_compute; reflexivity].
Qed.

Lemma lrutrack_a_wf : lrutrack_wf lrutrack_a.
Proof.
  apply (wf_insert lrutrack_4 w_ok key_a 1 _ w_ok); [exact lrutrack_4_wf|vm_compute; reflexivity].
Qed.

Lemma lrutrack_adb_wf : lrutrack_wf lrutrack_adb.
Proof.
  apply (wf_insert lrutrack_ad w_ok key_b 2 _ w_ok); [|vm_compute; reflexivity].
  apply (wf_insert lrutrack_a w_ok key_d 4 _ w_ok); [exact lrutrack_a_wf|vm_compute; reflexivity].
Qed.

Lemma lrutrack_insert_use_remove_witness :
  lrutrack_wf lrutrack_4 /\
  lrutrack_find_index lrutrack_4 key_a (key_len key_a) (bucket lrutrack_4 key_a) = Some NONE /\
  lrutrack_insert lrutrack_4 w_ok key_a 1 = Some (LRUTRACK_OK, lrutrack_a, w_ok) /\
  (exists t2, lrutrack_use lrutrack_a key_a = Some (1, t2) /\
     lru_head t2 = bucket lrutrack_4 key_a) /\
  (forall w2, exists t2 w3, lrutrack_remove lrutrack_a w2 key_a = Some (LRUTRACK_OK, t2, w3) /\
     lrutrack_use t2 key_a = Some (invalid_value lrutrack_4, t2)).
Proof.
  assert (H1 : lrutrack_find_index lrutrack_4 key_a (key_len key_a) (bucket lrutrack_4 key_a)
               = Some NONE) by (vm_compute; reflexivity).
  assert (H2 : lrutrack_insert lrutrack_4 w_ok key_a 1 = Some (LRUTRACK_OK, lrutrack_a, w_ok))
    by (vm_compute; reflexivity).
  split; [exact lrutrack_4_wf|]. split; [exact H1|]. split; [exact H2|].
  exact (lrutrack_insert_use_remove lrutrack_4 w_ok key_a 1 lrutrack_a w_ok lrutrack_4_wf H1 H2).
Defined.

Lemma lrutrack_lru_discipline_witness :
  lrutrack_wf lrutrack_a /\ lru_list lrutrack_a = Some [2] /\
  (forall t' w', lrutrack_insert lrutrack_a w_ok key_b 5 = Some (LRUTRACK_OK, t', w') ->
     lru_list t' = Some (bucket lrutrack_a key_b :: rm (bucket lrutrack_a key_b) [2])) /\
  (forall x t', lrutrack_use lrutrack_a key_b = Some (x, t') ->
     (lrutrack_find_index lrutrack_a key_b (key_len key_b) (bucket lrutrack_a key_b) <> Some NONE ->
        lru_list t' = Some (bucket lrutrack_a key_b :: rm (bucket lrutrack_a key_b) [2])) /\
     (lrutrack_find_index lrutrack_a key_b (key_len key_b) (bucket lrutrack_a key_b) = Some NONE ->
        x = invalid_value lrutrack_a /\ t' = lrutrack_a)) /\
  (forall t' w', lrutrack_remove lrutrack_a w_ok key_b = Some (LRUTRACK_OK, t', w') ->
     (rd (hash_table t') (bucket lrutrack_a key_b) = Some NONE ->
        lru_list t' = Some (rm (bucket lrutrack_a key_b) [2])) /\
     (rd (hash_table t') (bucket lrutrack_a key_b) <> Some NONE ->
        lru_list t' = Some [2] /\
        hash_table_lru_links t' = hash_table_lru_links lrutrack_a /\
        lru_head t' = lru_head lrutrack_a /\ lru_tail t' = lru_tail lrutrack_a)).
Proof.
  assert (H1 : lru_list lrutrack_a = Some [2]) by (vm_compute; reflexivity).
  split; [exact lrutrack_a_wf|]. split; [exact H1|].
  exact (lrutrack_lru_discipline lrutrack_a [2] w_ok key_b 5 lrutrack_a_wf H1).
Defined.

Lemma lrutrack_insert_duplicate_witness :
  lrutrack_wf lrutrack_a /\
  lrutrack_find_index lrutrack_a key_a (key_len key_a) (bucket lrutrack_a key_a) = Some 0 /\
  0 <> NONE /\ (AllocFail ∉ w_alloc w_ok) /\
  (first_free lrutrack_a <> NONE \/ SIZEOF_ITEM * (2 * num_items lrutrack_a) < 2 ^ 32) /\
  exists t1 w1 j it, lrutrack_insert lrutrack_a w_ok key_a 7 = Some (LRUTRACK_OK, t1, w1) /\
    j <> 0 /\ rd (hash_table t1) (bucket lrutrack_a key_a) = Some j /\
    rd (items t1) j = Some it /\ key it = Some key_a /\ value it = 7 /\
    rd (hash_table lrutrack_a) (bucket lrutrack_a key_a) = Some (next it) /\
    rd (items t1) 0 = rd (items lrutrack_a) 0 /\
    lrutrack_find_index t1 key_a (key_len key_a) (bucket lrutrack_a key_a) = Some j /\
    (fst <$> lrutrack_use t1 key_a) = Some 7 /\
    (forall w2, exists t2 w3 old, lrutrack_remove t1 w2 key_a = Some (LRUTRACK_OK, t2, w3) /\
       rd (items lrutrack_a) 0 = Some old /\
       lrutrack_find_index t2 key_a (key_len key_a) (bucket lrutrack_a key_a) = Some 0 /\
       (fst <$> lrutrack_use t2 key_a) = Some (value old)).
Proof.
  assert (H1 : lrutrack_find_index lrutrack_a key_a (key_len key_a) (bucket lrutrack_a key_a)
               = Some 0) by (vm_compute; reflexivity).
  assert (H2 : 0 <> NONE) by (unfold NONE; lia).
  assert (H3 : AllocFail ∉ w_alloc w_ok) by (vm_compute; apply not_elem_of_nil).
  assert (H4 : first_free lrutrack_a <> NONE \/ SIZEOF_ITEM * (2 * num_items lrutrack_a) < 2 ^ 32)
    by (left; vm_compute; discriminate).
  split; [exact lrutrack_a_wf|]. split; [exact H1|]. split; [exact H2|].
  split; [exact H3|]. split; [exact H4|].
  exact (lrutrack_insert_duplicate lrutrack_a w_ok key_a 7 0 lrutrack_a_wf H1 H2 H3 H4).
Defined.

End LrutrackFacts.

(** * LRU-Tracker: frame, eviction and clearing properties *)

Module LrutrackMore.
Import Lrutrack LrutrackInv LrutrackFacts.

Lemma bytes_eqb_eq a b : bytes_eqb a b = true -> a = b.
Proof.
  revert b. induction a as [|x a IH]; intros [|y b]; cbn [bytes_eqb]; try discriminate; [reflexivity|].
  intros H. apply andb_prop in H as [H1 H2]. apply Byte.byte_dec_bl in H1. f_equal; auto.
Qed.

Lemma key_match_uniq k k' it : key_match k it = true -> key_match k' it = true -> k' = k.
Proof.
  unfold key_match. destruct (key it) as [kb|]; [|rewrite !andb_false_r; discriminate].
  intros H1 H2. apply andb_prop in H1 as [_ H1]. apply andb_prop in H2 as [_ H2].
  apply bytes_eqb_eq in H1, H2. congruence.
Qed.

Lemma key_match_other k k' it : key_match k it = true -> k' <> k -> key_match k' it = false.
Proof.
  intros H Hn. destruct (key_match k' it) eqn:E; [|reflexivity].
  exfalso. apply Hn. eapply key_match_uniq; eauto.
Qed.

Lemma find_in_rm its k i it l :
  rd its i = Some it -> key_match k it = false -> find_in its k (rm i l) = find_in its k l.
Proof.
  intros Hi Hk. induction l as [|x l IH]; [reflexivity|].
  unfold rm in *. cbn [List.remove]. destruct (Z.eq_dec i x) as [<-|Hx].
  - cbn [find_in]. rewrite Hi, Hk. exact IH.
  - cbn [find_in]. destruct (rd its x); [|reflexivity].
    destruct (key_match k l0); [reflexivity|exact IH].
Qed.

(** What [lrutrack_use] returns, read off the representation. *)
Lemma use_fst t F ch L k :
  lt_repr t F ch L ->
  fst <$> lrutrack_use t k =
  Some (if find_in (items t) k (ch (bucket t k)) =? NONE then invalid_value t
        else default (invalid_value t) (value <$> rd (items t) (find_in (items t) k (ch (bucket t k))))).
Proof.
  intros R. destruct (decide (find_in (items t) k (ch (bucket t k)) = NONE)) as [Hn|Hn].
  - rewrite (use_miss _ _ _ _ _ R Hn), Hn, Z.eqb_refl. reflexivity.
  - destruct (use_hit _ _ _ _ _ R Hn) as (it & t' & Hit & Eu & _).
    rewrite Eu, Hit. apply Z.eqb_neq in Hn. rewrite Hn. reflexivity.
Qed.

Lemma use_view t t' F ch L F' ch' L' k :
  lt_repr t F ch L -> lt_repr t' F' ch' L' ->
  bucket t' k = bucket t k -> invalid_value t' = invalid_value t ->
  find_in (items t') k (ch' (bucket t k)) = find_in (items t) k (ch (bucket t k)) ->
  (find_in (items t) k (ch (bucket t k)) <> NONE ->
   value <$> rd (items t') (find_in (items t) k (ch (bucket t k))) =
   value <$> rd (items t) (find_in (items t) k (ch (bucket t k)))) ->
  fst <$> lrutrack_use t' k = fst <$> lrutrack_use t k.
Proof.
  intros R R' Eb Ei Ef Ev. rewrite (use_fst _ _ _ _ _ R), (use_fst _ _ _ _ _ R'), Eb, Ef, Ei.
  destruct (find_in (items t) k (ch (bucket t k)) =? NONE) eqn:E; [reflexivity|].
  apply Z.eqb_neq in E. rewrite (Ev E). reflexivity.
Qed.

Lemma ins_post_frame t t' F ch L k v k' :
  lt_repr t F ch L -> ins_post t t' ch L k v -> k' <> k ->
  fst <$> lrutrack_use t' k' = fst <$> lrutrack_use t k'.
Proof.
  intros R P Hk. pose proof P as (j & F' & R1 & Hj & Hs & E1 & E2 & E3).
  pose proof (bucket_range _ _ _ _ k' R) as Hh'.
  set (h := bucket t k) in *. set (h' := bucket t k') in *.
  assert (Ef : find_in (items t') k' (upd ch h (j :: ch h) h') = find_in (items t) k' (ch h')).
  { unfold upd. destruct (h' =? h) eqn:E; zeq.
    - rewrite E. cbn [find_in]. rewrite Hj.
      rewrite (key_match_other k k'); [|apply key_match_new|exact Hk].
      apply find_in_rd. intros x Hx. apply (Hs h x); [rewrite <- E; exact Hh'|exact Hx].
    - apply find_in_rd. intros x Hx. apply (Hs h' x Hh' Hx). }
  apply (use_view _ _ _ _ _ _ _ _ _ R R1).
  - apply bucket_eq; assumption.
  - exact E3.
  - exact Ef.
  - intros Hn. fold h' in Hn |- *. destruct (find_in_mem (items t) k' (ch h')) as [C|C]; [contradiction|].
    rewrite (proj1 (Hs h' _ Hh' C)). reflexivity.
Qed.

Lemma strip_value (o o' : option lrutrack_item_t) :
  strip <$> o' = strip <$> o -> value <$> o' = value <$> o.
Proof.
  destruct o as [a|], o' as [b|]; cbn; try discriminate; [|reflexivity].
  unfold strip. intros H. injection H as _ _ H. rewrite H. reflexivity.
Qed.

Lemma rm_post_frame t t' F ch L k k' :
  lt_repr t F ch L -> find_in (items t) k (ch (bucket t k)) <> NONE ->
  rm_post t t' F ch L (bucket t k) (find_in (items t) k (ch (bucket t k))) -> k' <> k ->
  fst <$> lrutrack_use t' k' = fst <$> lrutrack_use t k'.
Proof.
  intros R Hn P Hk. destruct P as (R' & Hst & E1 & E2 & E3 & _).
  pose proof (bucket_range _ _ _ _ k R) as Hh. pose proof (bucket_range _ _ _ _ k' R) as Hh'.
  set (h := bucket t k) in *. set (h' := bucket t k') in *.
  set (i := find_in (items t) k (ch h)) in *.
  assert (Hi : i ∈ ch h) by (destruct (find_in_mem (items t) k (ch h)) as [C|C]; [contradiction|exact C]).
  destruct (find_in_found (items t) k (ch h) i eq_refl Hn) as (it & Hit & Hkm).
  assert (Hkm' : key_match k' it = false) by (eapply key_match_other; eauto).
  assert (Ef : find_in (items t') k' (upd ch h (rm i (ch h)) h') = find_in (items t) k' (ch h')).
  { unfold upd. destruct (h' =? h) eqn:E; zeq.
    - rewrite E. rewrite (find_in_strip (items t)).
      + apply (find_in_rm _ _ _ it); assumption.
      + intros x Hx. apply rm_sub in Hx as [Hx Hxi]. apply (Hst h x Hh Hx Hxi).
    - apply find_in_strip. intros x Hx. apply (Hst h' x Hh' Hx).
      intros ->. exact (lt_rows_disjoint _ _ _ _ h h' i R Hh Hh' (not_eq_sym E) Hi Hx). }
  apply (use_view _ _ _ _ _ _ _ _ _ R R').
  - apply bucket_eq; assumption.
  - exact E3.
  - exact Ef.
  - intros Hx. fold h' in Hx |- *. set (x := find_in (items t) k' (ch h')) in *.
    destruct (find_in_mem (items t) k' (ch h')) as [C|C]; [contradiction|].
    destruct (find_in_found (items t) k' (ch h') x eq_refl Hx) as (itx & Hitx & Hkx).
    assert (x <> i) by (intros ->; congruence).
    apply strip_value. apply (Hst h' x Hh' C). assumption.
Qed.

Lemma wf_check t : lrutrack_wf t -> lrutrack_check_internal_state t = true.
Proof.
  intros (F & ch & L & R).
  pose proof (lt_lru _ _ _ _ R) as RL.
  destruct RL as [Hs Hl Hnd Hr Hhd Htl Hlk].
  unfold lrutrack_check_internal_state.
  assert (E1 : negb (hash_table_size t =? 0) = true) by (apply negb_true_iff, Z.eqb_neq; lia).
  assert (E2 : (first_free t =? NONE) || (first_free t <? num_items t) = true).
  { rewrite (lt_free_head _ _ _ _ R). destruct F as [|i F]; [reflexivity|].
    cbn [hd]. apply orb_true_iff. right. apply Z.ltb_lt.
    destruct (lt_free _ _ _ _ R i (list_elem_of_here _ _)) as (it & Hit & _).
    pose proof (rd_Some_range _ _ _ Hit). rewrite (lt_num _ _ _ _ R). lia. }
  destruct L as [|b L'] eqn:EL.
  - rewrite Hhd, Htl. cbn. rewrite E1, E2. reflexivity.
  - assert (Hne : L <> []) by (subst L; discriminate).
    rewrite <- EL in *.
    assert (Hb : hd NONE L ∈ L) by (subst L; apply list_elem_of_here).
    pose proof (llast_mem L NONE Hne) as Hlast.
    assert (Hb0 : lru_head t <> NONE).
    { rewrite Hhd. intros Hc. apply (lru_none_notin t L); [constructor; assumption|].
      rewrite <- Hc. exact Hb. }
    assert (Hl0 : lru_tail t <> NONE).
    { rewrite Htl. intros Hc. apply (lru_none_notin t L); [constructor; assumption|].
      rewrite <- Hc. exact Hlast. }
    apply Z.eqb_neq in Hb0, Hl0. rewrite Hb0, Hl0, E1, E2. cbn [orb andb].
    rewrite Hhd, Htl. unfold link_is_none.
    rewrite (proj1 (Hlk _ (Hr _ Hb))), (proj2 (Hlk _ (Hr _ Hlast))).
    rewrite prev_in_hd by exact Hne. rewrite next_in_last by exact Hnd.
    replace (hd NONE L <? hash_table_size t) with true by (symmetry; apply Z.ltb_lt, Hr, Hb).
    replace (List.last L NONE <? hash_table_size t) with true
      by (symmetry; apply Z.ltb_lt, Hr, Hlast).
    rewrite Z.eqb_refl. reflexivity.
Qed.

Lemma create_fields hts n sd inv w t w' :
  lrutrack_create hts n sd inv w = Some (Some t, w') ->
  invalid_value t = inv /\ seed t = sd /\ hash_table_size t = hts.
Proof.
  unfold lrutrack_create. intros E.
  destruct (malloc w) as [r1 w1]; destruct r1; [discriminate|].
  destruct (malloc w1) as [r2 w2]; destruct r2; [discriminate|].
  destruct (malloc w2) as [r3 w3]; destruct r3; [discriminate|].
  destruct (negb (n =? 0)).
  - destruct (malloc w3) as [r4 w4]; destruct r4; [discriminate|]. des_opt. auto.
  - injection E as <- _. auto.
Qed.

Lemma remove_world t w k r t' w' :
  lrutrack_remove t w k = Some (r, t', w') ->
  (r = LRUTRACK_NOT_FOUND /\ t' = t /\ w' = w /\
   lrutrack_find_index t k (key_len k) (bucket t k) = Some NONE) \/
  (r = LRUTRACK_OK /\ exists i it,
     lrutrack_find_index t k (key_len k) (bucket t k) = Some i /\ i <> NONE /\
     rd (items t) i = Some it /\ w' = evict w (value it)).
Proof.
  unfold lrutrack_remove, bucket. cbv zeta. intros E.
  apply bind_Some in E as (i & Hi & E).
  destruct (i =? NONE) eqn:Ei; zeq.
  - injection E as <- <- <-. left. subst i. auto.
  - right. apply bind_Some in E as (it & Hit & E). des_opt.
    all: split; [reflexivity|]; exists i, it; auto.
Qed.

Lemma lt_repr_items t its' F ch L :
  lt_repr t F ch L -> length its' = length (items t) ->
  (forall b i, 0 <= b < hash_table_size t -> i ∈ ch b -> rd its' i = rd (items t) i) ->
  linked its' F -> lt_repr (set_items t its') F ch L.
Proof.
  intros R Hlen Hc Hf. constructor; cbn [items hash_table num_items hash_table_size first_free set_items].
  - eapply lru_repr_data; [exact (lt_lru _ _ _ _ R)|reflexivity..].
  - exact (lt_ht_len _ _ _ _ R).
  - rewrite Hlen. exact (lt_num _ _ _ _ R).
  - exact (lt_num_max _ _ _ _ R).
  - exact (lt_free_head _ _ _ _ R).
  - exact Hf.
  - intros b Hb. destruct (lt_rows _ _ _ _ R b Hb) as (H1 & H2 & H3).
    split; [exact H1|]. split.
    + eapply linked_ext; [exact H2|]. intros i Hi. apply (Hc b); assumption.
    + eapply keyed_ext; [exact H3|]. intros i Hi. apply (Hc b); assumption.
  - exact (lt_disj _ _ _ _ R).
  - exact (lt_lru_mem _ _ _ _ R).
Qed.

Lemma use_same_items t t' F ch L L' k :
  lt_repr t F ch L -> lt_repr t' F ch L' -> items t' = items t ->
  seed t' = seed t -> hash_table_size t' = hash_table_size t ->
  invalid_value t' = invalid_value t ->
  fst <$> lrutrack_use t' k = fst <$> lrutrack_use t k.
Proof.
  intros R R' Ei Es Eh Ev.
  apply (use_view _ _ _ _ _ _ _ _ _ R R').
  - apply bucket_eq; assumption.
  - exact Ev.
  - rewrite Ei. reflexivity.
  - intros _. rewrite Ei. reflexivity.
Qed.


Lemma use_same_rows t t' F ch L F' L' k :
  lt_repr t F ch L -> lt_repr t' F' ch L' ->
  seed t' = seed t -> hash_table_size t' = hash_table_size t ->
  invalid_value t' = invalid_value t ->
  (forall b i, 0 <= b < hash_table_size t -> i ∈ ch b -> rd (items t') i = rd (items t) i) ->
  fst <$> lrutrack_use t' k = fst <$> lrutrack_use t k.
Proof.
  intros R R' Es Eh Ev Hc. pose proof (bucket_range _ _ _ _ k R) as Hh.
  apply (use_view _ _ _ _ _ _ _ _ _ R R').
  - apply bucket_eq; assumption.
  - exact Ev.
  - apply find_in_rd. intros x Hx. apply (Hc _ _ Hh Hx).
  - intros Hn. destruct (find_in_mem (items t) k (ch (bucket t k))) as [C|C]; [contradiction|].
    rewrite (Hc _ _ Hh C). reflexivity.
Qed.

Lemma insert_key_oom t w k v j F' ch L :
  lt_repr t (j :: F') ch L -> fst (malloc w) = AllocFail ->
  exists t', lrutrack_insert t w k v = Some (LRUTRACK_OOM, t', snd (malloc w)) /\
    lt_repr t' (j :: F') ch L /\ seed t' = seed t /\
    hash_table_size t' = hash_table_size t /\ invalid_value t' = invalid_value t /\
    (forall b i, 0 <= b < hash_table_size t -> i ∈ ch b -> rd (items t') i = rd (items t) i).
Proof.
  intros R Hm.
  destruct (lt_free _ _ _ _ R j (list_elem_of_here _ _)) as (it0 & Hit0 & Hnext0).
  pose proof (rd_Some_range _ _ _ Hit0) as Hj.
  pose proof (free_not_none _ _ _ _ _ R (list_elem_of_here _ _)) as HjN.
  unfold lrutrack_insert. cbv zeta.
  rewrite (lt_free_head _ _ _ _ R). cbn [hd].
  replace (j =? NONE) with false by (symmetry; apply Z.eqb_neq; exact HjN).
  cbn [mbind option_bind negb].
  rewrite (lt_free_head _ _ _ _ R). cbn [hd].
  rewrite Hit0. cbn [mbind option_bind].
  destruct (malloc w) as [r w1] eqn:Em. cbn [fst snd] in *. subst r.
  rewrite set_item_eq by lia. cbn [mbind option_bind].
  eexists. split; [reflexivity|].
  assert (Hc : forall b i, 0 <= b < hash_table_size t -> i ∈ ch b ->
     rd (<[Z.to_nat j := with_key it0 None]> (items t)) i = rd (items t) i).
  { intros b i Hb Hi. rewrite rd_insert by lia. destruct (i =? j) eqn:E; zeq; [|reflexivity].
    subst i. exfalso. exact (lt_free_not_row _ _ _ _ b j R Hb (list_elem_of_here _ _) Hi). }
  split; [|split; [reflexivity|split; [reflexivity|split; [reflexivity|exact Hc]]]].
  apply lt_repr_items; [exact R|apply length_insert|exact Hc|].
  intros i Hi. rewrite rd_insert by lia. destruct (i =? j) eqn:E; zeq.
  - subst i. eexists; split; [reflexivity|]. exact Hnext0.
  - apply (lt_free _ _ _ _ R i Hi).
Qed.

Lemma insert_frame_gen t w k v t' w' F ch L k' :
  lt_repr t F ch L -> lrutrack_insert t w k v = Some (LRUTRACK_OK, t', w') -> k' <> k ->
  fst <$> lrutrack_use t' k' = fst <$> lrutrack_use t k'.
Proof. intros R E Hk. eapply ins_post_frame; [exact R|eapply insert_ok_post; eauto|exact Hk]. Qed.

Lemma remove_frame_gen t w k r t' w' F ch L k' :
  lt_repr t F ch L -> lrutrack_remove t w k = Some (r, t', w') -> k' <> k ->
  fst <$> lrutrack_use t' k' = fst <$> lrutrack_use t k'.
Proof.
  intros R E Hk.
  destruct (decide (find_in (items t) k (ch (bucket t k)) = NONE)) as [Hn|Hn].
  - rewrite (remove_miss _ w _ _ _ _ R Hn) in E. injection E as _ <- _. reflexivity.
  - destruct (remove_hit t w F ch L k _ _ R eq_refl eq_refl Hn) as (t1 & w1 & E1 & P).
    rewrite E1 in E. injection E as _ <- _. eapply rm_post_frame; eauto.
Qed.

Lemma use_frame_gen t k x t' F ch L k' :
  lt_repr t F ch L -> lrutrack_use t k = Some (x, t') ->
  fst <$> lrutrack_use t' k' = fst <$> lrutrack_use t k'.
Proof.
  intros R E.
  destruct (decide (find_in (items t) k (ch (bucket t k)) = NONE)) as [Hn|Hn].
  - rewrite (use_miss _ _ _ _ _ R Hn) in E. injection E as _ <-. reflexivity.
  - destruct (use_hit _ _ _ _ _ R Hn) as (it & t1 & _ & E1 & R1 & SD).
    rewrite E1 in E. injection E as _ <-.
    destruct SD as (S1 & S2 & S3 & S4 & S5 & S6 & S7).
    eapply use_same_items; eauto.
Qed.

(** For every table size n with 0 < n <= 2^32, [lrutrack_hash] returns a row index in [0, n). *)
Theorem lrutrack_hash_lt_size k len sd n :
  0 < n <= 2 ^ 32 -> 0 <= lrutrack_hash k len sd n < n.
Proof. intros Hn. apply hash_range. exact Hn. Qed.

(** Every well-formed tracker passes [lrutrack_check_internal_state]. *)
Theorem lrutrack_wf_internal_state t :
  lrutrack_wf t -> lrutrack_check_internal_state t = true.
Proof. apply wf_check. Qed.

(** A tracker returned by [lrutrack_create] passes the internal check, has an
    empty LRU list, and every lookup misses with [invalid_value], changing
    nothing. *)
Theorem lrutrack_create_empty hts n sd inv w t w' :
  0 < hts <= 2 ^ 31 -> 0 <= n <= NONE ->
  lrutrack_create hts n sd inv w = Some (Some t, w') ->
  lrutrack_check_internal_state t = true /\ lru_list t = Some [] /\
  forall k, lrutrack_use t k = Some (inv, t).
Proof.
  intros Hh Hn E. pose proof (create_repr _ _ _ _ _ _ _ Hh Hn E) as R.
  destruct (create_fields _ _ _ _ _ _ _ E) as (Ei & _ & _).
  split; [apply wf_check; eexists _, _, _; exact R|].
  split; [apply lru_list_repr, (lt_lru _ _ _ _ R)|].
  intros k. rewrite <- Ei. apply (use_miss _ _ _ _ _ R). reflexivity.
Qed.

(** A successful insert of [k] changes the lookup result of no other key. *)
Theorem lrutrack_insert_frame t w k v t' w' k' :
  lrutrack_wf t -> lrutrack_insert t w k v = Some (LRUTRACK_OK, t', w') -> k' <> k ->
  fst <$> lrutrack_use t' k' = fst <$> lrutrack_use t k'.
Proof. intros (F & ch & L & R). apply insert_frame_gen with F ch L; exact R. Qed.

(** When a free slot exists, an insert that returns OOM (the key copy failed)
    leaves a well-formed tracker whose lookups all give the same results. *)
Theorem lrutrack_insert_oom_keeps t w k v t' w' :
  lrutrack_wf t -> first_free t <> NONE ->
  lrutrack_insert t w k v = Some (LRUTRACK_OOM, t', w') ->
  lrutrack_wf t' /\ forall k', fst <$> lrutrack_use t' k' = fst <$> lrutrack_use t k'.
Proof.
  intros (F & ch & L & R) Hf E.
  destruct F as [|j F']; [rewrite (lt_free_head _ _ _ _ R) in Hf; contradiction|].
  destruct (insert_nogrow t w k v j F' ch L R) as (r & t1 & w1 & E1 & _ & _ & Hok).
  assert (Hd : fst (malloc w) = AllocFail \/ fst (malloc w) <> AllocFail)
    by (destruct (fst (malloc w)); [left; reflexivity|right; discriminate]).
  destruct Hd as [Hm|Hm].
  - destruct (insert_key_oom t w k v j F' ch L R Hm) as (t2 & E2 & R2 & Es & Eh & Ev & Hc).
    rewrite E2 in E. injection E as <- _.
    split; [eexists _, _, _; exact R2|].
    intros k'. eapply use_same_rows; eauto.
  - destruct (Hok Hm) as [-> _]. rewrite E1 in E. discriminate.
Qed.

Lemma set_link_fields t b k v t' :
  set_link t b k v = Some t' ->
  hash_table t' = hash_table t /\ items t' = items t /\ num_items t' = num_items t /\
  hash_table_size t' = hash_table_size t /\ first_free t' = first_free t /\
  seed t' = seed t /\ invalid_value t' = invalid_value t.
Proof. unfold set_link. intros E. des_opt. repeat split. Qed.

Ltac link_fields :=
  repeat match goal with
  | H : set_link _ _ _ _ = Some _ |- _ =>
      apply set_link_fields in H; destruct H as (? & ? & ? & ? & ? & ? & ?)
  end.

Lemma move_to_lru_head_fields t i t' :
  lrutrack_move_to_lru_head t i = Some t' ->
  hash_table t' = hash_table t /\ items t' = items t /\ num_items t' = num_items t /\
  hash_table_size t' = hash_table_size t /\ first_free t' = first_free t /\
  seed t' = seed t /\ invalid_value t' = invalid_value t.
Proof.
  unfold lrutrack_move_to_lru_head. intros E. des_opt; link_fields;
    cbn [hash_table items num_items hash_table_size first_free seed invalid_value
         set_lru_head set_lru_tail] in *; repeat split; congruence.
Qed.

(** A lookup changes only the LRU links, [lru_head] and [lru_tail]: the
    hash table, the items, the arena size, the free list, the seed and
    [invalid_value] are unchanged, so every later lookup walks the same
    row to the same slot.  On a well-formed tracker the result stays well
    formed and every later lookup returns the same value. *)
Theorem lrutrack_use_frame t k x t' :
  lrutrack_use t k = Some (x, t') ->
  hash_table t' = hash_table t /\ items t' = items t /\ num_items t' = num_items t /\
  hash_table_size t' = hash_table_size t /\ first_free t' = first_free t /\
  seed t' = seed t /\ invalid_value t' = invalid_value t /\
  (forall k' klen h, lrutrack_find_index t' k' klen h = lrutrack_find_index t k' klen h) /\
  (lrutrack_wf t -> lrutrack_wf t' /\
     forall k', fst <$> lrutrack_use t' k' = fst <$> lrutrack_use t k').
Proof.
  intros E.
  assert (Hf : hash_table t' = hash_table t /\ items t' = items t /\
    num_items t' = num_items t /\ hash_table_size t' = hash_table_size t /\
    first_free t' = first_free t /\ seed t' = seed t /\ invalid_value t' = invalid_value t).
  { unfold lrutrack_use in E. cbv zeta in E. des_opt; [repeat split|].
    eapply move_to_lru_head_fields; eassumption. }
  destruct Hf as (E1 & E2 & E3 & E4 & E5 & E6 & E7).
  do 7 (split; [assumption|]). split.
  - intros k' klen h. unfold lrutrack_find_index. rewrite E1, E2. reflexivity.
  - intros Hw. split; [eapply wf_use; eassumption|].
    destruct Hw as (F & ch & L & R). intros k'. eapply use_frame_gen; eauto.
Qed.

(** A remove of [k] changes the lookup result of no other key. *)
Theorem lrutrack_remove_frame t w k r t' w' k' :
  lrutrack_wf t -> lrutrack_remove t w k = Some (r, t', w') -> k' <> k ->
  fst <$> lrutrack_use t' k' = fst <$> lrutrack_use t k'.
Proof. intros (F & ch & L & R) E Hk. eapply remove_frame_gen; eauto. Qed.

Lemma remove_evicts_gen t w k x t1 r t' w' F ch L :
  lt_repr t F ch L -> lrutrack_use t k = Some (x, t1) ->
  lrutrack_remove t w k = Some (r, t', w') ->
  (r = LRUTRACK_OK /\ w' = evict w x) \/
  (r = LRUTRACK_NOT_FOUND /\ t' = t /\ w' = w /\ x = invalid_value t).
Proof.
  intros R Eu E. pose proof (bucket_range _ _ _ _ k R) as Hh.
  destruct (remove_world _ _ _ _ _ _ E) as [(-> & -> & -> & Hf)|(-> & i & it & Hf & Hi & Hit & ->)].
  - right. rewrite (lt_find_index _ _ _ _ k _ R Hh) in Hf. injection Hf as Hn.
    rewrite (use_miss _ _ _ _ _ R Hn) in Eu. injection Eu as <- _. auto.
  - left. rewrite (lt_find_index _ _ _ _ k _ R Hh) in Hf. injection Hf as Hn.
    destruct (use_hit _ _ _ _ k R) as (it' & t2 & Hit' & Eu' & _); [congruence|].
    rewrite Hn, Hit in Hit'. injection Hit' as <-. rewrite Eu' in Eu. injection Eu as <- _.
    auto.
Qed.

(** A remove evicts exactly the value a lookup of the same key returns; on
    NOT_FOUND it changes neither the tracker nor the world, and the lookup
    returned [invalid_value]. *)
Theorem lrutrack_remove_evicts t w k x t1 r t' w' :
  lrutrack_wf t -> lrutrack_use t k = Some (x, t1) ->
  lrutrack_remove t w k = Some (r, t', w') ->
  (r = LRUTRACK_OK /\ w' = evict w x) \/
  (r = LRUTRACK_NOT_FOUND /\ t' = t /\ w' = w /\ x = invalid_value t).
Proof. intros (F & ch & L & R). apply remove_evicts_gen with F ch L; exact R. Qed.

(** Inserting an absent key and then removing it returns OK, evicts the
    inserted value, and restores the lookup result of every key. *)
Theorem lrutrack_insert_remove_restores t w k v t1 w1 w2 r t2 w3 :
  lrutrack_wf t ->
  lrutrack_find_index t k (key_len k) (bucket t k) = Some NONE ->
  lrutrack_insert t w k v = Some (LRUTRACK_OK, t1, w1) ->
  lrutrack_remove t1 w2 k = Some (r, t2, w3) ->
  r = LRUTRACK_OK /\ w3 = evict w2 v /\
  forall k', fst <$> lrutrack_use t2 k' = fst <$> lrutrack_use t k'.
Proof.
  intros (F & ch & L & R) Hfind E Er.
  pose proof (bucket_range _ _ _ _ k R) as Hh.
  rewrite (lt_find_index _ _ _ _ k _ R Hh) in Hfind. injection Hfind as Hmiss.
  pose proof (insert_ok_post _ _ _ _ _ _ _ _ _ R E) as P.
  pose proof P as (j & F' & R1 & Hj & Hs & E1 & E2 & E3).
  set (h := bucket t k) in *.
  assert (Hb1 : bucket t1 k = h) by (apply bucket_eq; assumption).
  assert (Hh1 : 0 <= h < hash_table_size t1) by (rewrite E1; exact Hh).
  assert (Hf1 : find_in (items t1) k (upd ch h (j :: ch h) h) = j)
    by (rewrite upd_eq; eapply find_in_new; exact Hj).
  destruct (insert_remove _ _ _ _ _ _ _ w2 R P)
    as (t2' & w3' & F2 & ch2 & L2 & Er' & R2 & Hb2 & Ech & Ei & Hst).
  rewrite Er' in Er. injection Er as <- <- <-.
  split; [reflexivity|]. split.
  - destruct (remove_world _ _ _ _ _ _ Er') as [(H & _)|(_ & i & it & Hf & Hi & Hit & Hw)];
      [discriminate|].
    rewrite Hb1, (lt_find_index _ _ _ _ k _ R1 Hh1), Hf1 in Hf. injection Hf as <-.
    rewrite Hj in Hit. injection Hit as <-. exact Hw.
  - intros k'. destruct (List.list_eq_dec Byte.byte_eq_dec k' k) as [->|Hk].
    + fold h. rewrite (use_miss _ _ _ _ _ R Hmiss).
      rewrite (use_miss _ F2 ch2 L2); [cbn; congruence|exact R2|].
      rewrite Hb2, Ech, (find_in_strip (items t)); [exact Hmiss|exact Hst].
    + rewrite (remove_frame_gen _ _ _ _ _ _ _ _ _ k' R1 Er' Hk).
      apply (ins_post_frame _ _ _ _ _ _ _ _ R P Hk).
Qed.

Lemma forall2_mem_impl {A B} (P Q : A -> B -> Prop) l xs :
  Forall2 P l xs -> (forall x y, x ∈ l -> P x y -> Q x y) -> Forall2 Q l xs.
Proof.
  induction 1 as [|x y l xs Hp _ IH]; intros H; constructor.
  - apply H; [apply list_elem_of_here|exact Hp].
  - apply IH. intros a b Ha. apply H. apply list_elem_of_further. exact Ha.
Qed.

Lemma chain_walk_linked its l fuel :
  linked its l -> NoDup l -> NONE ∉ l -> (length l < fuel)%nat ->
  exists xs, chain_walk its fuel (hd NONE l) = Some xs /\
    Forall2 (fun i it => rd its i = Some it) l xs.
Proof.
  revert fuel. induction l as [|i l IH]; intros fuel Hl Hnd HN Hf;
    (destruct fuel as [|f]; [cbn in Hf; lia|]); cbn [chain_walk hd].
  - rewrite Z.eqb_refl. exists []. split; [reflexivity|constructor].
  - replace (i =? NONE) with false
      by (symmetry; apply Z.eqb_neq; intros ->; apply HN, list_elem_of_here).
    destruct (Hl i (list_elem_of_here _ _)) as (it & Hit & Hn). rewrite Hit.
    cbn [mbind option_bind]. cbn [next_in] in Hn. rewrite Z.eqb_refl in Hn. rewrite Hn.
    destruct (IH f) as (xs & E & F2).
    + eapply linked_tail; eauto.
    + apply NoDup_cons in Hnd as [_ Hnd]. exact Hnd.
    + intros Hc. apply HN, list_elem_of_further. exact Hc.
    + cbn in Hf. lia.
    + rewrite E. exists (it :: xs). split; [reflexivity|]. constructor; assumption.
Qed.

Lemma linked_length its l : linked its l -> NoDup l -> (length l <= length its)%nat.
Proof.
  intros Hl Hnd.
  assert (Hinc : incl l (zrange 0 (Z.of_nat (length its)))).
  { intros x Hx. rewrite <- list_elem_of_In in Hx |- *. apply zrange_mem; [lia|].
    eapply linked_range; eauto. }
  rewrite NoDup_ListNoDup in Hnd.
  pose proof (NoDup_incl_length Hnd Hinc) as Hle.
  unfold zrange in Hle. rewrite length_map, length_seq in Hle. lia.
Qed.

Lemma evict_chain_spec l : forall t w F0 fuel,
  linked (items t) l -> linked (items t) F0 -> NoDup (l ++ F0) -> NONE ∉ l ->
  first_free t = hd NONE F0 -> (length l < fuel)%nat ->
  exists t' its, lrutrack_evict_chain fuel (hd NONE l) t w =
      Some (t', mk_world (w_alloc w) (w_evicted w ++ map value its)) /\
    Forall2 (fun i it => rd (items t) i = Some it) l its /\
    first_free t' = hd NONE (rev l ++ F0) /\
    linked (items t') (rev l ++ F0) /\
    length (items t') = length (items t) /\
    (forall x, x ∉ l -> rd (items t') x = rd (items t) x) /\
    hash_table t' = hash_table t /\ hash_table_lru_links t' = hash_table_lru_links t /\
    num_items t' = num_items t /\ hash_table_size t' = hash_table_size t /\
    lru_head t' = lru_head t /\ lru_tail t' = lru_tail t /\ seed t' = seed t /\
    invalid_value t' = invalid_value t.
Proof.
  induction l as [|i l IH]; intros t w F0 fuel Hl HF Hnd HN Hf Hfu;
    (destruct fuel as [|f]; [cbn in Hfu; lia|]); cbn [lrutrack_evict_chain hd].
  - rewrite Z.eqb_refl. exists t, []. cbn [map]. rewrite app_nil_r.
    destruct w as [wa we]. split; [reflexivity|].
    split; [constructor|]. split; [exact Hf|]. split; [exact HF|]. split; [reflexivity|].
    split; [reflexivity|]. repeat split.
  - assert (HiN : i <> NONE) by (intros ->; apply HN, list_elem_of_here).
    replace (i =? NONE) with false by (symmetry; apply Z.eqb_neq; exact HiN).
    destruct (Hl i (list_elem_of_here _ _)) as (it & Hit & Hn). rewrite Hit.
    cbn [mbind option_bind]. cbn [next_in] in Hn. rewrite Z.eqb_refl in Hn.
    pose proof (linked_range _ _ i Hl (list_elem_of_here _ _)) as Hir.
    rewrite set_item_eq by exact Hir. cbn [mbind option_bind].
    cbn [app] in Hnd. pose proof Hnd as Hnd'. apply NoDup_cons in Hnd' as [Hi Hnd'].
    assert (Hil : i ∉ l) by (intros C; apply Hi, elem_of_app; left; exact C).
    assert (HiF : i ∉ F0) by (intros C; apply Hi, elem_of_app; right; exact C).
    set (nit := mk_item None (key_length it) (invalid_value t) (first_free t)).
    set (t1 := set_first_free (set_items t (<[Z.to_nat i := nit]> (items t))) i).
    assert (Hrd1 : forall x, rd (items t1) x = if x =? i then Some nit else rd (items t) x)
      by (intros x; cbn [t1 items set_first_free set_items]; apply rd_insert; exact Hir).
    assert (Hsame : forall x, x <> i -> rd (items t1) x = rd (items t) x)
      by (intros x Hx; rewrite Hrd1; replace (x =? i) with false
            by (symmetry; apply Z.eqb_neq; exact Hx); reflexivity).
    destruct (IH t1 (evict w (value it)) (i :: F0) f) as
      (t' & its & E & F2 & Ef & Hl' & Hlen & Hun & E1 & E2 & E3 & E4 & E5 & E6 & E7 & E8).
    + assert (Hnl : NoDup (i :: l)) by (constructor; [exact Hil|apply NoDup_app in Hnd' as (Hnd1 & _); exact Hnd1]).
      eapply linked_ext; [eapply linked_tail; [exact Hl|exact Hnl]|].
      intros x Hx. apply Hsame. intros ->. contradiction.
    + apply (linked_cons _ _ _ nit).
      * eapply linked_ext; [exact HF|]. intros x Hx. apply Hsame. intros ->. contradiction.
      * exact HiF.
      * rewrite Hrd1, Z.eqb_refl. reflexivity.
      * exact Hf.
    + rewrite <- Permutation_middle. exact Hnd.
    + intros C. apply HN, list_elem_of_further. exact C.
    + reflexivity.
    + cbn in Hfu. lia.
    + rewrite Hn. fold nit. fold t1. rewrite E.
      exists t', (it :: its). cbn [w_alloc w_evicted evict map].
      rewrite <- app_assoc. cbn [app]. split; [reflexivity|].
      assert (Er : rev (i :: l) ++ F0 = rev l ++ i :: F0)
        by (cbn [rev]; rewrite <- app_assoc; reflexivity).
      rewrite Er.
      split; [constructor; [exact Hit|]|].
      { eapply forall2_mem_impl; [exact F2|]. intros x y Hx Hy. rewrite <- Hsame; [exact Hy|].
        intros ->. contradiction. }
      split; [exact Ef|]. split; [exact Hl'|].
      split; [rewrite Hlen; cbn [t1 items set_first_free set_items]; apply length_insert|].
      split.
      { intros x Hx. rewrite Hun by (intros C; apply Hx, list_elem_of_further, C).
        apply Hsame. intros ->. apply Hx, list_elem_of_here. }
      rewrite E1, E2, E3, E4, E5, E6, E7, E8. cbn. repeat split.
Qed.

Lemma rm_last L : NoDup L -> L <> [] -> rm (List.last L NONE) L = removelast L.
Proof.
  induction L as [|x L IH]; intros Hnd Hne; [congruence|].
  destruct L as [|y L].
  - cbn. unfold rm. cbn. destruct (Z.eq_dec x x); [reflexivity|congruence].
  - apply NoDup_cons in Hnd as [Hx Hnd].
    rewrite llast_cons. change (removelast (x :: y :: L)) with (x :: removelast (y :: L)).
    rewrite <- IH by (auto; discriminate).
    assert (Hl : List.last (y :: L) x ∈ y :: L) by (apply llast_mem; discriminate).
    rewrite (llast_indep (y :: L) x NONE) in * by discriminate.
    unfold rm. cbn [List.remove]. destruct (Z.eq_dec (List.last (y :: L) NONE) x) as [E|E].
    + rewrite E in Hl. contradiction.
    + reflexivity.
Qed.

Lemma evict_post_intro t t' F ch L h :
  lt_repr t F ch L -> 0 <= h < hash_table_size t -> h ∈ L ->
  lru_repr t' (rm h L) ->
  hash_table_size t' = hash_table_size t -> num_items t' = num_items t ->
  length (hash_table t') = length (hash_table t) ->
  (forall b, b <> h -> rd (hash_table t') b = rd (hash_table t) b) ->
  rd (hash_table t') h = Some NONE ->
  length (items t') = length (items t) ->
  first_free t' = hd NONE (rev (ch h) ++ F) ->
  linked (items t') (rev (ch h) ++ F) ->
  (forall x, x ∉ ch h -> rd (items t') x = rd (items t) x) ->
  lt_repr t' (rev (ch h) ++ F) (upd ch h []) (rm h L).
Proof.
  intros R Hh HhL R' Es En Ehl Eht Eh Eil Ef Hl Hun.
  assert (Hother : forall b x, 0 <= b < hash_table_size t -> b <> h -> x ∈ ch b ->
                     rd (items t') x = rd (items t) x).
  { intros b x Hb Hbh Hx. apply Hun. intros C.
    exact (lt_rows_disjoint _ _ _ _ _ _ _ R Hb Hh Hbh Hx C). }
  constructor.
  - exact R'.
  - rewrite Ehl, Es. exact (lt_ht_len _ _ _ _ R).
  - rewrite En, Eil. exact (lt_num _ _ _ _ R).
  - rewrite En. exact (lt_num_max _ _ _ _ R).
  - exact Ef.
  - exact Hl.
  - intros b Hb. rewrite Es in Hb. unfold upd.
    destruct (b =? h) eqn:Eb; zeq.
    + subst b. split; [exact Eh|]. split; intros x Hx; apply elem_of_nil in Hx; contradiction.
    + destruct (lt_rows _ _ _ _ R b Hb) as (H1 & H2 & H3). rewrite Eht by exact Eb.
      split; [exact H1|]. split.
      * eapply linked_ext; [exact H2|]. intros x Hx. eapply Hother; eauto.
      * eapply keyed_ext; [exact H3|]. intros x Hx. eapply Hother; eauto.
  - rewrite Es.
    set (X := concat (map ch (rows (hash_table_size t)))).
    set (X' := concat (map (upd ch h []) (rows (hash_table_size t)))).
    assert (P1 : ch h ++ X' ≡ₚ [] ++ X).
    { apply concat_upd_perm; [apply rows_nodup|apply rows_mem; exact Hh]. }
    cbn [app] in P1.
    assert (P : (rev (ch h) ++ F) ++ X' ≡ₚ F ++ X).
    { transitivity ((ch h ++ F) ++ X').
      { apply Permutation_app_tail, Permutation_app_tail. symmetry. apply Permutation_rev. }
      transitivity ((F ++ ch h) ++ X'); [apply Permutation_app_tail, Permutation_app_comm|].
      rewrite <- app_assoc. apply Permutation_app_head. exact P1. }
    rewrite P. exact (lt_disj _ _ _ _ R).
  - intros b Hb. rewrite Es in Hb. unfold upd. destruct (b =? h) eqn:Eb; zeq.
    + subst b. split; [intros C; apply rm_sub in C as [_ C]; congruence|congruence].
    + rewrite <- (lt_lru_mem _ _ _ _ R b Hb). split.
      * intros C. apply rm_sub in C as [C _]. exact C.
      * intros C. apply rm_mem; assumption.
Qed.

Lemma unlink_tail_links t L :
  lru_repr t L -> L <> [] ->
  exists lk,
    (if negb (prev_in NONE L (List.last L NONE) =? NONE)
     then set_link (set_links t (<[Z.to_nat (List.last L NONE * 2 + 0) := NONE]>
                                  (hash_table_lru_links t)))
            (prev_in NONE L (List.last L NONE)) 1 NONE
     else Some (set_links t (<[Z.to_nat (List.last L NONE * 2 + 0) := NONE]>
                              (hash_table_lru_links t)))) = Some (set_links t lk) /\
    Z.of_nat (length lk) = 2 * hash_table_size t /\
    forall b, 0 <= b < hash_table_size t ->
      rd lk (b * 2 + 0) = Some (prev_in NONE (rm (List.last L NONE) L) b) /\
      rd lk (b * 2 + 1) = Some (next_in (rm (List.last L NONE) L) b).
Proof.
  intros R Hne. pose proof R as [Hs Hl Hnd Hr Hhd Htl Hlk].
  pose proof (lru_none_notin _ _ R) as HN.
  set (h := List.last L NONE) in *.
  assert (HhL : h ∈ L) by (apply llast_mem; exact Hne).
  assert (Hh : 0 <= h < hash_table_size t) by auto.
  assert (HhN : h <> NONE) by (intros E; apply HN; rewrite <- E; exact HhL).
  set (p := prev_in NONE L h).
  assert (Hp : p = NONE \/ p ∈ L) by (destruct (prev_in_in NONE L h HhL); auto).
  assert (Hph : p <> h) by (apply prev_in_neq; congruence).
  assert (Hn : next_in L h = NONE) by (apply next_in_last; exact Hnd).
  assert (Goal0 : forall lk, (forall b, 0 <= b < hash_table_size t ->
      rd lk (b * 2 + 0) = Some (if b =? h then NONE else prev_in NONE L b) /\
      rd lk (b * 2 + 1) = Some (if b =? p then NONE else next_in L b)) ->
    forall b, 0 <= b < hash_table_size t ->
      rd lk (b * 2 + 0) = Some (prev_in NONE (rm h L) b) /\
      rd lk (b * 2 + 1) = Some (next_in (rm h L) b)).
  { intros lk Hk b Hb. destruct (Hk b Hb) as [H0 H1]. rewrite H0, H1.
    pose proof (lru_ne_none _ _ _ R Hb) as HbN.
    rewrite prev_in_rm, next_in_rm by auto. fold p. rewrite Hn.
    split; zcases. }
  assert (Hold : forall b, 0 <= b < hash_table_size t ->
      rd (hash_table_lru_links t) (b * 2 + 0) = Some (prev_in NONE L b) /\
      rd (hash_table_lru_links t) (b * 2 + 1) = Some (next_in L b)).
  { intros b Hb. destruct (Hlk b Hb) as [H0 H1].
    rewrite get_link_eq in H0, H1 by lia. auto. }
  destruct Hp as [Hp|Hp].
  - rewrite Hp, Z.eqb_refl. cbn [negb].
    eexists. split; [reflexivity|]. split; [rewrite length_insert; lia|].
    apply Goal0. intros b Hb. destruct (Hold b Hb) as [H0 H1]. links_rw.
    rewrite H0, H1. rewrite Hp. split; [zcases|].
    replace (b =? NONE) with false
      by (symmetry; apply Z.eqb_neq; exact (lru_ne_none _ _ _ R Hb)). reflexivity.
  - assert (Hpr : 0 <= p < hash_table_size t) by auto.
    assert (HpN : p <> NONE) by (intros E; apply HN; rewrite <- E; exact Hp).
    replace (p =? NONE) with false by (symmetry; apply Z.eqb_neq; exact HpN). cbn [negb].
    rewrite set_link_eq by (cbn [hash_table_size set_links hash_table_lru_links];
                            rewrite ?length_insert; lia).
    eexists. split; [reflexivity|].
    split; [cbn [hash_table_lru_links set_links]; rewrite !length_insert; lia|].
    apply Goal0. intros b Hb. destruct (Hold b Hb) as [H0 H1].
    cbn [hash_table_lru_links set_links]. links_rw. rewrite H0, H1. split; zcases.
Qed.

Lemma remove_lru_hit t w F ch L :
  lt_repr t F ch L -> L <> [] ->
  exists t' its, lrutrack_remove_lru t w =
      Some (LRUTRACK_OK, t', mk_world (w_alloc w) (w_evicted w ++ map value its)) /\
    Forall2 (fun i it => rd (items t) i = Some it) (ch (List.last L NONE)) its /\
    lt_repr t' (rev (ch (List.last L NONE)) ++ F) (upd ch (List.last L NONE) [])
      (rm (List.last L NONE) L) /\
    (forall x, x ∉ ch (List.last L NONE) -> rd (items t') x = rd (items t) x) /\
    seed t' = seed t /\ hash_table_size t' = hash_table_size t /\
    invalid_value t' = invalid_value t.
Proof.
  intros R Hne.
  pose proof (lt_lru _ _ _ _ R) as RL. pose proof RL as [Hs Hl Hnd Hr Hhd Htl Hlk].
  pose proof (lru_none_notin _ _ RL) as HN.
  destruct (unlink_tail_links t L RL Hne) as (lk & Elk & Hlkl & Hlk').
  set (h := List.last L NONE) in *.
  assert (HhL : h ∈ L) by (apply llast_mem; exact Hne).
  assert (Hh : 0 <= h < hash_table_size t) by auto.
  assert (HhN : h <> NONE) by (intros E; apply HN; rewrite <- E; exact HhL).
  set (p := prev_in NONE L h) in *.
  pose proof (lt_ht_len _ _ _ _ R) as Hhl.
  destruct (lt_rows _ _ _ _ R h Hh) as (Hht & Hlh & _).
  pose proof (lt_row_nodup _ _ _ _ _ R Hh) as Hndh.
  unfold lrutrack_remove_lru. rewrite Htl. fold h.
  replace (h =? NONE) with false by (symmetry; apply Z.eqb_neq; exact HhN).
  destruct (Hlk h Hh) as [Hh0 _]. rewrite Hh0. cbn [mbind option_bind]. fold p.
  rewrite set_link_eq by (auto; lia). cbn [mbind option_bind].
  rewrite Elk. cbn [mbind option_bind hash_table lru_tail set_links]. rewrite Htl. fold h. rewrite Hht.
  cbn [mbind option_bind].
  rewrite set_ht_eq by (cbn [hash_table set_links]; lia). cbn [mbind option_bind].
  cbn [lru_head lru_tail set_hash_table set_links]. rewrite Hhd, Htl. fold h.
  change (hash_table (set_links t lk)) with (hash_table t).
  set (tc := set_hash_table (set_links t lk) (<[Z.to_nat h := NONE]> (hash_table t))).
  set (td := set_lru_tail (if hd NONE L =? h then set_lru_head tc p else tc) p).
  assert (Ed : hash_table td = <[Z.to_nat h := NONE]> (hash_table t) /\
               hash_table_lru_links td = lk /\ items td = items t /\
               num_items td = num_items t /\ hash_table_size td = hash_table_size t /\
               first_free td = first_free t /\ seed td = seed t /\
               invalid_value td = invalid_value t /\ lru_tail td = p /\
               lru_head td = hd NONE (rm h L)).
  { unfold td, tc. destruct (hd NONE L =? h) eqn:E; zeq; cbn; repeat split.
    - pose proof (lru_singleton L Hnd Hne) as HL. rewrite E in HL.
      specialize (HL eq_refl). unfold p. rewrite HL. cbn [prev_in rm List.remove].
      rewrite Z.eqb_refl. destruct (Z.eq_dec h h); [reflexivity|congruence].
    - rewrite Hhd, hd_rm by auto. replace (hd NONE L =? h) with false
        by (symmetry; apply Z.eqb_neq; exact E). reflexivity. }
  destruct Ed as (D1 & D2 & D3 & D4 & D5 & D6 & D7 & D8 & D9 & D10).
  assert (RD : lru_repr td (rm h L)).
  { constructor.
    - rewrite D5. exact Hs.
    - rewrite D2, D5. exact Hlkl.
    - apply rm_nodup. exact Hnd.
    - intros b Hb. rewrite D5. apply rm_sub in Hb as [Hb _]. auto.
    - exact D10.
    - rewrite D9, last_rm by auto. fold h. rewrite Z.eqb_refl. reflexivity.
    - intros b Hb. rewrite D5 in Hb. rewrite !get_link_eq by (rewrite ?D5; lia).
      rewrite D2. exact (Hlk' b Hb). }
  assert (Hchn : NoDup (ch h ++ F)).
  { pose proof (lt_disj _ _ _ _ R) as D.
    assert (P1 : ch h ++ concat (map (upd ch h []) (rows (hash_table_size t))) ≡ₚ
                 [] ++ concat (map ch (rows (hash_table_size t))))
      by (apply concat_upd_perm; [apply rows_nodup|apply rows_mem; exact Hh]).
    cbn [app] in P1. rewrite <- P1, app_assoc in D.
    apply NoDup_app in D as (D & _). rewrite <- Permutation_app_comm. exact D. }
  destruct (evict_chain_spec (ch h) td w F (S (length (items td)))) as
    (t' & its & E & F2 & Ef & Hl' & Hlen & Hun & E1 & E2 & E3 & E4 & E5 & E6 & E7 & E8).
  - rewrite D3. exact Hlh.
  - rewrite D3. exact (lt_free _ _ _ _ R).
  - exact Hchn.
  - intros C. exact (chain_not_none _ _ _ _ _ _ R Hh C eq_refl).
  - rewrite D6. exact (lt_free_head _ _ _ _ R).
  - rewrite D3. pose proof (linked_length _ _ Hlh Hndh). lia.
  - fold td. rewrite E. exists t', its. split; [reflexivity|].
    rewrite D3 in F2. split; [exact F2|].
    split.
    + apply (evict_post_intro t t' F ch L h R Hh HhL).
      * apply (lru_repr_data td); [exact RD|congruence..].
      * congruence.
      * congruence.
      * rewrite E1, D1, length_insert. reflexivity.
      * intros b Hb. rewrite E1, D1. rewrite rd_insert by lia.
        replace (b =? h) with false by (symmetry; apply Z.eqb_neq; exact Hb). reflexivity.
      * rewrite E1, D1, rd_insert by lia. rewrite Z.eqb_refl. reflexivity.
      * rewrite Hlen, D3. reflexivity.
      * exact Ef.
      * exact Hl'.
      * intros x Hx. rewrite Hun by exact Hx. rewrite D3. reflexivity.
    + split; [intros x Hx; rewrite Hun by exact Hx; rewrite D3; reflexivity|].
      split; [congruence|]. split; congruence.
Qed.

Lemma forall2_rd_uniq (its : list lrutrack_item_t) l xs ys :
  Forall2 (fun i it => rd its i = Some it) l xs ->
  Forall2 (fun i it => rd its i = Some it) l ys -> xs = ys.
Proof.
  intros H1. revert ys. induction H1 as [|i x l xs Hx _ IH]; intros ys H2.
  - inversion H2. reflexivity.
  - inversion H2 as [|? y ? ys' Hy H2']. subst. f_equal; [congruence|]. apply IH. exact H2'.
Qed.

Lemma row_items_repr t F ch L b :
  lt_repr t F ch L -> 0 <= b < hash_table_size t ->
  exists its, row_items t b = Some its /\ Forall2 (fun i it => rd (items t) i = Some it) (ch b) its.
Proof.
  intros R Hb. destruct (lt_rows _ _ _ _ R b Hb) as (Hht & Hl & _).
  pose proof (lt_row_nodup _ _ _ _ _ R Hb) as Hnd.
  unfold row_items. rewrite Hht. cbn [mbind option_bind].
  apply chain_walk_linked; [exact Hl|exact Hnd| |].
  - intros C. exact (chain_not_none _ _ _ _ _ _ R Hb C eq_refl).
  - pose proof (linked_length _ _ Hl Hnd). lia.
Qed.

Lemma remove_lru_none t w F ch :
  lt_repr t F ch [] -> lrutrack_remove_lru t w = Some (LRUTRACK_NOT_FOUND, t, w).
Proof.
  intros R. unfold lrutrack_remove_lru.
  rewrite (lru_tail_eq _ _ (lt_lru _ _ _ _ R)). reflexivity.
Qed.

(** On a tracker with an empty LRU list, [lrutrack_remove_lru] returns
    NOT_FOUND and changes nothing. *)
Theorem lrutrack_remove_lru_empty t w :
  lrutrack_wf t -> lru_list t = Some [] ->
  lrutrack_remove_lru t w = Some (LRUTRACK_NOT_FOUND, t, w).
Proof.
  intros (F & ch & L & R) E. pose proof (lru_list_lt _ _ _ _ _ R E) as <-.
  eapply remove_lru_none; exact R.
Qed.

(** On a non-empty LRU list, [lrutrack_remove_lru] evicts the values of the
    tail row in chain order, drops that row from the end of the LRU list,
    empties it, keeps the tracker well formed and keeps every other row's
    lookups. *)
Theorem lrutrack_remove_lru_tail t w L :
  lrutrack_wf t -> lru_list t = Some L -> L <> [] ->
  exists t' its, row_items t (List.last L NONE) = Some its /\
    lrutrack_remove_lru t w =
      Some (LRUTRACK_OK, t', mk_world (w_alloc w) (w_evicted w ++ map value its)) /\
    lrutrack_wf t' /\ lru_list t' = Some (removelast L) /\
    (forall k, bucket t k = List.last L NONE -> lrutrack_use t' k = Some (invalid_value t, t')) /\
    (forall k, bucket t k <> List.last L NONE ->
       fst <$> lrutrack_use t' k = fst <$> lrutrack_use t k).
Proof.
  intros (F & ch & L0 & R) EL Hne. pose proof (lru_list_lt _ _ _ _ _ R EL) as <-.
  destruct (remove_lru_hit t w F ch L R Hne) as (t' & its & E & F2 & R' & Hun & Es & Eh & Ei).
  pose proof (lt_lru _ _ _ _ R) as RL.
  set (h := List.last L NONE) in *.
  assert (Hh : 0 <= h < hash_table_size t)
    by (apply (lru_range _ _ RL), llast_mem, Hne).
  exists t', its. split.
  { destruct (row_items_repr _ _ _ _ _ R Hh) as (its' & Er & F2').
    rewrite Er. f_equal. exact (forall2_rd_uniq _ _ _ _ F2' F2). }
  split; [exact E|]. split; [eexists _, _, _; exact R'|].
  split; [rewrite (lru_list_repr _ _ (lt_lru _ _ _ _ R')); f_equal;
          apply rm_last; [exact (lru_nodup _ _ RL)|exact Hne]|].
  assert (Hb : forall k, bucket t' k = bucket t k) by (intros k; apply bucket_eq; assumption).
  split.
  - intros k Hk. rewrite <- Ei. apply (use_miss _ _ _ _ _ R'). rewrite Hb, Hk. unfold upd.
    rewrite Z.eqb_refl. reflexivity.
  - intros k Hk. pose proof (bucket_range _ _ _ _ k R) as Hbk.
    assert (Hc : forall x, x ∈ ch (bucket t k) -> rd (items t') x = rd (items t) x).
    { intros x Hx. apply Hun. intros C.
      exact (lt_rows_disjoint _ _ _ _ _ _ _ R Hbk Hh Hk Hx C). }
    apply (use_view _ _ _ _ _ _ _ _ _ R R').
    + apply Hb.
    + exact Ei.
    + unfold upd. replace (bucket t k =? h) with false
        by (symmetry; apply Z.eqb_neq; exact Hk). apply find_in_rd. exact Hc.
    + intros Hn. destruct (find_in_mem (items t) k (ch (bucket t k))) as [C|C]; [contradiction|].
      rewrite (Hc _ C). reflexivity.
Qed.

Lemma clear_chain_spec l : forall t w fuel,
  linked (items t) l -> NoDup l -> NONE ∉ l -> (length l < fuel)%nat ->
  exists its' its, lrutrack_clear_chain fuel (hd NONE l) t w =
      Some (set_items t its', mk_world (w_alloc w) (w_evicted w ++ map value its)) /\
    Forall2 (fun i it => rd (items t) i = Some it) l its /\
    length its' = length (items t) /\
    (forall x, x ∉ l -> rd its' x = rd (items t) x).
Proof.
  induction l as [|i l IH]; intros t w fuel Hl Hnd HN Hfu;
    (destruct fuel as [|f]; [cbn in Hfu; lia|]); cbn [lrutrack_clear_chain hd].
  - rewrite Z.eqb_refl. exists (items t), []. cbn [map]. rewrite app_nil_r.
    destruct t, w. split; [reflexivity|]. split; [constructor|]. auto.
  - assert (HiN : i <> NONE) by (intros ->; apply HN, list_elem_of_here).
    replace (i =? NONE) with false by (symmetry; apply Z.eqb_neq; exact HiN).
    destruct (Hl i (list_elem_of_here _ _)) as (it & Hit & Hn). rewrite Hit.
    cbn [mbind option_bind]. cbn [next_in] in Hn. rewrite Z.eqb_refl in Hn.
    pose proof (linked_range _ _ i Hl (list_elem_of_here _ _)) as Hir.
    rewrite set_item_eq by exact Hir. cbn [mbind option_bind].
    apply NoDup_cons in Hnd as [Hil Hnd'].
    set (nit := mk_item None (key_length it) (invalid_value t) (next it)).
    set (t1 := set_items t (<[Z.to_nat i := nit]> (items t))).
    assert (Hsame : forall x, x <> i -> rd (items t1) x = rd (items t) x).
    { intros x Hx. cbn [t1 items set_items]. rewrite rd_insert by exact Hir.
      replace (x =? i) with false by (symmetry; apply Z.eqb_neq; exact Hx). reflexivity. }
    destruct (IH t1 (evict w (value it)) f) as (its' & its & E & F2 & Hlen & Hun).
    + eapply linked_ext; [eapply linked_tail; [exact Hl|constructor; assumption]|].
      intros x Hx. apply Hsame. intros ->. contradiction.
    + exact Hnd'.
    + intros C. apply HN, list_elem_of_further. exact C.
    + cbn in Hfu. lia.
    + rewrite Hn. fold nit. fold t1. rewrite E. exists its', (it :: its).
      cbn [w_alloc w_evicted evict map]. rewrite <- app_assoc. cbn [app].
      split; [reflexivity|].
      split; [constructor; [exact Hit|]|].
      { eapply forall2_mem_impl; [exact F2|]. intros x y Hx Hy. rewrite <- Hsame; [exact Hy|].
        intros ->. contradiction. }
      split; [rewrite Hlen; cbn [t1 items set_items]; apply length_insert|].
      intros x Hx. rewrite Hun by (intros C; apply Hx, list_elem_of_further, C).
      apply Hsame. intros ->. apply Hx, list_elem_of_here.
Qed.

Lemma set_items_id t : set_items t (items t) = t.
Proof. destruct t. reflexivity. Qed.

Lemma clear_rows_spec t0 F ch L rs : lt_repr t0 F ch L -> NoDup rs ->
  (forall b, b ∈ rs -> 0 <= b < hash_table_size t0) ->
  forall its w, length its = length (items t0) ->
  (forall b x, b ∈ rs -> x ∈ ch b -> rd its x = rd (items t0) x) ->
  exists its' itss, lrutrack_clear_rows rs (set_items t0 its) w =
      Some (set_items t0 its', mk_world (w_alloc w) (w_evicted w ++ concat (map (map value) itss))) /\
    Forall2 (fun b xs => row_items t0 b = Some xs) rs itss /\
    length its' = length (items t0) /\
    (forall x, (forall b, b ∈ rs -> x ∉ ch b) -> rd its' x = rd its x).
Proof.
  intros R. induction rs as [|b rs IH]; intros Hnd Hr its w Hlen Hc; cbn [lrutrack_clear_rows].
  - exists its, []. cbn. rewrite app_nil_r. destruct w. split; [reflexivity|]. auto.
  - apply NoDup_cons in Hnd as [Hb Hnd].
    assert (Hbr : 0 <= b < hash_table_size t0) by (apply Hr, list_elem_of_here).
    destruct (lt_rows _ _ _ _ R b Hbr) as (Hht & Hl & _).
    pose proof (lt_row_nodup _ _ _ _ _ R Hbr) as Hndb.
    cbn [hash_table items set_items]. rewrite Hht. cbn [mbind option_bind].
    assert (Hcb : forall x, x ∈ ch b -> rd its x = rd (items t0) x)
      by (intros x Hx; apply (Hc b); [apply list_elem_of_here|exact Hx]).
    destruct (clear_chain_spec (ch b) (set_items t0 its) w (S (length its))) as
      (its1 & xs & E & F2 & Hlen1 & Hun1); cbn [items set_items].
    + eapply linked_ext; [exact Hl|exact Hcb].
    + exact Hndb.
    + intros C. exact (chain_not_none _ _ _ _ _ _ R Hbr C eq_refl).
    + pose proof (linked_length _ _ Hl Hndb). lia.
    + rewrite E. cbn [mbind option_bind].
      cbn [items set_items] in F2, Hlen1, Hun1.
      destruct (IH Hnd (fun b' Hb' => Hr b' (list_elem_of_further _ _ _ Hb')) its1
                   (mk_world (w_alloc w) (w_evicted w ++ map value xs)))
        as (its' & itss & E' & F2' & Hlen' & Hun').
      * lia.
      * intros b' x Hb' Hx. rewrite Hun1.
        -- apply (Hc b'); [apply list_elem_of_further; exact Hb'|exact Hx].
        -- intros C. assert (b' <> b) by (intros ->; contradiction).
           exact (lt_rows_disjoint _ _ _ _ _ _ _ R (Hr b' (list_elem_of_further _ _ _ Hb')) Hbr
                    H Hx C).
      * change (set_items (set_items t0 its) its1) with (set_items t0 its1). rewrite E'.
        exists its', (xs :: itss). cbn [w_alloc w_evicted map concat].
        rewrite <- app_assoc. split; [reflexivity|].
        split.
        { constructor; [|exact F2'].
          destruct (row_items_repr _ _ _ _ _ R Hbr) as (xs0 & Er & F0). rewrite Er. f_equal.
          apply (forall2_rd_uniq (items t0) (ch b)); [exact F0|].
          eapply forall2_mem_impl; [exact F2|]. intros x y Hx Hy. rewrite <- Hcb; assumption. }
        split; [lia|].
        intros x Hx. rewrite Hun'.
        -- apply Hun1. apply Hx, list_elem_of_here.
        -- intros b' Hb'. apply Hx, list_elem_of_further, Hb'.
Qed.

Lemma memset_full {A} (a : list A) n v :
  Z.of_nat (length a) = n -> memset_words a n v = Some (repeat v (Z.to_nat n)).
Proof.
  intros H. unfold memset_words. subst n.
  replace ((0 <=? Z.of_nat (length a)) && (Z.of_nat (length a) <=? Z.of_nat (length a))) with true
    by (symmetry; apply andb_true_iff; split; [apply Z.leb_le; lia|apply Z.leb_le; lia]).
  rewrite Nat2Z.id, drop_all, app_nil_r. reflexivity.
Qed.

Lemma remove_all_repr t w F ch L :
  lt_repr t F ch L -> num_items t <> 0 ->
  exists t' itss, lrutrack_remove_all t w =
      Some (t', mk_world (w_alloc w) (w_evicted w ++ concat (map (map value) itss))) /\
    Forall2 (fun b xs => row_items t b = Some xs) (rows (hash_table_size t)) itss /\
    lt_repr t' (zrange 0 (num_items t)) (fun _ => []) [] /\
    seed t' = seed t /\ hash_table_size t' = hash_table_size t /\
    invalid_value t' = invalid_value t.
Proof.
  intros R Hn0.
  pose proof (lt_lru _ _ _ _ R) as RL. pose proof (lru_hts _ _ RL) as Hs.
  pose proof (lru_links_len _ _ RL) as Hll. pose proof (lt_ht_len _ _ _ _ R) as Hhl.
  pose proof (lt_num _ _ _ _ R) as Hn. pose proof (lt_num_max _ _ _ _ R) as Hm.
  unfold lrutrack_remove_all.
  replace (lrutrack_clear_rows (rows (hash_table_size t)) t w) with
    (lrutrack_clear_rows (rows (hash_table_size t)) (set_items t (items t)) w)
    by (rewrite set_items_id; reflexivity).
  destruct (clear_rows_spec t F ch L (rows (hash_table_size t)) R (rows_nodup _)
              (fun b Hb => proj1 (rows_mem _ b) Hb) (items t) w eq_refl
              (fun _ _ _ _ => eq_refl))
    as (its' & itss & E & F2 & Hlen & _).
  rewrite E. cbn [mbind option_bind hash_table hash_table_lru_links set_items].
  rewrite (memset_full (hash_table t)) by exact Hhl. cbn [mbind option_bind].
  cbn [hash_table_size num_items set_items]. rewrite (memset_full (hash_table_lru_links t)) by lia. cbn [mbind option_bind].
  cbn [num_items set_links set_hash_table set_items items].
  replace (negb (num_items t =? 0)) with true by (symmetry; apply negb_true_iff, Z.eqb_neq; exact Hn0).
  set (n := num_items t) in *.
  assert (Hn1 : 1 <= n) by lia.
  unfold for_range. rewrite u32_small by (unfold NONE in Hm; lia).
  destruct (for_items_spec (S (length its')) (fun i it => with_next it (u32 (i + 1))) 0 (n - 1) its')
    as (a' & Ha & Hlen' & Hrd); [lia|lia|unfold NONE in Hm; lia|lia|].
  rewrite Ha. cbn [mbind option_bind].
  rewrite (Hrd (n - 1)) by lia.
  replace ((0 <=? n - 1) && (n - 1 <? n - 1)) with false
    by (symmetry; apply andb_false_iff; right; apply Z.ltb_ge; lia).
  destruct (rd_in_range its' (n - 1)) as (x & Hx); [lia|]. rewrite Hx. cbn [mbind option_bind].
  rewrite wr_ok by lia. cbn [mbind option_bind].
  eexists _, itss. split; [reflexivity|]. split; [exact F2|].
  split; [|cbn; auto].
  apply lt_repr_fresh; cbn.
  - apply lru_repr_fresh; cbn; auto.
  - reflexivity.
  - rewrite length_insert. lia.
  - exact Hm.
  - rewrite hd_zrange by lia. reflexivity.
  - intros i Hi. apply zrange_mem in Hi; [|lia].
    rewrite rd_insert by lia.
    rewrite next_in_zrange by lia.
    destruct (i =? n - 1) eqn:Ei; zeq.
    + subst i. eexists; split; [reflexivity|]. cbn. zbool. reflexivity.
    + rewrite Hrd by lia. zbool.
      destruct (rd_in_range its' i) as (y & Hy); [lia|]. rewrite Hy.
      eexists; split; [reflexivity|]. cbn. rewrite u32_small by (unfold NONE in Hm; lia).
      zbool. reflexivity.
  - apply zrange_nodup.
Qed.

Lemma rows_empty_values t F ch L rs itss :
  lt_repr t F ch L -> (forall b, b ∈ rs -> 0 <= b < hash_table_size t /\ ch b = []) ->
  Forall2 (fun b xs => row_items t b = Some xs) rs itss ->
  concat (map (map value) itss) = [].
Proof.
  intros R Hrs F2. induction F2 as [|b xs rs itss Hb _ IH]; [reflexivity|].
  destruct (Hrs b (list_elem_of_here _ _)) as [Hbr Hch].
  destruct (row_items_repr _ _ _ _ _ R Hbr) as (xs0 & Er & F0).
  rewrite Hch in F0. inversion F0. subst xs0. rewrite Hb in Er. injection Er as ->.
  cbn. apply IH. intros b' Hb'. apply Hrs, list_elem_of_further, Hb'.
Qed.

(** On a tracker with slots, [lrutrack_remove_all] evicts the values of every
    row, row by row in chain order, and leaves a well-formed tracker with an
    empty LRU list, first_free = 0, and only misses. *)
Theorem lrutrack_remove_all_clears t w :
  lrutrack_wf t -> num_items t <> 0 ->
  exists t' itss, lrutrack_remove_all t w =
      Some (t', mk_world (w_alloc w) (w_evicted w ++ concat (map (map value) itss))) /\
    Forall2 (fun b xs => row_items t b = Some xs) (rows (hash_table_size t)) itss /\
    lrutrack_wf t' /\ lru_list t' = Some [] /\ first_free t' = 0 /\
    forall k, lrutrack_use t' k = Some (invalid_value t, t').
Proof.
  intros (F & ch & L & R) Hn0.
  destruct (remove_all_repr t w F ch L R Hn0) as (t' & itss & E & F2 & R' & Es & Eh & Ei).
  exists t', itss. split; [exact E|]. split; [exact F2|].
  split; [eexists _, _, _; exact R'|].
  split; [apply lru_list_repr, (lt_lru _ _ _ _ R')|].
  split.
  - rewrite (lt_free_head _ _ _ _ R'). apply hd_zrange.
    pose proof (lt_num _ _ _ _ R). lia.
  - intros k. rewrite <- Ei. apply (use_miss _ _ _ _ _ R'). reflexivity.
Qed.

(** On a tracker with no slots, [lrutrack_remove_all] evicts nothing but sets
    first_free to 0; the result fails the internal check and every later
    insert reads slot 0 of the empty arena (undefined). *)
Theorem lrutrack_remove_all_no_slots t w :
  lrutrack_wf t -> num_items t = 0 ->
  exists t', lrutrack_remove_all t w = Some (t', w) /\ first_free t' = 0 /\
    lrutrack_check_internal_state t' = false /\
    forall w' k v, lrutrack_insert t' w' k v = None.
Proof.
  intros (F & ch & L & R) Hn0.
  pose proof (lt_lru _ _ _ _ R) as RL. pose proof (lru_hts _ _ RL) as Hs.
  pose proof (lru_links_len _ _ RL) as Hll. pose proof (lt_ht_len _ _ _ _ R) as Hhl.
  pose proof (lt_num _ _ _ _ R) as Hn.
  unfold lrutrack_remove_all.
  replace (lrutrack_clear_rows (rows (hash_table_size t)) t w) with
    (lrutrack_clear_rows (rows (hash_table_size t)) (set_items t (items t)) w)
    by (rewrite set_items_id; reflexivity).
  destruct (clear_rows_spec t F ch L (rows (hash_table_size t)) R (rows_nodup _)
              (fun b Hb => proj1 (rows_mem _ b) Hb) (items t) w eq_refl
              (fun _ _ _ _ => eq_refl))
    as (its' & itss & E & F2 & Hlen & _).
  rewrite (rows_empty_values t F ch L (rows (hash_table_size t)) itss R) in E;
    [|intros b Hb; apply rows_mem in Hb; split; [exact Hb|eapply chains_empty; eauto]|exact F2].
  rewrite app_nil_r in E.
  rewrite E. cbn [mbind option_bind hash_table hash_table_lru_links set_items].
  rewrite (memset_full (hash_table t)) by exact Hhl. cbn [mbind option_bind].
  cbn [hash_table_size num_items set_items].
  rewrite (memset_full (hash_table_lru_links t)) by lia. cbn [mbind option_bind].
  cbn [num_items set_links set_hash_table set_items items]. rewrite Hn0. cbn [negb Z.eqb].
  destruct w. eexists. split; [reflexivity|]. split; [reflexivity|].
  assert (Hits : its' = []) by (destruct its'; [reflexivity|]; cbn in Hlen; lia).
  subst its'. split.
  - unfold lrutrack_check_internal_state. cbn. rewrite Hn0. cbn [Z.ltb Z.compare]. rewrite !andb_false_r. reflexivity.
  - intros w' k v. unfold lrutrack_insert. cbn. reflexivity.
Qed.

Lemma destroy_loop_inv its inv is w :
  (forall i, i ∈ is -> exists it, rd its i = Some it /\ value it = inv) ->
  lrutrack_destroy_loop its inv is w = Some w.
Proof.
  induction is as [|i is IH]; intros H; [reflexivity|].
  cbn [lrutrack_destroy_loop]. destruct (H i) as (it & E & Ev); [left|].
  rewrite E. cbn [mbind option_bind]. rewrite Ev, Z.eqb_refl. cbn [negb].
  apply IH. intros x Hx. apply H. right. exact Hx.
Qed.

(** [lrutrack_destroy] on a freshly created tracker evicts nothing, whatever [invalid_value] is. *)
Theorem lrutrack_create_destroy hts n sd inv w t w' w2 :
  0 <= n <= NONE ->
  lrutrack_create hts n sd inv w = Some (Some t, w') ->
  lrutrack_destroy t w2 = Some w2.
Proof.
  intros Hn E. unfold lrutrack_create in E.
  destruct (malloc w) as [r1 w1]; destruct r1; [discriminate|].
  destruct (malloc w1) as [r2 w2']; destruct r2; [discriminate|].
  destruct (malloc w2') as [r3 w3]; destruct r3; [discriminate|].
  destruct (n =? 0) eqn:En; zeq; cbn [negb] in E.
  - subst n. injection E as <- _. reflexivity.
  - destruct (malloc w3) as [r4 w4]; destruct r4 as [|j4]; [discriminate|].
    destruct (arena_bytes_wrap SIZEOF_ITEM n); [discriminate|].
    unfold for_range in E. rewrite u32_small in E by (unfold NONE in Hn; lia).
    match type of E with context [for_items ?f ?bd ?i ?hi ?a] =>
      destruct (for_items_spec f bd i hi a) as (a' & Ha & Hlen & Hrd) end;
      [lia|rewrite repeat_length; lia|unfold NONE in Hn; lia|rewrite repeat_length; lia|].
    rewrite Ha in E. cbn [mbind option_bind] in E.
    rewrite (Hrd (n - 1)) in E by lia.
    replace ((0 <=? n - 1) && (n - 1 <? n - 1)) with false in E
      by (symmetry; apply andb_false_iff; right; apply Z.ltb_ge; lia).
    rewrite rd_repeat in E by lia. cbn [mbind option_bind] in E.
    rewrite wr_ok in E by (rewrite Hlen, repeat_length; lia).
    injection E as <- _. unfold lrutrack_destroy. cbn [items invalid_value num_items
      set_first_free set_num_items set_items].
    apply destroy_loop_inv. intros i Hi. apply rows_mem in Hi.
    rewrite rd_insert by (rewrite Hlen, repeat_length; lia).
    destruct (i =? n - 1) eqn:Ei; zeq.
    + eexists; split; [reflexivity|]. reflexivity.
    + rewrite Hrd by lia. zbool. rewrite rd_repeat by lia.
      eexists; split; [reflexivity|]. reflexivity.
Qed.

Lemma key_b_neq_a : key_b <> key_a.
Proof. unfold key_a, key_b. discriminate. Qed.

Lemma lrutrack_hash_lt_size_witness :
  0 < 4 <= 2 ^ 32 /\ 0 <= lrutrack_hash key_a 1 0 4 < 4.
Proof. split; [lia|]. apply (lrutrack_hash_lt_size key_a 1 0 4). lia. Defined.

Lemma lrutrack_wf_internal_state_witness :
  lrutrack_wf lrutrack_a /\ lrutrack_check_internal_state lrutrack_a = true.
Proof. split; [exact lrutrack_a_wf|]. exact (lrutrack_wf_internal_state lrutrack_a lrutrack_a_wf). Defined.

Lemma lrutrack_create_empty_witness :
  0 < 4 <= 2 ^ 31 /\ 0 <= 4 <= NONE /\
  lrutrack_create 4 4 0 0 w_ok = Some (Some lrutrack_4, w_ok) /\
  lrutrack_check_internal_state lrutrack_4 = true /\ lru_list lrutrack_4 = Some [] /\
  forall k, lrutrack_use lrutrack_4 k = Some (0, lrutrack_4).
Proof.
  assert (H1 : 0 < 4 <= 2 ^ 31) by lia. assert (H2 : 0 <= 4 <= NONE) by (unfold NONE; lia).
  assert (H3 : lrutrack_create 4 4 0 0 w_ok = Some (Some lrutrack_4, w_ok)) by (vm_compute; reflexivity).
  split; [exact H1|]. split; [exact H2|]. split; [exact H3|].
  exact (lrutrack_create_empty 4 4 0 0 w_ok lrutrack_4 w_ok H1 H2 H3).
Defined.

Lemma lrutrack_insert_frame_witness :
  lrutrack_wf lrutrack_4 /\
  lrutrack_insert lrutrack_4 w_ok key_a 1 = Some (LRUTRACK_OK, lrutrack_a, w_ok) /\
  key_b <> key_a /\
  fst <$> lrutrack_use lrutrack_a key_b = fst <$> lrutrack_use lrutrack_4 key_b.
Proof.
  assert (H : lrutrack_insert lrutrack_4 w_ok key_a 1 = Some (LRUTRACK_OK, lrutrack_a, w_ok))
    by (vm_compute; reflexivity).
  split; [exact lrutrack_4_wf|]. split; [exact H|]. split; [exact key_b_neq_a|].
  exact (lrutrack_insert_frame lrutrack_4 w_ok key_a 1 lrutrack_a w_ok key_b
           lrutrack_4_wf H key_b_neq_a).
Defined.

Lemma lrutrack_insert_oom_keeps_witness :
  lrutrack_wf lrutrack_4 /\ first_free lrutrack_4 <> NONE /\
  lrutrack_insert lrutrack_4 w_fail_next key_a 1 = Some (LRUTRACK_OOM, lrutrack_4, w_ok) /\
  lrutrack_wf lrutrack_4 /\
  forall k', fst <$> lrutrack_use lrutrack_4 k' = fst <$> lrutrack_use lrutrack_4 k'.
Proof.
  assert (H1 : first_free lrutrack_4 <> NONE) by (vm_compute; discriminate).
  assert (H2 : lrutrack_insert lrutrack_4 w_fail_next key_a 1 = Some (LRUTRACK_OOM, lrutrack_4, w_ok))
    by (vm_compute; reflexivity).
  split; [exact lrutrack_4_wf|]. split; [exact H1|]. split; [exact H2|].
  exact (lrutrack_insert_oom_keeps lrutrack_4 w_fail_next key_a 1 lrutrack_4 w_ok
           lrutrack_4_wf H1 H2).
Defined.

Lemma lrutrack_use_frame_witness :
  lru_list lrutrack_adb = Some [0; 2] /\
  exists t', lrutrack_use lrutrack_adb key_a = Some (1, t') /\ lru_list t' = Some [2; 0] /\
  hash_table t' = hash_table lrutrack_adb /\ items t' = items lrutrack_adb /\
  num_items t' = num_items lrutrack_adb /\
  hash_table_size t' = hash_table_size lrutrack_adb /\
  first_free t' = first_free lrutrack_adb /\
  seed t' = seed lrutrack_adb /\ invalid_value t' = invalid_value lrutrack_adb /\
  (forall k' klen h, lrutrack_find_index t' k' klen h = lrutrack_find_index lrutrack_adb k' klen h) /\
  (lrutrack_wf lrutrack_adb -> lrutrack_wf t' /\
     forall k', fst <$> lrutrack_use t' k' = fst <$> lrutrack_use lrutrack_adb k').
Proof.
  split; [vm_compute; reflexivity|].
  destruct (lrutrack_use lrutrack_adb key_a) as [[x t']|] eqn:E; [|vm_compute in E; discriminate].
  assert (Hx : x = 1) by (vm_compute in E; congruence). subst x.
  assert (Hl : lru_list t' = Some [2; 0]) by (vm_compute in E; injection E as <-; vm_compute; reflexivity).
  exists t'. split; [reflexivity|]. split; [exact Hl|].
  exact (lrutrack_use_frame lrutrack_adb key_a 1 t' E).
Defined.

Lemma lrutrack_remove_frame_witness :
  lrutrack_wf lrutrack_a /\ key_b <> key_a /\
  exists t' w', lrutrack_remove lrutrack_a w_ok key_a = Some (LRUTRACK_OK, t', w') /\
    fst <$> lrutrack_use t' key_b = fst <$> lrutrack_use lrutrack_a key_b.
Proof.
  split; [exact lrutrack_a_wf|]. split; [exact key_b_neq_a|].
  destruct (lrutrack_remove lrutrack_a w_ok key_a) as [[[r t'] w']|] eqn:E;
    [|vm_compute in E; discriminate].
  assert (Hr : r = LRUTRACK_OK) by (vm_compute in E; vm_compute; congruence). subst r.
  exists t', w'. split; [reflexivity|].
  exact (lrutrack_remove_frame lrutrack_a w_ok key_a LRUTRACK_OK t' w' key_b
           lrutrack_a_wf E key_b_neq_a).
Defined.

Lemma lrutrack_remove_evicts_witness :
  lrutrack_wf lrutrack_a /\
  exists t1 r t' w', lrutrack_use lrutrack_a key_a = Some (1, t1) /\
    lrutrack_remove lrutrack_a w_ok key_a = Some (r, t', w') /\
    ((r = LRUTRACK_OK /\ w' = evict w_ok 1) \/
     (r = LRUTRACK_NOT_FOUND /\ t' = lrutrack_a /\ w' = w_ok /\ 1 = invalid_value lrutrack_a)).
Proof.
  split; [exact lrutrack_a_wf|].
  destruct (lrutrack_use lrutrack_a key_a) as [[x t1]|] eqn:E1; [|vm_compute in E1; discriminate].
  assert (Hx : x = 1) by (vm_compute in E1; congruence). subst x.
  destruct (lrutrack_remove lrutrack_a w_ok key_a) as [[[r t'] w']|] eqn:E2;
    [|vm_compute in E2; discriminate].
  exists t1, r, t', w'. split; [reflexivity|]. split; [reflexivity|].
  exact (lrutrack_remove_evicts lrutrack_a w_ok key_a 1 t1 r t' w' lrutrack_a_wf E1 E2).
Defined.

Lemma lrutrack_insert_remove_restores_witness :
  lrutrack_wf lrutrack_4 /\
  lrutrack_find_index lrutrack_4 key_a (key_len key_a) (bucket lrutrack_4 key_a) = Some NONE /\
  lrutrack_insert lrutrack_4 w_ok key_a 1 = Some (LRUTRACK_OK, lrutrack_a, w_ok) /\
  exists r t2 w3, lrutrack_remove lrutrack_a w_ok key_a = Some (r, t2, w3) /\
    r = LRUTRACK_OK /\ w3 = evict w_ok 1 /\
    forall k', fst <$> lrutrack_use t2 k' = fst <$> lrutrack_use lrutrack_4 k'.
Proof.
  assert (H1 : lrutrack_find_index lrutrack_4 key_a (key_len key_a) (bucket lrutrack_4 key_a)
               = Some NONE) by (vm_compute; reflexivity).
  assert (H2 : lrutrack_insert lrutrack_4 w_ok key_a 1 = Some (LRUTRACK_OK, lrutrack_a, w_ok))
    by (vm_compute; reflexivity).
  split; [exact lrutrack_4_wf|]. split; [exact H1|]. split; [exact H2|].
  destruct (lrutrack_remove lrutrack_a w_ok key_a) as [[[r t2] w3]|] eqn:E;
    [|vm_compute in E; discriminate].
  exists r, t2, w3. split; [reflexivity|].
  exact (lrutrack_insert_remove_restores lrutrack_4 w_ok key_a 1 lrutrack_a w_ok w_ok r t2 w3
           lrutrack_4_wf H1 H2 E).
Defined.

Lemma lrutrack_remove_lru_empty_witness :
  lrutrack_wf lrutrack_4 /\ lru_list lrutrack_4 = Some [] /\
  lrutrack_remove_lru lrutrack_4 w_ok = Some (LRUTRACK_NOT_FOUND, lrutrack_4, w_ok).
Proof.
  assert (H : lru_list lrutrack_4 = Some []) by (vm_compute; reflexivity).
  split; [exact lrutrack_4_wf|]. split; [exact H|].
  exact (lrutrack_remove_lru_empty lrutrack_4 w_ok lrutrack_4_wf H).
Defined.

Lemma lrutrack_remove_lru_tail_witness :
  lrutrack_wf lrutrack_adb /\ lru_list lrutrack_adb = Some [0; 2] /\ [0; 2] <> [] /\
  exists t' its, row_items lrutrack_adb (List.last [0; 2] NONE) = Some its /\
    map value its = [4; 1] /\
    lrutrack_remove_lru lrutrack_adb w_ok =
      Some (LRUTRACK_OK, t', mk_world (w_alloc w_ok) (w_evicted w_ok ++ map value its)) /\
    lrutrack_wf t' /\ lru_list t' = Some (removelast [0; 2]) /\
    (forall k, bucket lrutrack_adb k = List.last [0; 2] NONE ->
       lrutrack_use t' k = Some (invalid_value lrutrack_adb, t')) /\
    (forall k, bucket lrutrack_adb k <> List.last [0; 2] NONE ->
       fst <$> lrutrack_use t' k = fst <$> lrutrack_use lrutrack_adb k) /\
    fst <$> lrutrack_use t' key_b = Some 2 /\ fst <$> lrutrack_use t' key_d = Some 0.
Proof.
  assert (H1 : lru_list lrutrack_adb = Some [0; 2]) by (vm_compute; reflexivity).
  assert (H2 : [0; 2] <> @nil Z) by discriminate.
  split; [exact lrutrack_adb_wf|]. split; [exact H1|]. split; [exact H2|].
  destruct (lrutrack_remove_lru_tail lrutrack_adb w_ok [0; 2] lrutrack_adb_wf H1 H2)
    as (t' & its & Er & E & Hw & Hl & Hmiss & Hkeep).
  exists t', its. split; [exact Er|].
  split; [vm_compute in Er; injection Er as <-; reflexivity|].
  split; [exact E|]. split; [exact Hw|]. split; [exact Hl|].
  split; [exact Hmiss|]. split; [exact Hkeep|]. split.
  - rewrite (Hkeep key_b) by (vm_compute; discriminate). vm_compute. reflexivity.
  - rewrite (Hmiss key_d) by (vm_compute; reflexivity). vm_compute. reflexivity.
Defined.

Lemma lrutrack_remove_all_clears_witness :
  lrutrack_wf lrutrack_a /\ num_items lrutrack_a <> 0 /\
  exists t' itss, lrutrack_remove_all lrutrack_a w_ok =
      Some (t', mk_world (w_alloc w_ok) (w_evicted w_ok ++ concat (map (map value) itss))) /\
    Forall2 (fun b xs => row_items lrutrack_a b = Some xs) (rows (hash_table_size lrutrack_a)) itss /\
    lrutrack_wf t' /\ lru_list t' = Some [] /\ first_free t' = 0 /\
    forall k, lrutrack_use t' k = Some (invalid_value lrutrack_a, t').
Proof.
  assert (H : num_items lrutrack_a <> 0) by (vm_compute; discriminate).
  split; [exact lrutrack_a_wf|]. split; [exact H|].
  exact (lrutrack_remove_all_clears lrutrack_a w_ok lrutrack_a_wf H).
Defined.

Lemma lrutrack_created_4_0_wf : lrutrack_wf (lrutrack_created 4 0).
Proof.
  apply (wf_create 4 0 0 0 w_ok _ w_ok); [lia|unfold NONE; lia|vm_compute; reflexivity].
Qed.

Lemma lrutrack_remove_all_no_slots_witness :
  lrutrack_wf (lrutrack_created 4 0) /\ num_items (lrutrack_created 4 0) = 0 /\
  exists t', lrutrack_remove_all (lrutrack_created 4 0) w_ok = Some (t', w_ok) /\
    first_free t' = 0 /\ lrutrack_check_internal_state t' = false /\
    forall w' k v, lrutrack_insert t' w' k v = None.
Proof.
  assert (H : num_items (lrutrack_created 4 0) = 0) by (vm_compute; reflexivity).
  split; [exact lrutrack_created_4_0_wf|]. split; [exact H|].
  exact (lrutrack_remove_all_no_slots (lrutrack_created 4 0) w_ok lrutrack_created_4_0_wf H).
Defined.

Lemma lrutrack_create_destroy_witness :
  0 <= 4 <= NONE /\
  exists t w', lrutrack_create 4 4 0 5 w_ok = Some (Some t, w') /\
    lrutrack_destroy t w_ok = Some w_ok.
Proof.
  assert (H1 : 0 <= 4 <= NONE) by (unfold NONE; lia). split; [exact H1|].
  destruct (lrutrack_create 4 4 0 5 w_ok) as [[[t|] w']|] eqn:E;
    [|vm_compute in E; discriminate|vm_compute in E; discriminate].
  exists t, w'. split; [reflexivity|].
  exact (lrutrack_create_destroy 4 4 0 5 w_ok t w' w_ok H1 E).
Defined.

End LrutrackMore.

(** * SLRU v2: hashing, growth, round trips and eviction *)

Module Slru2Facts.
Import LrutrackFacts Slru2.

(** [slru_hash] with a non-zero table size returns a row index below the
    table size (with size 0 the final [%] is undefined). *)
Theorem slru2_hash_lt_size k len sd n :
  0 < n -> exists h, slru_hash k len sd n = Some h /\ 0 <= h < n.
Proof.
  intros Hn. unfold slru_hash. replace (n =? 0) with false by (symmetry; apply Z.eqb_neq; lia).
  eexists; split; [reflexivity|]. apply Z.mod_pos_bound. exact Hn.
Qed.

Lemma testbit_split a r n i :
  0 <= n -> 0 <= r < 2 ^ n -> 0 <= i ->
  Z.testbit (a * 2 ^ n + r) i = if i <? n then Z.testbit r i else Z.testbit a (i - n).
Proof.
  intros Hn Hr Hi. destruct (i <? n) eqn:E.
  - apply Z.ltb_lt in E. rewrite <- (Z.mod_pow2_bits_low _ n i) by lia.
    rewrite Z.add_comm, Z.mod_add by (apply Z.pow_nonzero; lia).
    rewrite Z.mod_small by lia. reflexivity.
  - apply Z.ltb_ge in E. replace i with ((i - n) + n) at 1 by lia.
    rewrite <- Z.div_pow2_bits by lia.
    replace ((a * 2 ^ n + r) / 2 ^ n) with a; [reflexivity|].
    rewrite Z.add_comm, Z.div_add by (apply Z.pow_nonzero; lia).
    rewrite Z.div_small by lia. lia.
Qed.

Lemma testbit_u32 z i : 0 <= i -> Z.testbit (u32 z) i = (i <? 32) && Z.testbit z i.
Proof.
  intros Hi. unfold u32. destruct (i <? 32) eqn:E.
  - apply Z.ltb_lt in E. apply Z.mod_pow2_bits_low. lia.
  - apply Z.ltb_ge in E. apply Z.mod_pow2_bits_high. lia.
Qed.

Lemma ctz_mask m c :
  0 <= m -> 0 <= c -> (2 * m + 1) * 2 ^ c < 2 ^ 32 ->
  Z.land (u32 (Z.lnot ((2 * m + 1) * 2 ^ c))) (u32 ((2 * m + 1) * 2 ^ c - 1)) = Z.ones c.
Proof.
  intros Hm Hc Hx.
  assert (Hp : 0 < 2 ^ c) by (apply Z.pow_pos_nonneg; lia).
  assert (Hc32 : c < 32).
  { destruct (Z.lt_ge_cases c 32) as [H|H]; [exact H|].
    assert (2 ^ 32 <= 2 ^ c) by (apply Z.pow_le_mono_r; lia). nia. }
  apply Z.bits_inj'. intros i Hi.
  rewrite Z.land_spec, !testbit_u32 by lia. rewrite Z.lnot_spec by lia.
  rewrite Z.testbit_ones_nonneg by lia.
  replace ((2 * m + 1) * 2 ^ c) with ((2 * m + 1) * 2 ^ c + 0) by lia.
  rewrite testbit_split by lia.
  replace ((2 * m + 1) * 2 ^ c + 0 - 1) with (m * 2 ^ (c + 1) + Z.ones c)
    by (rewrite Z.ones_equiv, Z.pow_add_r by lia; lia).
  rewrite testbit_split by (try rewrite Z.ones_equiv, Z.pow_add_r by lia; lia).
  rewrite Z.testbit_ones_nonneg by lia. rewrite Z.bits_0.
  destruct (i <? c) eqn:E1; [apply Z.ltb_lt in E1|apply Z.ltb_ge in E1].
  - replace (i <? c + 1) with true by (symmetry; apply Z.ltb_lt; lia).
    replace (i <? 32) with true by (symmetry; apply Z.ltb_lt; lia). reflexivity.
  - destruct (Z.eq_dec i c) as [->|Hne].
    + rewrite Z.sub_diag. replace (c <? c + 1) with true by (symmetry; apply Z.ltb_lt; lia).
      rewrite !andb_false_r. reflexivity.
    + replace (i <? c + 1) with false by (symmetry; apply Z.ltb_ge; lia).
      replace (i - c) with (Z.succ (i - (c + 1))) by lia.
      rewrite Z.testbit_odd_succ by lia.
      destruct (Z.testbit m (i - (c + 1))); rewrite ?andb_false_r; reflexivity.
Qed.

Lemma popcount_ones c : 0 <= c < 32 -> slru_popcount (Z.ones c) = c.
Proof.
  intros Hc.
  assert (H : forallb (fun n => slru_popcount (Z.ones (Z.of_nat n)) =? Z.of_nat n) (seq 0 32) = true)
    by (vm_compute; reflexivity).
  rewrite forallb_forall in H.
  specialize (H (Z.to_nat c)). rewrite Z2Nat.id in H by lia. apply Z.eqb_eq, H.
  apply in_seq. lia.
Qed.

(** [slru_ctz], the popcount of [~x & (x - 1)], counts the trailing zero
    bits: on [(2m+1) * 2^c] it returns [c]. *)
Theorem slru2_ctz_spec m c :
  0 <= m -> 0 <= c -> (2 * m + 1) * 2 ^ c < 2 ^ 32 -> slru_ctz ((2 * m + 1) * 2 ^ c) = c.
Proof.
  intros Hm Hc Hx. unfold slru_ctz. rewrite ctz_mask by lia.
  apply popcount_ones. split; [lia|].
  destruct (Z.lt_ge_cases c 32) as [H|H]; [exact H|].
  assert (2 ^ 32 <= 2 ^ c) by (apply Z.pow_le_mono_r; lia).
  assert (0 < 2 ^ c) by (apply Z.pow_pos_nonneg; lia). nia.
Qed.

Lemma slru2_clear_chain_nil fuel iter s w s' w' :
  items s = [] -> slru_clear_chain fuel iter s w = Some (s', w') -> s' = s /\ w' = w.
Proof.
  intros Hi E. destruct fuel as [|f]; cbn [slru_clear_chain] in E; [discriminate|].
  destruct (iter =? NONE); [injection E as <- <-; auto|].
  rewrite Hi in E. replace (rd (@nil slru_item_t) iter) with (@None slru_item_t) in E
    by (unfold rd; destruct (_ && _); reflexivity).
  discriminate.
Qed.

Lemma slru2_clear_rows_nil rs s w s' w' :
  items s = [] -> slru_clear_rows rs s w = Some (s', w') -> s' = s /\ w' = w.
Proof.
  revert s w. induction rs as [|i rs IH]; intros s w Hi E; cbn [slru_clear_rows] in E.
  - injection E as <- <-; auto.
  - destruct (rd (hash_table s) i) as [iter|]; [|discriminate]. cbn [mbind option_bind] in E.
    destruct (slru_clear_chain _ iter s w) as [[s1 w1]|] eqn:E1; [|discriminate].
    cbn [mbind option_bind] in E. destruct (slru2_clear_chain_nil _ _ _ _ _ _ Hi E1) as [-> ->].
    exact (IH _ _ Hi E).
Qed.

(** [slru_remove_all] on a handle created with no slots is undefined: the
    relinking loop runs to [num_items - 1], which wraps to [UINT32_MAX],
    over an arena that does not exist. *)
Theorem slru2_remove_all_no_slots s w :
  num_items s = 0 -> items s = [] -> slru_remove_all s w = None.
Proof.
  intros Hn Hi. unfold slru_remove_all.
  destruct (slru_clear_rows _ s w) as [[s1 w1]|] eqn:E; [|reflexivity]. cbn [mbind option_bind].
  destruct (slru2_clear_rows_nil _ _ _ _ _ Hi E) as [-> ->].
  destruct (memset_words (hash_table s) _ _); [|reflexivity]. cbn [mbind option_bind].
  rewrite Hn, Hi. vm_compute. reflexivity.
Qed.

Lemma slru2_destroy_loop_free its is w :
  (forall i, i ∈ is -> exists it, rd its i = Some it /\ consumption it = 0) ->
  slru_destroy_loop its is w = Some w.
Proof.
  induction is as [|i is IH]; intros H; [reflexivity|].
  cbn [slru_destroy_loop]. destruct (H i) as (it & E & Ec); [left|].
  rewrite E. cbn [mbind option_bind]. rewrite Ec. cbn.
  apply IH. intros x Hx. apply H. right. exact Hx.
Qed.

(** A handle fresh from [slru_create] is destroyed without any eviction:
    every slot has consumption 0. *)
Theorem slru2_create_destroy hts n cs w s w' w2 :
  0 <= n <= NONE ->
  slru_create hts n cs w = Some (Some s, w') -> slru_destroy s w2 = Some w2.
Proof.
  intros Hn E. unfold slru_create in E.
  destruct (malloc w) as [r1 w1]; destruct r1; [discriminate|].
  destruct (malloc w1) as [r2 w2']; destruct r2; [discriminate|].
  destruct (n =? 0) eqn:En; zeq; cbn [negb] in E.
  - subst n. injection E as <- _. reflexivity.
  - destruct (malloc w2') as [r3 w3]; destruct r3 as [|j3]; [discriminate|].
    destruct (arena_bytes_wrap SIZEOF_ITEM n); [discriminate|].
    unfold for_range in E. rewrite u32_small in E by (unfold NONE in Hn; lia).
    match type of E with context [for_items ?f ?bd ?i ?hi ?a] =>
      destruct (for_items_spec f bd i hi a) as (a' & Ha & Hlen & Hrd) end;
      [lia|rewrite repeat_length; lia|unfold NONE in Hn; lia|rewrite repeat_length; lia|].
    rewrite Ha in E. cbn [mbind option_bind] in E.
    rewrite (Hrd (n - 1)) in E by lia.
    replace ((0 <=? n - 1) && (n - 1 <? n - 1)) with false in E
      by (symmetry; apply andb_false_iff; right; apply Z.ltb_ge; lia).
    rewrite rd_repeat in E by lia. cbn [mbind option_bind] in E.
    rewrite wr_ok in E by (rewrite Hlen, repeat_length; lia).
    injection E as <- _. unfold slru_destroy. cbn [items num_items set_first_free
      set_num_items set_items].
    apply slru2_destroy_loop_free. intros i Hi. apply rows_mem in Hi.
    rewrite rd_insert by (rewrite Hlen, repeat_length; lia).
    destruct (i =? n - 1) eqn:Ei; zeq.
    + eexists; split; [reflexivity|]. reflexivity.
    + rewrite Hrd by lia. zbool. rewrite rd_repeat by lia.
      eexists; split; [reflexivity|]. reflexivity.
Qed.

Ltac s2proj := cbn [hash_table items num_items hash_table_size seed first_free timestamp_ctr
  cache_left debug_cache_size set_hash_table set_items set_num_items set_first_free
  set_timestamp_ctr set_cache_left key key_length value consumption timestamp next
  with_key with_next with_timestamp with_consumption] in *.

Lemma slru2_make_room_enough fuel c s w :
  c <= cache_left s -> slru_make_room (S fuel) c s w = Some (s, w).
Proof.
  intros H. cbn [slru_make_room]. replace (cache_left s <? c) with false
    by (symmetry; apply Z.ltb_ge; lia). reflexivity.
Qed.

Lemma slru2_hash_some k len sd n : 0 < n -> exists h, slru_hash k len sd n = Some h /\ 0 <= h < n.
Proof. apply slru2_hash_lt_size. Qed.

Lemma rd_nil {A} i : rd (@nil A) i = None.
Proof. unfold rd. destruct (_ && _); reflexivity. Qed.

(** When the doubling growth of [slru_insert] fails to allocate, the insert
    returns [SLRU_OOM] after having doubled [num_items], taken the
    consumption off the budget and set [items] to NULL; a later insert with
    a successful allocation, or a fetch of a key whose row is non-empty,
    is then undefined. *)
Theorem slru2_grow_oom_corrupts s w k v c :
  first_free s = NONE -> 0 < num_items s < 2 ^ 31 -> 0 <= c <= cache_left s ->
  cache_left s < 2 ^ 32 -> 0 < hash_table_size s -> fst (malloc w) = AllocFail ->
  exists s', slru_insert s w k v c = Some (SLRU_OOM, s', snd (malloc w)) /\
    items s' = [] /\ num_items s' = 2 * num_items s /\ first_free s' = NONE /\
    cache_left s' = cache_left s - c /\ hash_table s' = hash_table s /\
    (forall w2 k2 v2 c2, c2 <= cache_left s' -> fst (malloc w2) <> AllocFail ->
       slru_insert s' w2 k2 v2 c2 = None) /\
    (forall k2 inv h i, slru_hash k2 (key_len k2) (seed s) (hash_table_size s) = Some h ->
       rd (hash_table s) h = Some i -> i <> NONE -> slru_fetch s' k2 inv = None).
Proof.
  intros Hf Hn Hc Hcl Hh Hm. unfold slru_insert.
  rewrite slru2_make_room_enough by lia. cbn [mbind option_bind].
  replace (cache_left s <? c) with false by (symmetry; apply Z.ltb_ge; lia).
  destruct (slru2_hash_some k (key_len k) (seed s) (hash_table_size s) Hh) as (h & Eh & _).
  s2proj. rewrite Eh. cbn [mbind option_bind]. s2proj. rewrite Hf, Z.eqb_refl.
  unfold slru_insert_grow. s2proj. replace (num_items s =? 0) with false
    by (symmetry; apply Z.eqb_neq; lia).
  destruct (malloc w) as [r w1] eqn:Ew. cbn [fst snd] in *. subst r.
  cbn [mbind option_bind negb]. eexists. split; [reflexivity|]. s2proj.
  rewrite u32_small by lia. rewrite u32_small by lia.
  split; [reflexivity|]. split; [lia|]. split; [exact Hf|]. split; [reflexivity|].
  split; [reflexivity|]. split.
  - intros w2 k2 v2 c2 Hc2 Hm2. unfold slru_insert. s2proj.
    rewrite slru2_make_room_enough by (s2proj; lia). cbn [mbind option_bind]. s2proj.
    replace (cache_left s - c <? c2) with false by (symmetry; apply Z.ltb_ge; lia).
    destruct (slru2_hash_some k2 (key_len k2) (seed s) (hash_table_size s) Hh) as (h2 & Eh2 & _).
    rewrite Eh2. cbn [mbind option_bind]. s2proj. rewrite Hf, Z.eqb_refl.
    unfold slru_insert_grow. s2proj. replace (num_items s * 2 =? 0) with false
      by (symmetry; apply Z.eqb_neq; lia).
    destruct (malloc w2) as [r2 w3]. cbn [fst] in Hm2. destruct r2 as [|j]; [congruence|].
    s2proj. destruct (arena_bytes_wrap SIZEOF_ITEM _); [reflexivity|]. cbn [length].
    replace (num_items s * 2 <=? Z.of_nat 0) with false by (symmetry; apply Z.leb_gt; lia).
    rewrite andb_false_r. reflexivity.
  - intros k2 inv h2 i Eh2 Hr Hi. unfold slru_fetch, slru_find_index. s2proj.
    rewrite Eh2. cbn [mbind option_bind]. unfold slru_find_index_by_hash. s2proj.
    rewrite Hr. cbn [mbind option_bind length]. cbn [slru_find_loop].
    replace (i =? NONE) with false by (symmetry; apply Z.eqb_neq; exact Hi).
    rewrite rd_nil. reflexivity.
Qed.

Lemma wr_rd_same {A} (a l : list A) i x : wr a i x = Some l -> rd l i = Some x.
Proof.
  intros E. apply wr_inv in E as [Hi ->]. rewrite rd_insert by exact Hi. rewrite Z.eqb_refl. reflexivity.
Qed.

Lemma wr_rd_other {A} (a l : list A) i j x : wr a i x = Some l -> j <> i -> rd l j = rd a j.
Proof.
  intros E Hj. apply wr_inv in E as [Hi ->]. rewrite rd_insert by exact Hi.
  replace (j =? i) with false by (symmetry; apply Z.eqb_neq; exact Hj). reflexivity.
Qed.

Lemma wr_length {A} (a l : list A) i x : wr a i x = Some l -> length l = length a.
Proof. intros E. apply wr_inv in E as [_ ->]. apply length_insert. Qed.

Lemma rd_wr_ok {A} (a : list A) i x y : rd a i = Some x -> exists l, wr a i y = Some l.
Proof.
  intros E. apply rd_Some_range in E. eexists. apply wr_ok. exact E.
Qed.

Lemma slru2_free_one_keeps s w r s' w' : slru_free_one s w = Some (r, s', w') -> s2_keeps s s'.
Proof.
  unfold slru_free_one, set_item, set_ht. intros E. des_opt; split; reflexivity.
Qed.

Lemma slru2_make_room_keeps fuel c s w s' w' :
  slru_make_room fuel c s w = Some (s', w') -> s2_keeps s s'.
Proof.
  revert s w. induction fuel as [|f IH]; intros s w E; cbn [slru_make_room] in E; [discriminate|].
  destruct (cache_left s <? c).
  - apply bind_Some in E as ([[r s1] w1] & E1 & E).
    apply slru2_free_one_keeps in E1 as [H1 H2].
    destruct (negb (r =? SLRU_OK)).
    + injection E as <- _. split; assumption.
    + destruct (IH _ _ E) as [H3 H4]. split; congruence.
  - injection E as <- _. split; reflexivity.
Qed.

Lemma slru2_grow_ok s w s' w' :
  slru_insert_grow s w = Some (true, s', w') -> s2_keeps s s' /\ first_free s' <> NONE.
Proof.
  unfold slru_insert_grow. intros E. destruct (num_items s =? 0).
  - des_opt; (split; [split; reflexivity|]); cbn; unfold NONE; discriminate.
  - destruct (malloc w) as [r w1]. destruct r as [|j]; [discriminate|].
    destruct (arena_bytes_wrap _ _); [discriminate|].
    destruct (negb _) eqn:Eb; [discriminate|].
    apply negb_false_iff, andb_prop in Eb as [Eb1 _]. apply Z.leb_le in Eb1.
    des_opt. split; [split; reflexivity|]. cbn. intros Hn. rewrite Hn in Eb1.
    cbn [num_items set_num_items] in Eb1. unfold NONE, u32 in Eb1. change ((4294967295 * 2) mod 2 ^ 32) with 4294967294 in Eb1. lia.
Qed.

(** The new item heads its row after a successful insert. *)
Lemma slru2_insert_ok s w k v c s' w' :
  slru_insert s w k v c = Some (SLRU_OK, s', w') ->
  exists h idx it, slru_hash k (key_len k) (seed s) (hash_table_size s) = Some h /\
    s2_keeps s s' /\ idx <> NONE /\ rd (hash_table s') h = Some idx /\
    rd (items s') idx = Some it /\ key it = Some k /\ key_length it = key_len k /\ value it = v.
Proof.
  unfold slru_insert. intros E.
  apply bind_Some in E as ([s0 w0] & E0 & E). apply slru2_make_room_keeps in E0 as [K1 K2].
  destruct (cache_left s0 <? c); [discriminate|].
  apply bind_Some in E as (h & Eh & E). cbn [seed hash_table_size set_cache_left] in Eh.
  apply bind_Some in E as ([[ok s1] w1] & E1 & E).
  assert (K : s2_keeps s s1 /\ first_free s1 <> NONE).
  { destruct (first_free (set_cache_left s0 (u32 (cache_left s0 - c))) =? NONE) eqn:Ef.
    - destruct ok; [|discriminate]. apply slru2_grow_ok in E1 as [[K3 K4] K5].
      cbn in K3, K4. split; [split; congruence|exact K5].
    - injection E1 as <- <- <-. apply Z.eqb_neq in Ef. cbn in Ef |- *.
      split; [split; assumption|exact Ef]. }
  destruct K as [[K3 K4] Kf]. destruct ok; [|discriminate]. cbn [negb] in E.
  apply bind_Some in E as (item & Ei & E).
  destruct (malloc w1) as [r w2]. destruct r as [|j].
  - apply bind_Some in E as (s2 & _ & E). discriminate.
  - apply bind_Some in E as (hh & Ehh & E). apply bind_Some in E as (s2 & E2 & E).
    apply bind_Some in E as (s3 & E3 & E). injection E as <- <-.
    unfold set_ht in E2. apply bind_Some in E2 as (ht & Eht & E2). injection E2 as <-.
    unfold set_item in E3. apply bind_Some in E3 as (its & Eits & E3). injection E3 as <-.
    cbn in Eits, Eht |- *. exists h, (first_free s1), (mk_item (Some k) (key_len k) v c
      (u32 (timestamp_ctr s1 + 1)) hh).
    rewrite <- K1, <- K2. split; [exact Eh|]. split; [unfold s2_keeps; cbn; split; congruence|].
    split; [exact Kf|]. split; [exact (wr_rd_same _ _ _ _ Eht)|].
    split; [exact (wr_rd_same _ _ _ _ Eits)|]. auto.
Qed.

(** After a successful [slru_insert] of [k] with value [v], [slru_fetch] of
    [k] returns [v]. *)
Theorem slru2_insert_fetch s w k v c s' w' inv :
  slru_insert s w k v c = Some (SLRU_OK, s', w') ->
  exists s'', slru_fetch s' k inv = Some (v, s'').
Proof.
  intros E. destruct (slru2_insert_ok _ _ _ _ _ _ _ E)
    as (h & idx & it & Eh & [K1 K2] & Hidx & Eht & Eit & Hk & Hkl & Hv).
  unfold slru_fetch, slru_find_index. rewrite K1, K2, Eh. cbn [mbind option_bind].
  unfold slru_find_index_by_hash. rewrite Eht. cbn [mbind option_bind slru_find_loop].
  replace (idx =? NONE) with false by (symmetry; apply Z.eqb_neq; exact Hidx).
  rewrite Eit. cbn [mbind option_bind]. unfold slru_cmp_keys. rewrite Hk, Hkl, Z.eqb_refl.
  cbn [negb]. rewrite bytes_eqb_refl. cbn [mbind option_bind].
  replace (idx =? NONE) with false by (symmetry; apply Z.eqb_neq; exact Hidx).
  rewrite Eit. cbn [mbind option_bind]. unfold set_item. cbn [items set_timestamp_ctr].
  destruct (rd_wr_ok (items s') idx it (with_timestamp it (u32 (timestamp_ctr s' + 1))) Eit)
    as [l El]. rewrite El. cbn [mbind option_bind]. rewrite Hv. eexists. reflexivity.
Qed.

Lemma wr_wr_rd_id {A} (a l1 l2 : list A) i x y :
  rd a i = Some y -> wr a i x = Some l1 -> wr l1 i y = Some l2 -> l2 = a.
Proof.
  intros E E1 E2. apply wr_inv in E1 as [Hi ->]. apply wr_inv in E2 as [_ ->].
  rewrite list_insert_insert_eq. apply list_insert_id. rewrite <- rd_nonneg by lia. exact E.
Qed.

(** When the budget covers the insert and a free slot exists (no eviction,
    no growth), [slru_insert] then [slru_remove] of the same key gives back
    the hash table, the free-list head and the budget; only the reused slot
    differs, with no key, consumption 0 and its old free-list link. *)
Theorem slru2_insert_remove_restores s w k v c s1 w1 w2 :
  first_free s <> NONE -> 0 <= c <= cache_left s -> cache_left s < 2 ^ 32 ->
  slru_insert s w k v c = Some (SLRU_OK, s1, w1) ->
  exists s2, slru_remove s1 w2 k = Some (SLRU_OK, s2, w2) /\
    hash_table s2 = hash_table s /\ first_free s2 = first_free s /\
    cache_left s2 = cache_left s /\
    (forall i, i <> first_free s -> rd (items s2) i = rd (items s) i) /\
    exists it0 it2, rd (items s) (first_free s) = Some it0 /\
      rd (items s2) (first_free s) = Some it2 /\
      key it2 = None /\ consumption it2 = 0 /\ next it2 = next it0.
Proof.
  intros Hff Hc Hcl E. unfold slru_insert in E.
  rewrite slru2_make_room_enough in E by lia. cbn [mbind option_bind] in E.
  replace (cache_left s <? c) with false in E by (symmetry; apply Z.ltb_ge; lia).
  apply bind_Some in E as (h & Eh & E). cbn [seed hash_table_size set_cache_left] in Eh.
  cbn [first_free set_cache_left] in E.
  replace (first_free s =? NONE) with false in E by (symmetry; apply Z.eqb_neq; exact Hff).
  cbn [mbind option_bind negb] in E.
  apply bind_Some in E as (item0 & Ei0 & E). cbn [items set_cache_left first_free] in Ei0.
  destruct (malloc w) as [[|j] w'].
  { apply bind_Some in E as (? & _ & E). discriminate. }
  apply bind_Some in E as (hh & Ehh & E). cbn in Ehh.
  apply bind_Some in E as (sa & Ea & E). unfold set_ht in Ea.
  apply bind_Some in Ea as (ht1 & Eht1 & Ea). injection Ea as <-. cbn in Eht1.
  apply bind_Some in E as (sb & Eb & E). unfold set_item in Eb.
  apply bind_Some in Eb as (its1 & Eits1 & Eb). injection Eb as <-. injection E as <- <-.
  cbn in Eits1.
  set (nit := mk_item (Some k) (key_len k) v c
         (u32 (timestamp_ctr s + 1)) hh) in *.
  unfold slru_remove. cbn [seed hash_table_size set_items set_timestamp_ctr set_hash_table
    set_first_free set_cache_left]. rewrite Eh. cbn [mbind option_bind].
  unfold slru_find_index_by_hash. cbn [hash_table items set_items set_timestamp_ctr
    set_hash_table set_first_free set_cache_left].
  rewrite (wr_rd_same _ _ _ _ Eht1). cbn [mbind option_bind slru_find_loop].
  replace (first_free s =? NONE) with false by (symmetry; apply Z.eqb_neq; exact Hff).
  rewrite (wr_rd_same _ _ _ _ Eits1). cbn [mbind option_bind]. unfold slru_cmp_keys.
  cbn [nit key key_length]. rewrite Z.eqb_refl. cbn [negb]. rewrite bytes_eqb_refl.
  cbn [mbind option_bind].
  replace (first_free s =? NONE) with false by (symmetry; apply Z.eqb_neq; exact Hff).
  rewrite (wr_rd_same _ _ _ _ Eits1). cbn [mbind option_bind].
  try rewrite (wr_rd_same _ _ _ _ Eht1); cbn [mbind option_bind].
  cbn [prev_walk]. replace (first_free s =? NONE) with false by (symmetry; apply Z.eqb_neq; exact Hff).
  rewrite Z.eqb_refl. cbn [mbind option_bind]. rewrite Z.eqb_refl.
  unfold set_ht. cbn [hash_table set_items set_timestamp_ctr set_hash_table set_first_free
    set_cache_left next nit].
  destruct (rd_wr_ok ht1 h (first_free s) hh (wr_rd_same _ _ _ _ Eht1)) as [ht2 Eht2].
  rewrite Eht2. cbn [mbind option_bind].
  assert (Hht2 : ht2 = hash_table s) by exact (wr_wr_rd_id _ _ _ _ _ _ Ehh Eht1 Eht2).
  cbn [items set_hash_table set_items set_timestamp_ctr set_first_free set_cache_left].
  rewrite (wr_rd_same _ _ _ _ Eits1). cbn [mbind option_bind]. unfold set_item.
  cbn [items first_free set_hash_table set_items set_timestamp_ctr set_first_free set_cache_left].
  match goal with |- context [wr its1 (first_free s) ?x] =>
    destruct (rd_wr_ok its1 (first_free s) nit x (wr_rd_same _ _ _ _ Eits1)) as [its2 Eits2];
    rewrite Eits2 end.
  cbn [mbind option_bind items set_hash_table set_items set_timestamp_ctr set_first_free
    set_cache_left].
  rewrite (wr_rd_same _ _ _ _ Eits2). cbn [mbind option_bind].
  match goal with |- context [wr its2 (first_free s) ?x] =>
    destruct (rd_wr_ok its2 (first_free s) _ x (wr_rd_same _ _ _ _ Eits2)) as [its3 Eits3];
    rewrite Eits3 end.
  cbn [mbind option_bind]. eexists. split; [reflexivity|]. cbn.
  split; [exact Hht2|]. split; [reflexivity|].
  split; [cbn [nit consumption]; rewrite (u32_small (cache_left s - c)) by lia; rewrite u32_small by lia; lia|].
  split.
  - intros i Hi. rewrite (wr_rd_other _ _ _ _ _ Eits3 Hi), (wr_rd_other _ _ _ _ _ Eits2 Hi),
      (wr_rd_other _ _ _ _ _ Eits1 Hi). reflexivity.
  - exists item0. eexists. split; [exact Ei0|]. split; [exact (wr_rd_same _ _ _ _ Eits3)|].
    cbn. auto.
Qed.

Lemma slru2_first_arena_state s w k v c m cz j1 j2 :
  first_free s = NONE -> num_items s = 0 -> 0 <= m -> 0 <= cz < 31 ->
  hash_table_size s = (2 * m + 1) * 2 ^ cz -> hash_table_size s < 2 ^ 32 ->
  Z.of_nat (length (hash_table s)) = hash_table_size s ->
  0 <= c <= cache_left s ->
  fst (malloc w) = AllocOk j1 -> fst (malloc (snd (malloc w))) = AllocOk j2 ->
  exists s' w', slru_insert s w k v c = Some (SLRU_OK, s', w') /\
    num_items s' = 2 ^ cz /\ Z.of_nat (length (items s')) = 2 ^ cz /\
    first_free s' = (if cz =? 0 then NONE else 1) /\
    (exists it0, rd (items s') 0 = Some it0 /\ value it0 = v /\ consumption it0 = c) /\
    (forall i, 1 <= i < 2 ^ cz -> exists it, rd (items s') i = Some it /\
       value it = u32 j1 /\ consumption it = u32 j1).
Proof.
  intros Hf Hn Hm Hcz Hh H32 Hlh Hc Hm1 Hm2.
  assert (Hp : 1 <= 2 ^ cz <= 2 ^ 30).
  { split; [apply (Z.pow_le_mono_r 2 0 cz); lia|apply Z.pow_le_mono_r; lia]. }
  assert (Hp2 : 2 ^ cz <= hash_table_size s) by (rewrite Hh; nia).
  unfold slru_insert.
  rewrite slru2_make_room_enough by lia. cbn [mbind option_bind].
  replace (cache_left s <? c) with false by (symmetry; apply Z.ltb_ge; lia).
  destruct (slru2_hash_some k (key_len k) (seed s) (hash_table_size s)) as (h & Eh & Hhr); [lia|].
  s2proj. rewrite Eh. cbn [mbind option_bind]. s2proj. rewrite Hf, Z.eqb_refl.
  unfold slru_insert_grow. s2proj. rewrite Hn, Z.eqb_refl.
  replace (slru_ctz (hash_table_size s)) with cz by (rewrite Hh; symmetry; apply slru2_ctz_spec; lia). unfold int_shl1.
  replace ((0 <=? cz) && (cz <? 31)) with true by (symmetry; apply andb_true_iff; split; zbool; lia).
  cbn [mbind option_bind]. rewrite Z.shiftl_1_l.
  destruct (malloc w) as [r w1] eqn:Ew. cbn [fst snd] in *. subst r. s2proj.
  set (n := 2 ^ cz) in *.
  unfold for_range. rewrite (u32_small (n - 1)) by lia.
  match goal with |- context [for_items ?f ?bd ?i ?hi ?a] =>
    destruct (for_items_spec f bd i hi a) as (a' & Ha & Hlen & Hrd) end;
    [lia|rewrite repeat_length; lia|lia|rewrite repeat_length; lia|].
  rewrite Ha. cbn [mbind option_bind].
  rewrite (Hrd (n - 1)) by lia.
  replace ((0 <=? n - 1) && (n - 1 <? n - 1)) with false
    by (symmetry; apply andb_false_iff; right; apply Z.ltb_ge; lia).
  rewrite rd_repeat by lia. cbn [mbind option_bind].
  rewrite wr_ok by (rewrite Hlen, repeat_length; lia). cbn [mbind option_bind negb]. s2proj.
  set (its := <[Z.to_nat (n - 1) := with_next (junk_item j1) NONE]> a').
  assert (Hlits : Z.of_nat (length its) = n) by (unfold its; rewrite length_insert, Hlen, repeat_length; lia).
  assert (Hit0 : exists it0, rd its 0 = Some it0 /\ next it0 = (if cz =? 0 then NONE else 1)).
  { unfold its. rewrite rd_insert by (rewrite Hlen, repeat_length; lia).
    destruct (cz =? 0) eqn:Ecz; zeq.
    - subst cz. replace (0 =? n - 1) with true by (symmetry; apply Z.eqb_eq; unfold n; reflexivity).
      eexists; split; reflexivity.
    - assert (2 ^ 1 <= n) by (apply Z.pow_le_mono_r; lia).
      replace (0 =? n - 1) with false by (symmetry; apply Z.eqb_neq; cbn in *; lia).
      rewrite Hrd by lia.
      replace ((0 <=? 0) && (0 <? n - 1)) with true by (symmetry; apply andb_true_iff; split; zbool; lia).
      rewrite rd_repeat by lia. eexists; split; [reflexivity|]. reflexivity. }
  destruct Hit0 as (it0 & Eit0 & Hnx). rewrite Eit0. cbn [mbind option_bind].
  destruct (malloc w1) as [r2 w2] eqn:Ew2. cbn [fst] in Hm2. subst r2. s2proj.
  destruct (rd_in_range (hash_table s) h) as (hh & Ehh); [lia|]. rewrite Ehh.
  cbn [mbind option_bind]. unfold set_ht. s2proj.
  destruct (rd_wr_ok _ _ _ 0 Ehh) as (ht' & Eht). rewrite Eht. cbn [mbind option_bind].
  unfold set_item. s2proj.
  match goal with |- context [wr its 0 ?x] =>
    destruct (rd_wr_ok its 0 _ x Eit0) as (its' & Eits) end.
  rewrite Eits. cbn [mbind option_bind].
  do 2 eexists. split; [reflexivity|]. cbn. split; [reflexivity|].
  split; [rewrite (wr_length _ _ _ _ Eits); exact Hlits|]. split; [exact Hnx|]. split.
  - eexists. split; [exact (wr_rd_same _ _ _ _ Eits)|]. cbn. auto.
  - intros i Hi. assert (Hi0 : i <> 0) by lia. rewrite (wr_rd_other _ _ _ _ _ Eits Hi0).
    unfold its. rewrite rd_insert by (rewrite Hlen, repeat_length; lia).
    destruct (i =? n - 1) eqn:Ein.
    + eexists. split; [reflexivity|]. cbn. auto.
    + zeq. rewrite Hrd by lia.
      replace ((0 <=? i) && (i <? n - 1)) with true by (symmetry; apply andb_true_iff; split; zbool; lia).
      rewrite rd_repeat by lia. eexists. split; [reflexivity|]. cbn. auto.
Qed.

(** The first insert into a handle without slots allocates
    [1 << slru_ctz(hash_table_size)] slots: the largest power of two
    dividing the table size.  With one slot the free list is empty at once. *)
Theorem slru2_first_arena s w k v c m cz j1 j2 :
  first_free s = NONE -> num_items s = 0 -> 0 <= m -> 0 <= cz < 31 ->
  hash_table_size s = (2 * m + 1) * 2 ^ cz -> hash_table_size s < 2 ^ 32 ->
  Z.of_nat (length (hash_table s)) = hash_table_size s ->
  0 <= c <= cache_left s ->
  fst (malloc w) = AllocOk j1 -> fst (malloc (snd (malloc w))) = AllocOk j2 ->
  exists s' w', slru_insert s w k v c = Some (SLRU_OK, s', w') /\
    num_items s' = 2 ^ cz /\ Z.of_nat (length (items s')) = 2 ^ cz /\
    first_free s' = (if cz =? 0 then NONE else 1).
Proof.
  intros. destruct (slru2_first_arena_state s w k v c m cz j1 j2) as (s' & w' & E & Ha1 & Ha2 & Ha3 & _);
    try assumption. exists s', w'. auto.
Qed.

Lemma slru2_destroy_loop_all its is w (f : Z -> Z) :
  (forall i, i ∈ is -> exists it, rd its i = Some it /\ consumption it <> 0 /\ value it = f i) ->
  slru_destroy_loop its is w = Some (mk_world (w_alloc w) (w_evicted w ++ map f is)).
Proof.
  revert w. induction is as [|i is IH]; intros w H; cbn [slru_destroy_loop map].
  - rewrite app_nil_r. destruct w; reflexivity.
  - destruct (H i) as (it & Ei & Hc & Hv); [left|]. rewrite Ei. cbn [mbind option_bind].
    replace (consumption it =? 0) with false by (symmetry; apply Z.eqb_neq; exact Hc).
    cbn [negb]. rewrite IH.
    + unfold evict. cbn. rewrite Hv, <- app_assoc. reflexivity.
    + intros x Hx. apply H. right. exact Hx.
Qed.

(** The arena of the first growth is not cleared: [slru_destroy] after the
    first insert evicts, besides the inserted value, the junk value of
    every never-used slot whose junk consumption is non-zero. *)
Theorem slru2_first_arena_destroy s w k v c m cz j1 j2 w2 :
  first_free s = NONE -> num_items s = 0 -> 0 <= m -> 0 <= cz < 31 ->
  hash_table_size s = (2 * m + 1) * 2 ^ cz -> hash_table_size s < 2 ^ 32 ->
  Z.of_nat (length (hash_table s)) = hash_table_size s ->
  0 < c <= cache_left s ->
  fst (malloc w) = AllocOk j1 -> fst (malloc (snd (malloc w))) = AllocOk j2 -> u32 j1 <> 0 ->
  exists s' w', slru_insert s w k v c = Some (SLRU_OK, s', w') /\
    slru_destroy s' w2 =
      Some (mk_world (w_alloc w2) (w_evicted w2 ++ v :: repeat (u32 j1) (Z.to_nat (2 ^ cz) - 1))).
Proof.
  intros Hf Hn Hm Hcz Hh H32 Hlh Hc Hm1 Hm2 Hj.
  destruct (slru2_first_arena_state s w k v c m cz j1 j2)
    as (s' & w' & E & Hni & _ & _ & (it0 & E0 & Hv0 & Hc0) & Hrest); try assumption; [lia|].
  exists s', w'. split; [exact E|]. unfold slru_destroy. rewrite Hni.
  assert (Hp : 1 <= 2 ^ cz) by (apply (Z.pow_le_mono_r 2 0 cz); lia).
  unfold rows. replace (Z.to_nat (2 ^ cz)) with (S (Z.to_nat (2 ^ cz) - 1)) at 1 by lia.
  cbn [seq map]. rewrite (slru2_destroy_loop_all _ _ _ (fun i => if i =? 0 then v else u32 j1)).
  - cbn [map Z.of_nat Z.eqb]. f_equal. f_equal. f_equal. f_equal.
    rewrite (map_ext_in _ (fun _ => u32 j1)).
    + rewrite map_const, length_map, length_seq. reflexivity.
    + intros a Ha. apply in_map_iff in Ha as (x & <- & Hx). apply in_seq in Hx.
      replace (Z.of_nat x =? 0) with false by (symmetry; apply Z.eqb_neq; lia). reflexivity.
  - intros i Hi. apply elem_of_cons in Hi as [->|Hi].
    + exists it0. split; [exact E0|]. split; [lia|]. rewrite Hv0. reflexivity.
    + apply list_elem_of_In, in_map_iff in Hi as (x & <- & Hx). apply in_seq in Hx.
      destruct (Hrest (Z.of_nat x)) as (it & Ei & Hv & Hci); [lia|].
      exists it. split; [exact Ei|]. split; [lia|].
      replace (Z.of_nat x =? 0) with false by (symmetry; apply Z.eqb_neq; lia). exact Hv.
Qed.

(** With [hash_table_size = 2^31], the first growth computes [1 << 31] on
    an [int], which is undefined. *)
Theorem slru2_grow_shift_ub s w k v c :
  first_free s = NONE -> num_items s = 0 -> hash_table_size s = 2 ^ 31 ->
  0 <= c <= cache_left s ->
  slru_insert s w k v c = None.
Proof.
  intros Hf Hn Hh Hc. unfold slru_insert.
  rewrite slru2_make_room_enough by lia. cbn [mbind option_bind].
  replace (cache_left s <? c) with false by (symmetry; apply Z.ltb_ge; lia).
  destruct (slru2_hash_some k (key_len k) (seed s) (hash_table_size s)) as (h & Eh & Hhr); [lia|].
  s2proj. rewrite Eh. cbn [mbind option_bind]. s2proj. rewrite Hf, Z.eqb_refl.
  unfold slru_insert_grow. s2proj. rewrite Hn, Z.eqb_refl.
  rewrite Hh. replace (2 ^ 31) with ((2 * 0 + 1) * 2 ^ 31) by reflexivity.
  rewrite slru2_ctz_spec by lia. reflexivity.
Qed.

Lemma slru2_scan_chain_spec its i fuel prev iter mt mi mp mh mt' mi' mp' mh' :
  slru_scan_chain its i fuel prev iter (mt, mi, mp, mh) = Some (mt', mi', mp', mh') ->
  exists is, slru_chain its fuel iter = Some is /\ mt' <= mt /\
    (forall j, j ∈ is -> j <> NONE /\ exists it, rd its j = Some it /\ mt' <= timestamp it) /\
    ((mt', mi') = (mt, mi) \/
     (mt' < mt /\ mi' ∈ is /\ exists it, rd its mi' = Some it /\ timestamp it = mt')).
Proof.
  revert prev iter mt mi mp mh. induction fuel as [|f IH]; intros prev iter mt mi mp mh E;
    cbn [slru_scan_chain] in E; [discriminate|].
  cbn [slru_chain]. destruct (iter =? NONE) eqn:Ei.
  - injection E as <- <- <- <-. exists []. split; [reflexivity|]. split; [lia|].
    split; [intros j Hj; inversion Hj|]. left; reflexivity.
  - zeq. apply bind_Some in E as (it & Eit & E). rewrite Eit. cbn [mbind option_bind].
    destruct (timestamp it <? mt) eqn:Et.
    + apply IH in E as (is & Eis & Hle & Hall & Hor). rewrite Eis. cbn [mbind option_bind].
      apply Z.ltb_lt in Et.
      exists (iter :: is). split; [reflexivity|]. split; [lia|]. split.
      * intros j Hj. apply elem_of_cons in Hj as [->|Hj]; [|exact (Hall j Hj)].
        split; [exact Ei|]. exists it. split; [exact Eit|].
        destruct Hor as [Heq|(Hlt & _)]; [injection Heq as -> _; lia|lia].
      * right. destruct Hor as [Heq|(Hlt & Hin & Hit)].
        -- injection Heq as -> ->. split; [lia|]. split; [left|]. exists it. auto.
        -- split; [lia|]. split; [right; exact Hin|exact Hit].
    + apply IH in E as (is & Eis & Hle & Hall & Hor). rewrite Eis. cbn [mbind option_bind].
      apply Z.ltb_ge in Et.
      exists (iter :: is). split; [reflexivity|]. split; [lia|]. split.
      * intros j Hj. apply elem_of_cons in Hj as [->|Hj]; [|exact (Hall j Hj)].
        split; [exact Ei|]. exists it. split; [exact Eit|]. lia.
      * destruct Hor as [Heq|(Hlt & Hin & Hit)]; [left; exact Heq|].
        right. split; [lia|]. split; [right; exact Hin|exact Hit].
Qed.

Lemma slru2_scan_rows_spec s rs mt mi mp mh mt' mi' mp' mh' :
  slru_scan_rows s rs (mt, mi, mp, mh) = Some (mt', mi', mp', mh') ->
  exists is, slru_rows_indices s rs = Some is /\ mt' <= mt /\
    (forall j, j ∈ is -> j <> NONE /\ exists it, rd (items s) j = Some it /\ mt' <= timestamp it) /\
    ((mt', mi') = (mt, mi) \/
     (mt' < mt /\ mi' ∈ is /\ exists it, rd (items s) mi' = Some it /\ timestamp it = mt')).
Proof.
  revert mt mi mp mh. induction rs as [|i rs IH]; intros mt mi mp mh E; cbn [slru_scan_rows] in E.
  - injection E as <- <- <- <-. exists []. split; [reflexivity|]. split; [lia|].
    split; [intros j Hj; inversion Hj|]. left; reflexivity.
  - cbn [slru_rows_indices]. apply bind_Some in E as (iter & Eit & E). rewrite Eit.
    cbn [mbind option_bind]. apply bind_Some in E as ([[[mt1 mi1] mp1] mh1] & E1 & E).
    apply slru2_scan_chain_spec in E1 as (is1 & Eis1 & Hle1 & Hall1 & Hor1).
    apply IH in E as (is2 & Eis2 & Hle2 & Hall2 & Hor2).
    rewrite Eis1. cbn [mbind option_bind]. rewrite Eis2. cbn [mbind option_bind].
    exists (is1 ++ is2). split; [reflexivity|]. split; [lia|]. split.
    + intros j Hj. apply elem_of_app in Hj as [Hj|Hj]; [|exact (Hall2 j Hj)].
      destruct (Hall1 j Hj) as (Hn & it & Ei & Ht). split; [exact Hn|]. exists it.
      split; [exact Ei|]. lia.
    + destruct Hor2 as [Heq2|(Hlt2 & Hin2 & Hit2)].
      * injection Heq2 as -> ->. destruct Hor1 as [Heq1|(Hlt1 & Hin1 & Hit1)];
          [left; exact Heq1|]. right. split; [lia|]. split; [apply elem_of_app; left; exact Hin1|exact Hit1].
      * right. split; [lia|]. split; [apply elem_of_app; right; exact Hin2|exact Hit2].
Qed.

(** [slru_free_one] returns [SLRU_ERROR], changing nothing, exactly when no
    slot on the rows has a timestamp below [UINT32_MAX]; otherwise it evicts
    a slot with the smallest timestamp on the rows, puts it at the head of
    the free list with no key and consumption 0, and gives its consumption
    back to the budget. *)
Theorem slru2_free_one_oldest s w r s' w' :
  slru_free_one s w = Some (r, s', w') ->
  exists is, slru_row_indices s = Some is /\
    ((r = SLRU_ERROR /\ s' = s /\ w' = w /\
      forall j, j ∈ is -> exists it, rd (items s) j = Some it /\ NONE <= timestamp it) \/
     (r = SLRU_OK /\ exists i it it', i ∈ is /\ rd (items s) i = Some it /\ timestamp it < NONE /\
      (forall j, j ∈ is -> exists itj, rd (items s) j = Some itj /\ timestamp it <= timestamp itj) /\
      w' = evict w (value it) /\ first_free s' = i /\
      cache_left s' = u32 (cache_left s + consumption it) /\
      rd (items s') i = Some it' /\ key it' = None /\ consumption it' = 0 /\
      next it' = first_free s)).
Proof.
  intros E. unfold slru_free_one in E.
  apply bind_Some in E as ([[[mt mi] mp] mh] & Es & E).
  apply slru2_scan_rows_spec in Es as (is & Eis & Hle & Hall & Hor).
  exists is. split; [exact Eis|].
  destruct (mi =? NONE) eqn:Emi.
  - injection E as <- <- <-. zeq. left. split; [reflexivity|]. split; [reflexivity|].
    split; [reflexivity|]. destruct Hor as [Heq|(_ & Hin & _)].
    + injection Heq as -> _. intros j Hj. destruct (Hall j Hj) as (_ & it & Ei & Ht).
      exists it. auto.
    + exfalso. exact (proj1 (Hall mi Hin) Emi).
  - zeq. destruct Hor as [Heq|(Hlt & Hin & it & Eit & Hts)];
      [injection Heq as _ ->; congruence|].
    apply bind_Some in E as (item & Ei & E). rewrite Eit in Ei. injection Ei as <-.
    apply bind_Some in E as (s1 & E1 & E). unfold set_item in E1.
    apply bind_Some in E1 as (its1 & Ew1 & E1). injection E1 as <-.
    apply bind_Some in E as (s2 & E2 & E).
    assert (H2 : first_free s2 = first_free s /\ cache_left s2 = cache_left s /\
      exists item2, rd (items s2) mi = Some item2 /\ key item2 = None /\
        consumption item2 = consumption it).
    { destruct (negb (mp =? NONE)).
      - apply bind_Some in E2 as (pit & Ep & E2). unfold set_item in E2.
        apply bind_Some in E2 as (its2 & Ew2 & E2). injection E2 as <-. s2proj.
        split; [reflexivity|]. split; [reflexivity|].
        destruct (Z.eq_dec mi mp) as [->|Hne].
        + rewrite (wr_rd_same _ _ _ _ Ew1) in Ep. injection Ep as <-.
          eexists. split; [exact (wr_rd_same _ _ _ _ Ew2)|]. s2proj. auto.
        + rewrite (wr_rd_other _ _ _ _ _ Ew2 Hne). eexists.
          split; [exact (wr_rd_same _ _ _ _ Ew1)|]. s2proj. auto.
      - unfold set_ht in E2. apply bind_Some in E2 as (ht2 & Ew2 & E2). injection E2 as <-.
        s2proj. split; [reflexivity|]. split; [reflexivity|]. eexists.
        split; [exact (wr_rd_same _ _ _ _ Ew1)|]. s2proj. auto. }
    destruct H2 as (Hff2 & Hcl2 & item2 & Ei2 & Hk2 & Hc2).
    apply bind_Some in E as (item2' & Ei2' & E). rewrite Ei2 in Ei2'. injection Ei2' as <-.
    apply bind_Some in E as (s3 & E3 & E). unfold set_item in E3.
    apply bind_Some in E3 as (its3 & Ew3 & E3). injection E3 as <-.
    apply bind_Some in E as (item3 & Ei3 & E). s2proj.
    rewrite (wr_rd_same _ _ _ _ Ew3) in Ei3. injection Ei3 as <-.
    apply bind_Some in E as (s4 & E4 & E). unfold set_item in E4.
    apply bind_Some in E4 as (its4 & Ew4 & E4). injection E4 as <-.
    injection E as <- <- <-. right. split; [reflexivity|].
    exists mi, it. eexists. split; [exact Hin|]. split; [exact Eit|]. split; [lia|].
    split.
    + intros j Hj. destruct (Hall j Hj) as (_ & itj & Ej & Hj'). exists itj. split; [exact Ej|]. lia.
    + split; [reflexivity|]. s2proj. split; [reflexivity|].
      split; [rewrite Hcl2, Hc2; reflexivity|].
      split; [exact (wr_rd_same _ _ _ _ Ew4)|]. s2proj. auto.
Qed.

Lemma slru2_scan_chain_keep its i fuel p iter is mt mi mp mh :
  slru_chain its fuel iter = Some is ->
  (forall j, j ∈ is -> exists it, rd its j = Some it /\ mt <= timestamp it) ->
  slru_scan_chain its i fuel p iter (mt, mi, mp, mh) = Some (mt, mi, mp, mh).
Proof.
  revert p iter is. induction fuel as [|f IH]; intros p iter is E H;
    cbn [slru_chain] in E; [discriminate|].
  cbn [slru_scan_chain]. destruct (iter =? NONE); [reflexivity|].
  apply bind_Some in E as (it & Eit & E). apply bind_Some in E as (is' & E' & E).
  injection E as <-. rewrite Eit. cbn [mbind option_bind].
  destruct (H iter ltac:(apply list_elem_of_here)) as (it' & Eit' & Hts).
  rewrite Eit in Eit'. injection Eit' as <-.
  replace (timestamp it <? mt) with false by (symmetry; apply Z.ltb_ge; exact Hts).
  eapply IH; [exact E'|]. intros j Hj. apply H. apply list_elem_of_further. exact Hj.
Qed.

Lemma slru2_scan_rows_keep s rs is mt mi mp mh :
  slru_rows_indices s rs = Some is ->
  (forall j, j ∈ is -> exists it, rd (items s) j = Some it /\ mt <= timestamp it) ->
  slru_scan_rows s rs (mt, mi, mp, mh) = Some (mt, mi, mp, mh).
Proof.
  revert is. induction rs as [|r rs IH]; intros is E H; [reflexivity|].
  cbn [slru_rows_indices] in E. cbn [slru_scan_rows].
  apply bind_Some in E as (iter & Eit & E). rewrite Eit. cbn [mbind option_bind].
  apply bind_Some in E as (is1 & E1 & E). apply bind_Some in E as (is2 & E2 & E).
  injection E as <-.
  rewrite (slru2_scan_chain_keep _ _ _ _ _ _ _ _ _ _ E1).
  - cbn [mbind option_bind]. eapply IH; [exact E2|].
    intros j Hj. apply H. apply elem_of_app. right. exact Hj.
  - intros j Hj. apply H. apply elem_of_app. left. exact Hj.
Qed.

(** When the budget is short and every slot on the rows has the timestamp
    [UINT32_MAX], the scan of [slru_free_one] (which keeps a slot only if
    its timestamp is strictly below [UINT32_MAX]) finds nothing to evict:
    [slru_insert] returns [SLRU_DOESNT_FIT] and leaves the cache and the
    world unchanged. *)
Theorem slru2_insert_doesnt_fit s w k v c is :
  cache_left s < c -> slru_row_indices s = Some is ->
  (forall j, j ∈ is -> exists it, rd (items s) j = Some it /\ NONE <= timestamp it) ->
  slru_insert s w k v c = Some (SLRU_DOESNT_FIT, s, w).
Proof.
  intros Hlt Ei H.
  assert (Ef : slru_free_one s w = Some (SLRU_ERROR, s, w)).
  { unfold slru_free_one. unfold slru_row_indices in Ei.
    rewrite (slru2_scan_rows_keep _ _ _ _ _ _ _ Ei H). cbn [mbind option_bind].
    rewrite Z.eqb_refl. reflexivity. }
  unfold slru_insert. cbn [slru_make_room].
  replace (cache_left s <? c) with true by (symmetry; apply Z.ltb_lt; exact Hlt).
  rewrite Ef. cbn [mbind option_bind].
  replace (SLRU_ERROR =? SLRU_OK) with false by reflexivity. cbn [negb mbind option_bind].
  replace (cache_left s <? c) with true by (symmetry; apply Z.ltb_lt; exact Hlt).
  reflexivity.
Qed.

Lemma slru2_free_one_ts s w r s' w' :
  slru_free_one s w = Some (r, s', w') -> timestamp_ctr s' = timestamp_ctr s.
Proof. unfold slru_free_one, set_item, set_ht. intros E. des_opt; reflexivity. Qed.

Lemma slru2_make_room_ts fuel c s w s' w' :
  slru_make_room fuel c s w = Some (s', w') -> timestamp_ctr s' = timestamp_ctr s.
Proof.
  revert s w. induction fuel as [|f IH]; intros s w E; cbn [slru_make_room] in E; [discriminate|].
  destruct (cache_left s <? c).
  - apply bind_Some in E as ([[r s1] w1] & E1 & E). apply slru2_free_one_ts in E1.
    destruct (negb (r =? SLRU_OK)).
    + injection E as <- _. exact E1.
    + rewrite (IH _ _ E). exact E1.
  - injection E as <- _. reflexivity.
Qed.

Lemma slru2_grow_ts s w ok s' w' :
  slru_insert_grow s w = Some (ok, s', w') -> timestamp_ctr s' = timestamp_ctr s.
Proof.
  unfold slru_insert_grow. intros E. destruct (num_items s =? 0).
  - des_opt; reflexivity.
  - destruct (malloc w) as [r w1]. destruct r as [|j]; des_opt; reflexivity.
Qed.

Lemma slru2_insert_stamp s w k v c s' w' :
  slru_insert s w k v c = Some (SLRU_OK, s', w') ->
  timestamp_ctr s' = u32 (timestamp_ctr s + 1) /\
  exists idx it, rd (items s') idx = Some it /\ key it = Some k /\ timestamp it = timestamp_ctr s'.
Proof.
  unfold slru_insert. intros E.
  apply bind_Some in E as ([s0 w0] & E0 & E). apply slru2_make_room_ts in E0.
  destruct (cache_left s0 <? c); [discriminate|].
  apply bind_Some in E as (h & Eh & E).
  apply bind_Some in E as ([[ok s1] w1] & E1 & E).
  assert (K : timestamp_ctr s1 = timestamp_ctr s).
  { destruct (first_free (set_cache_left s0 (u32 (cache_left s0 - c))) =? NONE).
    - apply slru2_grow_ts in E1. rewrite E1. exact E0.
    - injection E1 as _ <- _. exact E0. }
  destruct ok; [|discriminate]. cbn [negb] in E.
  apply bind_Some in E as (item & Ei & E).
  destruct (malloc w1) as [r w2]. destruct r as [|j].
  - apply bind_Some in E as (s2 & _ & E). discriminate.
  - apply bind_Some in E as (hh & Ehh & E). apply bind_Some in E as (s2 & E2 & E).
    apply bind_Some in E as (s3 & E3 & E). injection E as <- <-.
    unfold set_ht in E2. apply bind_Some in E2 as (ht & Eht & E2). injection E2 as <-.
    unfold set_item in E3. apply bind_Some in E3 as (its & Eits & E3). injection E3 as <-.
    cbn in Eits |- *. rewrite K. split; [reflexivity|].
    eexists. eexists. split; [exact (wr_rd_same _ _ _ _ Eits)|]. cbn. rewrite K. auto.
Qed.

(** The timestamp counter wraps: an insert made when it is [UINT32_MAX]
    stamps the new item 0, the smallest stamp, so the newest item looks
    like the oldest to [slru_free_one]. *)
Theorem slru2_insert_ts_wrap s w k v c s' w' :
  timestamp_ctr s = NONE -> slru_insert s w k v c = Some (SLRU_OK, s', w') ->
  timestamp_ctr s' = 0 /\
  exists idx it, rd (items s') idx = Some it /\ key it = Some k /\ timestamp it = 0.
Proof.
  intros Ht E. apply slru2_insert_stamp in E as (E1 & idx & it & Ei & Hk & Hts).
  rewrite Ht in E1. change (u32 (NONE + 1)) with 0 in E1.
  split; [exact E1|]. exists idx, it. split; [exact Ei|]. split; [exact Hk|]. congruence.
Qed.

Lemma slru2_hash_lt_size_witness :
  0 < 4 /\ exists h, slru_hash key_a 1 0 4 = Some h /\ 0 <= h < 4.
Proof. split; [lia|]. apply (slru2_hash_lt_size key_a 1 0 4). lia. Defined.

Lemma slru2_ctz_spec_witness :
  0 <= 1 /\ 0 <= 2 /\ (2 * 1 + 1) * 2 ^ 2 < 2 ^ 32 /\ slru_ctz ((2 * 1 + 1) * 2 ^ 2) = 2.
Proof.
  split; [lia|]. split; [lia|]. split; [lia|]. apply (slru2_ctz_spec 1 2); lia.
Defined.

Lemma slru2_remove_all_no_slots_witness :
  num_items (slru2_created 4 0 10) = 0 /\ items (slru2_created 4 0 10) = [] /\
  slru_remove_all (slru2_created 4 0 10) w_ok = None.
Proof.
  assert (H1 : num_items (slru2_created 4 0 10) = 0) by (vm_compute; reflexivity).
  assert (H2 : items (slru2_created 4 0 10) = []) by (vm_compute; reflexivity).
  split; [exact H1|]. split; [exact H2|].
  exact (slru2_remove_all_no_slots (slru2_created 4 0 10) w_ok H1 H2).
Defined.

Lemma slru2_create_destroy_witness :
  0 <= 2 <= NONE /\
  exists s w', slru_create 4 2 10 w_ok = Some (Some s, w') /\
    slru_destroy s w_fail_next = Some w_fail_next.
Proof.
  assert (H1 : 0 <= 2 <= NONE) by (unfold NONE; lia). split; [exact H1|].
  destruct (slru_create 4 2 10 w_ok) as [[[s|] w']|] eqn:E;
    [|vm_compute in E; discriminate|vm_compute in E; discriminate].
  exists s, w'. split; [reflexivity|].
  exact (slru2_create_destroy 4 2 10 w_ok s w' w_fail_next H1 E).
Defined.

Lemma slru2_grow_oom_corrupts_witness :
  first_free slru2_one = NONE /\ 0 < num_items slru2_one < 2 ^ 31 /\
  0 <= 1 <= cache_left slru2_one /\ cache_left slru2_one < 2 ^ 32 /\
  0 < hash_table_size slru2_one /\ fst (malloc w_fail_next) = AllocFail /\
  exists s', slru_insert slru2_one w_fail_next key_b 2 1 =
      Some (SLRU_OOM, s', snd (malloc w_fail_next)) /\
    items s' = [] /\ num_items s' = 2 * num_items slru2_one /\ first_free s' = NONE.
Proof.
  assert (H1 : first_free slru2_one = NONE) by (vm_compute; reflexivity).
  assert (Hn : num_items slru2_one = 1) by (vm_compute; reflexivity).
  assert (Hc : cache_left slru2_one = 9) by (vm_compute; reflexivity).
  assert (Hh : hash_table_size slru2_one = 4) by (vm_compute; reflexivity).
  assert (H2 : 0 < num_items slru2_one < 2 ^ 31) by (rewrite Hn; lia).
  assert (H3 : 0 <= 1 <= cache_left slru2_one) by (rewrite Hc; lia).
  assert (H4 : cache_left slru2_one < 2 ^ 32) by (rewrite Hc; lia).
  assert (H5 : 0 < hash_table_size slru2_one) by (rewrite Hh; lia).
  assert (H6 : fst (malloc w_fail_next) = AllocFail) by reflexivity.
  do 6 (split; [assumption|]).
  destruct (slru2_grow_oom_corrupts slru2_one w_fail_next key_b 2 1 H1 H2 H3 H4 H5 H6)
    as (s' & E & Hi & Hn' & Hf & _).
  exists s'. auto.
Defined.

Lemma slru2_insert_fetch_witness :
  exists s' w', slru_insert (slru2_created 4 2 10) w_ok key_a 1 1 = Some (SLRU_OK, s', w') /\
    exists s'', slru_fetch s' key_a 0 = Some (1, s'').
Proof.
  destruct (slru_insert (slru2_created 4 2 10) w_ok key_a 1 1) as [[[r s'] w']|] eqn:E;
    [|vm_compute in E; discriminate].
  assert (Hr : r = SLRU_OK) by (vm_compute in E; vm_compute; congruence). subst r.
  exists s', w'. split; [reflexivity|].
  exact (slru2_insert_fetch _ _ _ _ _ _ _ 0 E).
Defined.

Lemma slru2_insert_remove_restores_witness :
  first_free (slru2_created 4 2 10) <> NONE /\ 0 <= 1 <= cache_left (slru2_created 4 2 10) /\
  cache_left (slru2_created 4 2 10) < 2 ^ 32 /\
  exists s1 w1 s2, slru_insert (slru2_created 4 2 10) w_ok key_a 1 1 = Some (SLRU_OK, s1, w1) /\
    slru_remove s1 w_ok key_a = Some (SLRU_OK, s2, w_ok) /\
    hash_table s2 = hash_table (slru2_created 4 2 10) /\
    first_free s2 = first_free (slru2_created 4 2 10) /\
    cache_left s2 = cache_left (slru2_created 4 2 10).
Proof.
  assert (Hf : first_free (slru2_created 4 2 10) = 0) by (vm_compute; reflexivity).
  assert (Hc : cache_left (slru2_created 4 2 10) = 10) by (vm_compute; reflexivity).
  assert (H1 : first_free (slru2_created 4 2 10) <> NONE) by (rewrite Hf; unfold NONE; lia).
  assert (H2 : 0 <= 1 <= cache_left (slru2_created 4 2 10)) by (rewrite Hc; lia).
  assert (H3 : cache_left (slru2_created 4 2 10) < 2 ^ 32) by (rewrite Hc; lia).
  split; [exact H1|]. split; [exact H2|]. split; [exact H3|].
  destruct (slru_insert (slru2_created 4 2 10) w_ok key_a 1 1) as [[[r s1] w1]|] eqn:E;
    [|vm_compute in E; discriminate].
  assert (Hr : r = SLRU_OK) by (vm_compute in E; vm_compute; congruence). subst r.
  destruct (slru2_insert_remove_restores _ _ _ _ _ _ _ w_ok H1 H2 H3 E)
    as (s2 & E2 & Hh & Hff & Hcl & _).
  exists s1, w1, s2. auto.
Defined.

Lemma slru2_first_arena_witness :
  first_free (slru2_created 12 0 10) = NONE /\ num_items (slru2_created 12 0 10) = 0 /\
  hash_table_size (slru2_created 12 0 10) = (2 * 1 + 1) * 2 ^ 2 /\
  Z.of_nat (length (hash_table (slru2_created 12 0 10))) = hash_table_size (slru2_created 12 0 10) /\
  0 <= 1 <= cache_left (slru2_created 12 0 10) /\
  exists s' w', slru_insert (slru2_created 12 0 10) w_ok key_a 1 1 = Some (SLRU_OK, s', w') /\
    num_items s' = 2 ^ 2 /\ Z.of_nat (length (items s')) = 2 ^ 2 /\
    first_free s' = (if 2 =? 0 then NONE else 1).
Proof.
  assert (H1 : first_free (slru2_created 12 0 10) = NONE) by (vm_compute; reflexivity).
  assert (H2 : num_items (slru2_created 12 0 10) = 0) by (vm_compute; reflexivity).
  assert (H3 : hash_table_size (slru2_created 12 0 10) = (2 * 1 + 1) * 2 ^ 2)
    by (vm_compute; reflexivity).
  assert (H4 : Z.of_nat (length (hash_table (slru2_created 12 0 10))) =
    hash_table_size (slru2_created 12 0 10)) by (vm_compute; reflexivity).
  assert (Hc : cache_left (slru2_created 12 0 10) = 10) by (vm_compute; reflexivity).
  assert (H5 : 0 <= 1 <= cache_left (slru2_created 12 0 10)) by (rewrite Hc; lia).
  do 5 (split; [assumption|]).
  apply (slru2_first_arena _ _ _ _ _ 1 2 0 0 H1 H2);
    [lia|lia|exact H3|rewrite H3; lia|exact H4|exact H5|reflexivity|reflexivity].
Defined.

Lemma slru2_grow_shift_ub_witness :
  let s := mk_slru (repeat NONE (Z.to_nat (2 ^ 31))) [] 0 (2 ^ 31) 0 NONE 0 10 10 in
  slru_create (2 ^ 31) 0 10 w_ok = Some (Some s, w_ok) /\
  first_free s = NONE /\ num_items s = 0 /\ hash_table_size s = 2 ^ 31 /\
  0 <= 1 <= cache_left s /\ slru_insert s w_ok key_a 1 1 = None.
Proof.
  intros s. split; [reflexivity|].
  assert (H1 : first_free s = NONE) by reflexivity.
  assert (H2 : num_items s = 0) by reflexivity.
  assert (H3 : hash_table_size s = 2 ^ 31) by reflexivity.
  assert (H4 : 0 <= 1 <= cache_left s) by (cbn; lia).
  do 4 (split; [assumption|]).
  exact (slru2_grow_shift_ub s w_ok key_a 1 1 H1 H2 H3 H4).
Defined.

Lemma slru2_first_arena_destroy_witness :
  exists s' w', slru_insert (slru2_created 12 0 10) w_junk7 key_a 1 1 = Some (SLRU_OK, s', w') /\
    slru_destroy s' w_ok = Some (mk_world [] [1; 7; 7; 7]).
Proof.
  assert (H1 : first_free (slru2_created 12 0 10) = NONE) by (vm_compute; reflexivity).
  assert (H2 : num_items (slru2_created 12 0 10) = 0) by (vm_compute; reflexivity).
  assert (H3 : hash_table_size (slru2_created 12 0 10) = (2 * 1 + 1) * 2 ^ 2)
    by (vm_compute; reflexivity).
  assert (H4 : Z.of_nat (length (hash_table (slru2_created 12 0 10))) =
    hash_table_size (slru2_created 12 0 10)) by (vm_compute; reflexivity).
  assert (Hc : cache_left (slru2_created 12 0 10) = 10) by (vm_compute; reflexivity).
  assert (H5 : 0 < 1 <= cache_left (slru2_created 12 0 10)) by (rewrite Hc; lia).
  destruct (slru2_first_arena_destroy _ w_junk7 key_a 1 1 1 2 7 0 w_ok H1 H2)
    as (s' & w' & E & Ed);
    [lia|lia|exact H3|rewrite H3; lia|exact H4|exact H5|reflexivity|reflexivity
    |vm_compute; discriminate|].
  exists s', w'. split; [exact E|]. rewrite Ed. reflexivity.
Defined.

Lemma slru2_free_one_oldest_witness :
  exists r s' w', slru_free_one slru2_ab w_ok = Some (r, s', w') /\
  exists is, slru_row_indices slru2_ab = Some is /\
    ((r = SLRU_ERROR /\ s' = slru2_ab /\ w' = w_ok /\
      forall j, j ∈ is -> exists it, rd (items slru2_ab) j = Some it /\ NONE <= timestamp it) \/
     (r = SLRU_OK /\ exists i it it', i ∈ is /\ rd (items slru2_ab) i = Some it /\
      timestamp it < NONE /\
      (forall j, j ∈ is -> exists itj, rd (items slru2_ab) j = Some itj /\
         timestamp it <= timestamp itj) /\
      w' = evict w_ok (value it) /\ first_free s' = i /\
      cache_left s' = u32 (cache_left slru2_ab + consumption it) /\
      rd (items s') i = Some it' /\ key it' = None /\ consumption it' = 0 /\
      next it' = first_free slru2_ab)).
Proof.
  destruct (slru_free_one slru2_ab w_ok) as [[[r s'] w']|] eqn:E;
    [|vm_compute in E; discriminate].
  exists r, s', w'. split; [reflexivity|].
  exact (slru2_free_one_oldest slru2_ab w_ok r s' w' E).
Defined.

Lemma slru2_insert_doesnt_fit_witness :
  cache_left slru2_stale < 1 /\ slru_row_indices slru2_stale = Some [0] /\
  (forall j, j ∈ [0] -> exists it, rd (items slru2_stale) j = Some it /\ NONE <= timestamp it) /\
  slru_insert slru2_stale w_ok key_b 2 1 = Some (SLRU_DOESNT_FIT, slru2_stale, w_ok).
Proof.
  assert (H1 : cache_left slru2_stale < 1) by (vm_compute; reflexivity).
  assert (H2 : slru_row_indices slru2_stale = Some [0]) by (vm_compute; reflexivity).
  assert (H3 : forall j, j ∈ [0] ->
    exists it, rd (items slru2_stale) j = Some it /\ NONE <= timestamp it).
  { intros j Hj. apply list_elem_of_singleton in Hj. subst j.
    eexists. split; [vm_compute; reflexivity|vm_compute; discriminate]. }
  split; [exact H1|]. split; [exact H2|]. split; [exact H3|].
  exact (slru2_insert_doesnt_fit slru2_stale w_ok key_b 2 1 [0] H1 H2 H3).
Defined.

Lemma slru2_insert_ts_wrap_witness :
  timestamp_ctr (set_timestamp_ctr (slru2_created 4 2 10) NONE) = NONE /\
  exists s' w', slru_insert (set_timestamp_ctr (slru2_created 4 2 10) NONE) w_ok key_a 1 1 =
      Some (SLRU_OK, s', w') /\
    timestamp_ctr s' = 0 /\
    exists idx it, rd (items s') idx = Some it /\ key it = Some key_a /\ timestamp it = 0.
Proof.
  assert (H1 : timestamp_ctr (set_timestamp_ctr (slru2_created 4 2 10) NONE) = NONE)
    by reflexivity.
  split; [exact H1|].
  destruct (slru_insert (set_timestamp_ctr (slru2_created 4 2 10) NONE) w_ok key_a 1 1)
    as [[[r s'] w']|] eqn:E; [|vm_compute in E; discriminate].
  assert (Hr : r = SLRU_OK) by (vm_compute in E; vm_compute; congruence). subst r.
  exists s', w'. split; [reflexivity|].
  exact (slru2_insert_ts_wrap _ w_ok key_a 1 1 s' w' H1 E).
Defined.

End Slru2Facts.
